(** * User processes and user threads: a shallow embedding of
      [userprog/process.c] and [userprog/syscall.c]

    The C code is embedded as executable Rocq functions.  Unsigned 32-bit
    quantities are integers in [0, 2^32) with the wrap-around written out;
    the 256-entry tables of the process control block are lists indexed with
    stdpp's lookup and insert; heap objects shared between two owners
    (wait-status and join-status records) live in a finite map from
    addresses to records. *)

From Stdlib Require Import ZArith Lia.
From stdpp Require Import base option list strings gmap.

Local Open Scope Z_scope.

(** ** Machine constants *)

(** Modelled from the spec: [threads/vaddr.h] is not among the sources.  The
    page size follows from [MAX_STACK_PAGES = 1 << 11] covering 8MB; the
    kernel boundary is the customary 3GB mark. *)
Definition PGBITS : Z := 12.
Definition PGSIZE : Z := Z.shiftl 1 PGBITS.
Definition PGMASK : Z := PGSIZE - 1.
Definition PHYS_BASE : Z := 0xc0000000.

Definition UINT32_MOD : Z := 2 ^ 32.

(** Arithmetic on [uint32_t] and [size_t] wraps modulo 2^32. *)
Definition wrap32 (z : Z) : Z := z mod UINT32_MOD.
Definition add32 (a b : Z) : Z := wrap32 (a + b).
Definition sub32 (a b : Z) : Z := wrap32 (a - b).

Definition is_u32 (z : Z) : Prop := 0 <= z < UINT32_MOD.

(** [is_user_vaddr] of [threads/vaddr.h]. *)
Definition is_user_vaddr (vaddr : Z) : bool := vaddr <? PHYS_BASE.

(** [pg_ofs]: the offset of an address within its page. *)
Definition pg_ofs (va : Z) : Z := Z.land va PGMASK.

(** [ROUND_UP] of [round.h]. *)
Definition ROUND_UP (x step : Z) : Z := (x + step - 1) / step * step.

(** What a kernel function does when called: it returns a value; it hits a
    failed [ASSERT] or [NOT_REACHED] and panics the kernel; it reads or
    writes outside the object it was handed (undefined behaviour in C); or
    it spins in a loop that has no exit. *)
Inductive outcome (A : Type) : Type :=
| Ret (a : A)
| Panic
| Stray
| Hang.
Arguments Ret {A} a.
Arguments Panic {A}.
Arguments Stray {A}.
Arguments Hang {A}.

Global Instance outcome_ret : MRet outcome := fun A a => Ret a.
Global Instance outcome_bind : MBind outcome := fun A B k m =>
  match m with
  | Ret a => k a
  | Panic => Panic
  | Stray => Stray
  | Hang => Hang
  end.

(** A thread running a kernel function either comes back with a value, or
    goes to sleep on a wait channel (inside [sema_down] or [lock_acquire])
    having changed the state so far, or does not come back at all. *)
Inductive wchan : Type :=
| OnDead (a : nat)
| OnJoin (a : nat)
| OnProcessThreadLock
| OnUserLock (slot : nat).

Inductive run (A S : Type) : Type :=
| Returns (v : A) (s : S)
| Sleeps (w : wchan) (s : S)
| Aborts (why : outcome False).
Arguments Returns {A S} v s.
Arguments Sleeps {A S} w s.
Arguments Aborts {A S} why.

Definition tid_t : Type := Z.
Definition TID_ERROR : Z := -1.

(** Address of a heap-allocated record ([malloc]/[calloc]). *)
Abbreviation addr := nat (only parsing).

(** ** ELF program headers: [validate_segment] *)

Record Elf32_Phdr : Type := mkPhdr {
  p_type : Z;
  p_offset : Z;
  p_vaddr : Z;
  p_paddr : Z;
  p_filesz : Z;
  p_memsz : Z;
  p_flags : Z;
  p_align : Z
}.

Definition phdr_wf (phdr : Elf32_Phdr) : Prop :=
  is_u32 (p_offset phdr) /\ is_u32 (p_vaddr phdr) /\
  is_u32 (p_filesz phdr) /\ is_u32 (p_memsz phdr).

(** [file_len] is the value of [file_length (file)], an [off_t]; the code
    casts it to [Elf32_Off] before the comparison. *)
Definition validate_segment (phdr : Elf32_Phdr) (file_len : Z) : bool :=
  if negb (Z.land (p_offset phdr) PGMASK =? Z.land (p_vaddr phdr) PGMASK) then false
  else if wrap32 file_len <? p_offset phdr then false
  else if p_memsz phdr <? p_filesz phdr then false
  else if p_memsz phdr =? 0 then false
  else if negb (is_user_vaddr (p_vaddr phdr)) then false
  else if negb (is_user_vaddr (add32 (p_vaddr phdr) (p_memsz phdr))) then false
  else if add32 (p_vaddr phdr) (p_memsz phdr) <? p_vaddr phdr then false
  else if p_vaddr phdr <? PGSIZE then false
  else true.

(** The rejection conditions as the specification lists them. *)
Definition segment_rejected (phdr : Elf32_Phdr) (file_len : Z) : Prop :=
  p_offset phdr mod PGSIZE <> p_vaddr phdr mod PGSIZE \/
  p_offset phdr > file_len \/
  p_memsz phdr < p_filesz phdr \/
  p_memsz phdr = 0 \/
  is_user_vaddr (p_vaddr phdr) = false \/
  is_user_vaddr (add32 (p_vaddr phdr) (p_memsz phdr)) = false \/
  add32 (p_vaddr phdr) (p_memsz phdr) < p_vaddr phdr \/
  p_vaddr phdr < PGSIZE.

(** ** Pages of memory and [push] *)

(** A page is [PGSIZE] bytes; a byte is an integer in [0, 256).  Positions
    inside a page are page offsets. *)
Abbreviation page := (list Z) (only parsing).

Definition zero_page : page := replicate (Z.to_nat PGSIZE) 0.

Definition load8 (m : page) (a : Z) : Z := default 0 (m !! Z.to_nat a).

(** [memcpy (kpage + dst, buf, size)]. *)
Definition memcpy (m : page) (dst : Z) (buf : list Z) : page :=
  list_inserts (Z.to_nat dst) buf m.

(** Little-endian encoding of a 32-bit word (i386). *)
Definition le_bytes32 (w : Z) : list Z :=
  [ w mod 256; (w / 256) mod 256; (w / 65536) mod 256; (w / 16777216) mod 256 ].

Definition load32 (m : page) (a : Z) : Z :=
  load8 m a + 256 * load8 m (a + 1) + 65536 * load8 m (a + 2)
  + 16777216 * load8 m (a + 3).

Definition store32 (m : page) (a : Z) (w : Z) : page := memcpy m a (le_bytes32 w).

(** [push (kpage, &ofs, buf, size)].  Returns [None] for the null pointer,
    otherwise the page, the new [*ofs] and the page offset of the pushed
    object.  [ofs] is a [size_t]; a copy that would land outside the page
    is a stray store. *)
Definition push (kpage : page) (ofs : Z) (buf : list Z)
  : outcome (option (page * Z * Z)) :=
  let size := Z.of_nat (length buf) in
  let padsize := ROUND_UP size 4 in
  if ofs <? padsize then Ret None
  else
    let ofs' := ofs - padsize in
    let dst := ofs' + (padsize - size) in
    if dst + size <=? PGSIZE
    then Ret (Some (memcpy kpage dst buf, ofs', dst))
    else Stray.

(** ** The initial stack: [reverse], [init_cmd_line] *)

(** The string a [char *] names: the bytes up to the first terminator. *)
Fixpoint cstring (bytes : list Z) : list Z :=
  match bytes with
  | [] => []
  | c :: rest => if c =? 0 then [] else c :: cstring rest
  end.

Definition MAX_ARGS : nat := 1024.
Definition SPACE : Z := 32.

(** [reverse (argc, argv)], with [argv] the page offset of the array. *)
Fixpoint reverse (argc : nat) (argv : Z) (m : page) : page :=
  match argc with
  | S (S argc') =>
      let last := argv + 4 * (Z.of_nat argc - 1) in
      let tmp := load32 m argv in
      let m := store32 m argv (load32 m last) in
      let m := store32 m last tmp in
      reverse argc' (argv + 4) m
  | _ => m
  end.

(** Modelled from the spec: [strtok_r] belongs to [lib/string.c], which is
    not among the sources.  With the single delimiter [" "] it skips
    spaces from the current position and returns null at the terminator;
    otherwise the token starts there, runs up to the next space or the
    terminator, a space is overwritten by a terminator and the saved
    position is set behind it.  Both scans walk forward through the bytes
    that remain in the page. *)
Fixpoint strtok_skip (rest : list Z) (s : nat) : outcome (option nat) :=
  match rest with
  | [] => Stray
  | c :: rest' =>
      if c =? 0 then Ret None
      else if c =? SPACE then strtok_skip rest' (S s)
      else Ret (Some s)
  end.

Fixpoint strtok_span (rest : list Z) (s : nat) : outcome (nat * Z) :=
  match rest with
  | [] => Stray
  | c :: rest' =>
      if (c =? 0) || (c =? SPACE) then Ret (s, c)
      else strtok_span rest' (S s)
  end.

(** Returns the token's page offset, the page and the saved position. *)
Definition strtok_r (m : page) (s : nat) : outcome (option (nat * page * nat)) :=
  t ← strtok_skip (drop s m) s;
  match t with
  | None => Ret None
  | Some token =>
      '(e, c) ← strtok_span (drop token m) token;
      if c =? 0 then Ret (Some (token, m, e))
      else Ret (Some (token, <[e := 0]> m, S e))
  end.

(** The tokenising loop of [init_cmd_line]: each token's user address goes
    to [arguments[argc++]], an array of [MAX_ARGS] entries.  Every call of
    [strtok_r] that returns a token moves the saved position forward, so
    [fuel] as large as the page never runs out. *)
Fixpoint parse_arguments (fuel : nat) (m : page) (save : nat) (upage : Z)
  (arguments : list Z) : outcome (page * list Z) :=
  match fuel with
  | O => Hang
  | S fuel' =>
      r ← strtok_r m save;
      match r with
      | None => Ret (m, arguments)
      | Some (karg, m', save') =>
          if bool_decide (length arguments < MAX_ARGS)%nat
          then parse_arguments fuel' m' save' upage
                 (arguments ++ [upage + Z.of_nat karg])
          else Stray
      end
  end.

(** The loop pushing [arguments[0 .. argc)]. *)
Fixpoint push_arguments (m : page) (ofs : Z) (arguments : list Z)
  : outcome (option (page * Z)) :=
  match arguments with
  | [] => Ret (Some (m, ofs))
  | a :: rest =>
      r ← push m ofs (le_bytes32 a);
      match r with
      | None => Ret None
      | Some (m', ofs', _) => push_arguments m' ofs' rest
      end
  end.

(** [init_cmd_line (kpage, upage, cmd_line, esp)]: [None] for [false],
    otherwise the page and [*esp].  [cmd_line] holds the bytes of the string
    before its terminator. *)
Definition init_cmd_line (kpage : page) (upage : Z) (cmd_line : list Z)
  : outcome (option (page * Z)) :=
  let ofs := PGSIZE in
  r ← push kpage ofs (cmd_line ++ [0]);
  match r with
  | None => Ret None
  | Some (m, ofs, cmd_line_copy) =>
      '(m, arguments) ←
        parse_arguments (S (length m)) m (Z.to_nat cmd_line_copy) upage [];
      let argc := Z.of_nat (length arguments) in
      let alignment_adjustment :=
        wrap32 ((PGSIZE - ofs) + (argc + 1) * 4 + 4 + 4) mod 16 in
      let ofs := sub32 ofs (16 - alignment_adjustment) in
      r ← push m ofs (le_bytes32 0);
      match r with
      | None => Ret None
      | Some (m, ofs, _) =>
          r ← push_arguments m ofs arguments;
          match r with
          | None => Ret None
          | Some (m, ofs) =>
              let argv := upage + ofs in
              let m := reverse (length arguments) ofs m in
              r ← push m ofs (le_bytes32 argv);
              match r with
              | None => Ret None
              | Some (m, ofs, _) =>
                  r ← push m ofs (le_bytes32 argc);
                  match r with
                  | None => Ret None
                  | Some (m, ofs, _) =>
                      r ← push m ofs (le_bytes32 0);
                      match r with
                      | None => Ret None
                      | Some (m, ofs, _) => Ret (Some (m, upage + ofs))
                      end
                  end
              end
          end
      end
  end.

(** The page on which [setup_stack] runs [init_cmd_line]. *)
Definition stack_upage : Z := PHYS_BASE - PGSIZE.

(** The space-separated tokens of a command line: the fields between
    spaces, without the empty ones. *)
Fixpoint fields (l : list Z) : list (list Z) :=
  match l with
  | [] => [[]]
  | c :: l' =>
      if c =? SPACE then [] :: fields l'
      else
        match fields l' with
        | f :: fs => (c :: f) :: fs
        | [] => [[c]]
        end
  end.

Definition tokens (l : list Z) : list (list Z) :=
  filter (fun f => f <> []) (fields l).

(** A user address inside the stack page, read through the mapping of
    [upage] to the kernel page. *)
Definition user_string (m : page) (upage : Z) (uaddr : Z) : list Z :=
  cstring (drop (Z.to_nat (uaddr - upage)) m).

Definition user_word (m : page) (upage : Z) (uaddr : Z) : Z :=
  load32 m (uaddr - upage).

(** The bytes of a string literal. *)
Definition bytes_of_string (s : string) : list Z :=
  (fun a => Z.of_N (Ascii.N_of_ascii a)) <$> String.list_ascii_of_string s.

(** The bytes the frame of a command line takes in the page: the string
    with its terminator, rounded to words; the alignment padding; the
    argument pointers and the null sentinel; [argv], [argc] and the return
    address. *)
Definition frame_bytes (cmd_line : list Z) : Z :=
  let string_bytes := ROUND_UP (Z.of_nat (length cmd_line) + 1) 4 in
  let argc := Z.of_nat (length (tokens cmd_line)) in
  let padding := 16 - (string_bytes + (argc + 1) * 4 + 4 + 4) mod 16 in
  string_bytes + padding + (argc + 1) * 4 + 12.

Definition fits_in_page (cmd_line : list Z) : Prop := frame_bytes cmd_line <= PGSIZE.

(** Two pages that differ at most at the offsets in [lo, hi). *)
Definition same_outside (m m' : list Z) (lo hi : Z) : Prop :=
  length m' = length m /\
  forall i : nat, Z.of_nat i < lo \/ hi <= Z.of_nat i -> m' !! i = m !! i.

(** The bytes [l] sit in the page from offset [a] on. *)
Definition bytes_at (m : list Z) (a : nat) (l : list Z) : Prop :=
  forall (i : nat) (x : Z), l !! i = Some x -> m !! (a + i)%nat = Some x.

(** The 32-bit words [ws] sit in the page from offset [a] on. *)
Definition words_at (m : list Z) (a : Z) (ws : list Z) : Prop :=
  forall (j : nat) (w : Z), ws !! j = Some w -> load32 m (a + 4 * Z.of_nat j) = w.

(** ** Records of the process control block ([userprog/process.h]) *)

(** [struct wait_status]; its lock only guards [ref_cnt]. *)
Record wait_status : Type := mkWait {
  ws_ref_cnt : Z;
  ws_pid : Z;
  ws_exit_code : Z;
  ws_dead : nat
}.

(** Modelled from the spec: [struct join_status] is declared in
    [threads/thread.h], which is not among the sources.  Fields: thread id,
    waited-on flag, semaphore, reference count, lock ([js_lock_ready] records
    whether [lock_init] has run on it). *)
Record join_status : Type := mkJoin {
  js_tid : Z;
  js_waited_on : bool;
  js_sema : nat;
  js_ref_cnt : Z;
  js_lock_ready : bool
}.

Record user_thread_entry : Type := mkEntry {
  ute_thread : option Z;
  ute_tid : Z;
  ute_waited_on : bool;
  ute_completed : bool;
  ute_initialized : bool;
  ute_kpage : Z;
  ute_upage : Z
}.

(** [thread_lock_t]: the primitive lock is represented by its holder. *)
Record thread_lock_t : Type := mkLock {
  tl_holder : option Z;
  tl_tid : Z;
  tl_initialized : bool
}.

Record thread_sema_t : Type := mkSema {
  tsm_value : nat;
  tsm_initialized : bool
}.

(** The page directory maps a user page to its kernel page and writable
    flag. *)
Abbreviation pagedir_t := (gmap Z (Z * bool)) (only parsing).

(** [struct process]. *)
Record process : Type := mkProcess {
  wait_status_of : option addr;
  children : list addr;
  join_statuses : list addr;
  pagedir : option pagedir_t;
  main_thread : Z;
  next_handle : Z;
  process_thread_lock : option Z;
  user_thread_list : list user_thread_entry;
  user_thread_counter : Z;
  exiting : bool;
  locks : list thread_lock_t;
  semaphores : list thread_sema_t;
  offsets : list bool
}.

Definition set_children (l : list addr) (p : process) : process :=
  mkProcess (wait_status_of p) l (join_statuses p) (pagedir p) (main_thread p)
    (next_handle p) (process_thread_lock p) (user_thread_list p)
    (user_thread_counter p) (exiting p) (locks p) (semaphores p) (offsets p).

Definition set_join_statuses (l : list addr) (p : process) : process :=
  mkProcess (wait_status_of p) (children p) l (pagedir p) (main_thread p)
    (next_handle p) (process_thread_lock p) (user_thread_list p)
    (user_thread_counter p) (exiting p) (locks p) (semaphores p) (offsets p).

Definition set_pagedir (pd : option pagedir_t) (p : process) : process :=
  mkProcess (wait_status_of p) (children p) (join_statuses p) pd (main_thread p)
    (next_handle p) (process_thread_lock p) (user_thread_list p)
    (user_thread_counter p) (exiting p) (locks p) (semaphores p) (offsets p).

Definition set_process_thread_lock (h : option Z) (p : process) : process :=
  mkProcess (wait_status_of p) (children p) (join_statuses p) (pagedir p)
    (main_thread p) (next_handle p) h (user_thread_list p)
    (user_thread_counter p) (exiting p) (locks p) (semaphores p) (offsets p).

Definition set_user_thread_list (l : list user_thread_entry) (p : process) : process :=
  mkProcess (wait_status_of p) (children p) (join_statuses p) (pagedir p)
    (main_thread p) (next_handle p) (process_thread_lock p) l
    (user_thread_counter p) (exiting p) (locks p) (semaphores p) (offsets p).

Definition set_locks (l : list thread_lock_t) (p : process) : process :=
  mkProcess (wait_status_of p) (children p) (join_statuses p) (pagedir p)
    (main_thread p) (next_handle p) (process_thread_lock p) (user_thread_list p)
    (user_thread_counter p) (exiting p) l (semaphores p) (offsets p).

Definition set_offsets (l : list bool) (p : process) : process :=
  mkProcess (wait_status_of p) (children p) (join_statuses p) (pagedir p)
    (main_thread p) (next_handle p) (process_thread_lock p) (user_thread_list p)
    (user_thread_counter p) (exiting p) (locks p) (semaphores p) l.

(** Modelled from the spec: the fields this subsystem adds to [struct thread]
    ([threads/thread.h], not among the sources): the thread's stack pages,
    its offset slot and its join-status. *)
Record thread : Type := mkThread {
  t_tid : Z;
  t_kpage : Z;
  t_upage : Z;
  t_offset : Z;
  t_join_status : option addr
}.

(** ** The stack-offset bitmap: [get_lowest_offset] *)

Definition NOFFSETS : nat := 256.

(** The [for] loop of [get_lowest_offset], [n] iterations left, at index
    [i].  Falling out of the loop reaches [NOT_REACHED ()]. *)
Fixpoint get_lowest_offset_loop (n i : nat) (offsets : list bool)
  : outcome (nat * list bool) :=
  match n with
  | O => Panic
  | S n' =>
      match offsets !! i with
      | Some false => Ret (i, <[i := true]> offsets)
      | _ => get_lowest_offset_loop n' (S i) offsets
      end
  end.

Definition get_lowest_offset (offsets : list bool) : outcome (nat * list bool) :=
  get_lowest_offset_loop NOFFSETS 0 offsets.

(** The bitmap as [start_process] initialises it. *)
Definition initial_offsets : list bool :=
  true :: true :: replicate (NOFFSETS - 2) false.

(** ** Thread stacks: [install_page], [setup_thread] *)

(** [install_page]: fails when [upage] is already mapped or when
    [pagedir_set_page] cannot allocate a page table ([pt_ok = false]). *)
Definition install_page (pd : pagedir_t) (upage kpage : Z) (writable pt_ok : bool)
  : bool * pagedir_t :=
  match pd !! upage with
  | Some _ => (false, pd)
  | None => if pt_ok then (true, <[upage := (kpage, writable)]> pd) else (false, pd)
  end.

(** [thread_create_args_t], without the semaphore. *)
Record thread_create_args : Type := mkArgs {
  a_sfun : Z;
  a_tfun : Z;
  a_arg : Z;
  a_success : bool;
  a_kpage : Z;
  a_upage : Z;
  a_offset : Z
}.

Definition set_args_pages (kpage upage offset : Z) (a : thread_create_args)
  : thread_create_args :=
  mkArgs (a_sfun a) (a_tfun a) (a_arg a) (a_success a) kpage upage offset.

Definition set_args_success (b : bool) (a : thread_create_args) : thread_create_args :=
  mkArgs (a_sfun a) (a_tfun a) (a_arg a) b (a_kpage a) (a_upage a) (a_offset a).

Record setup_result : Type := mkSetup {
  sr_success : bool;
  sr_pcb : process;
  sr_args : thread_create_args;
  sr_eip : Z;
  sr_esp : Z;
  sr_frame : option (Z * page)
}.

(** [setup_thread (&eip, &esp, aux)].  [palloc] is what
    [palloc_get_page (PAL_USER | PAL_ZERO)] returns (the kernel address of a
    zeroed page, or nothing), [esp0] the value [*esp] had on entry.
    [sr_frame] is the page the thread keeps, with its contents. *)
Definition setup_thread (args : thread_create_args) (pcb : process)
  (palloc : option Z) (pt_ok : bool) (esp0 : Z) : outcome setup_result :=
  let ofs := PGSIZE - 12 in
  let eip := a_sfun args in
  match palloc with
  | None => Ret (mkSetup false pcb args eip esp0 None)
  | Some kpage =>
      '(offset, offsets') ← get_lowest_offset (offsets pcb);
      let pcb := set_offsets offsets' pcb in
      let upage := PHYS_BASE - Z.of_nat offset * PGSIZE in
      let args := set_args_pages kpage upage (Z.of_nat offset) args in
      match pagedir pcb with
      | None => Stray
      | Some pd =>
          let '(success, pd') := install_page pd upage kpage true pt_ok in
          if success then
            let pcb := set_pagedir (Some pd') pcb in
            let esp := PHYS_BASE - (Z.of_nat offset - 1) * PGSIZE in
            r1 ← push zero_page ofs (le_bytes32 (a_arg args));
            match r1 with
            | None => Ret (mkSetup false pcb args eip esp (Some (kpage, zero_page)))
            | Some (m1, ofs1, _) =>
                r2 ← push m1 ofs1 (le_bytes32 (a_tfun args));
                match r2 with
                | None => Ret (mkSetup false pcb args eip esp (Some (kpage, m1)))
                | Some (m2, ofs2, _) =>
                    r3 ← push m2 ofs2 (le_bytes32 0);
                    match r3 with
                    | None => Ret (mkSetup false pcb args eip esp (Some (kpage, m2)))
                    | Some (m3, ofs3, _) =>
                        Ret (mkSetup true pcb args eip (upage + ofs3) (Some (kpage, m3)))
                    end
                end
            end
          else
            (* palloc_free_page (kpage) *)
            Ret (mkSetup false pcb args eip esp0 None)
      end
  end.

(** ** The user-thread table *)

Definition get_thread_entry (tid : Z) (l : list user_thread_entry)
  : option (nat * user_thread_entry) :=
  list_find (fun e => ute_tid e = tid) l.

(** [create_thread_entry], called by the thread [cur]; the entry is
    [calloc]ed and pushed at the back. *)
Definition create_thread_entry (cur tid : Z) (l : list user_thread_entry)
  : list user_thread_entry * user_thread_entry :=
  let e := mkEntry (if decide (tid = cur) then Some cur else None) tid
             false false false 0 0 in
  (l ++ [e], e).

(** ** The primitive lock *)

(** Modelled from the spec: the primitive lock of [threads/synch.c] is not
    among the sources.  [lock_acquire] asserts that the caller does not hold
    the lock and sleeps while another thread holds it; [lock_release] asserts
    that the caller holds it. *)
Inductive acquired : Type := Acquired | MustSleep | AssertFails.

Definition lock_acquire (cur : Z) (holder : option Z) : acquired :=
  match holder with
  | None => Acquired
  | Some h => if decide (h = cur) then AssertFails else MustSleep
  end.

Definition lock_release (cur : Z) (holder : option Z) : outcome (option Z) :=
  match holder with
  | Some h => if decide (h = cur) then Ret None else Panic
  | None => Panic
  end.

Definition lock_held_by_current_thread (cur : Z) (holder : option Z) : bool :=
  bool_decide (holder = Some cur).

(** ** Join-status records: [start_pthread], [pthread_join], [pthread_exit] *)

Abbreviation join_heap := (gmap nat join_status) (only parsing).

(** The second half of [start_pthread], after [setup_thread] has succeeded:
    under the process thread lock the thread registers itself and creates its
    join-status.  [entry_ok] and [js_alloc] are the results of the two
    [calloc]s. *)
Definition start_pthread_register (tid : Z) (args : thread_create_args)
  (pcb : process) (js : join_heap) (entry_ok : bool) (js_alloc : option addr)
  : outcome (process * join_heap * thread) :=
  entries ←
    match get_thread_entry tid (user_thread_list pcb) with
    | Some (i, e) => Ret (i, user_thread_list pcb, e)
    | None =>
        if entry_ok
        then let '(l, e) := create_thread_entry tid tid (user_thread_list pcb) in
             Ret (length (user_thread_list pcb), l, e)
        else Stray (* user_thread_entry is NULL and is written to *)
    end;
  let '(i, l, e) := entries in
  let e := mkEntry (ute_thread e) (ute_tid e) (ute_waited_on e) (ute_completed e)
             true (a_kpage args) (a_upage args) in
  let pcb := set_user_thread_list (<[i := e]> l) pcb in
  match js_alloc with
  | Some a =>
      Ret (set_join_statuses (a :: join_statuses pcb) pcb,
           <[a := mkJoin tid false 0 2 true]> js,
           mkThread tid (a_kpage args) (a_upage args) (a_offset args) (Some a))
  | None =>
      Ret (pcb, js, mkThread tid (a_kpage args) (a_upage args) (a_offset args) None)
  end.

(** The scan of [pthread_join]: the first entry of the list with this tid
    that has not been waited on. *)
Fixpoint find_join (js : join_heap) (tid : Z) (l : list addr) : outcome (option addr) :=
  match l with
  | [] => Ret None
  | a :: l' =>
      match js !! a with
      | None => Stray
      | Some j =>
          if bool_decide (js_tid j = tid) && negb (js_waited_on j)
          then Ret (Some a)
          else find_join js tid l'
      end
  end.

(** [list_remove (e)]: an element sits in an intrusive list once. *)
Fixpoint list_remove (a : addr) (l : list addr) : list addr :=
  match l with
  | [] => []
  | b :: l' => if decide (a = b) then l' else b :: list_remove a l'
  end.

Definition release_thread (a : addr) (js : join_heap) : outcome join_heap :=
  match js !! a with
  | None => Stray
  | Some j =>
      if negb (js_lock_ready j) then Stray
      else
        let new_ref_cnt := js_ref_cnt j - 1 in
        if new_ref_cnt =? 0 then Ret (delete a js)
        else Ret (<[a := mkJoin (js_tid j) (js_waited_on j) (js_sema j) new_ref_cnt
                          (js_lock_ready j)]> js)
  end.

Definition lift_outcome {A S : Type} (o : outcome (A * S)) : run A S :=
  match o with
  | Ret (v, s) => Returns v s
  | Panic => Aborts Panic
  | Stray => Aborts Stray
  | Hang => Aborts Hang
  end.

(** [pthread_join] from [sema_down (&join_status->sema)] on; a joiner that
    was put to sleep resumes here. *)
Definition pthread_join_finish (tid : Z) (a : addr) (pcb : process) (js : join_heap)
  : run Z (process * join_heap) :=
  match js !! a with
  | None => Aborts Stray
  | Some j =>
      match js_sema j with
      | O => Sleeps (OnJoin a) (pcb, js)
      | S v =>
          let js1 := <[a := mkJoin (js_tid j) (js_waited_on j) v (js_ref_cnt j)
                             (js_lock_ready j)]> js in
          lift_outcome (js2 ← release_thread a js1; Ret (tid, (pcb, js2)))
      end
  end.

(** [pthread_join (tid)], called by thread [cur].  The scan runs under the
    process thread lock, which the caller has to wait for while another
    thread holds it; the lock is released before [sema_down] and before
    [TID_ERROR] is returned, so it is free again in the state handed on. *)
Definition pthread_join (cur tid : Z) (pcb : process) (js : join_heap)
  : run Z (process * join_heap) :=
  match lock_acquire cur (process_thread_lock pcb) with
  | AssertFails => Aborts Panic
  | MustSleep => Sleeps OnProcessThreadLock (pcb, js)
  | Acquired =>
      match find_join js tid (join_statuses pcb) with
      | Ret (Some a) =>
          match js !! a with
          | None => Aborts Stray
          | Some j =>
              let pcb := set_join_statuses (list_remove a (join_statuses pcb)) pcb in
              let js := <[a := mkJoin (js_tid j) true (js_sema j) (js_ref_cnt j)
                                (js_lock_ready j)]> js in
              pthread_join_finish tid a pcb js
          end
      | Ret None => Returns TID_ERROR (pcb, js)
      | Panic => Aborts Panic
      | Stray => Aborts Stray
      | Hang => Aborts Hang
      end
  end.

Definition sema_up_join (a : addr) (js : join_heap) : outcome join_heap :=
  match js !! a with
  | None => Stray
  | Some j =>
      Ret (<[a := mkJoin (js_tid j) (js_waited_on j) (S (js_sema j)) (js_ref_cnt j)
                    (js_lock_ready j)]> js)
  end.

(** How a call of [pthread_exit] ends; it never comes back to its caller.
    The thread gets to [thread_exit] and leaves a state behind; or it goes
    to sleep in [lock_acquire] with the state it has made so far; or it is
    the main thread, and control passes, in the state of the call, to
    [pthread_exit_main], which joins the other threads and ends the whole
    process in [process_exit]; or the call goes wrong on the way. *)
Inductive exit_run : Type :=
| ThreadExits (pcb : process) (js : join_heap)
| ExitSleeps (w : wchan) (pcb : process) (js : join_heap)
| ExitsAsMain (pcb : process) (js : join_heap)
| ExitAborts (why : outcome False).

(** [pthread_exit] from the bitmap flip on, with the process thread lock
    held by the caller; a thread that was put to sleep on the lock resumes
    here. *)
Definition pthread_exit_finish (t : thread) (pcb : process) (js : join_heap) : exit_run :=
  if bool_decide (0 <= t_offset t < Z.of_nat NOFFSETS) then
    let pcb := set_offsets (<[Z.to_nat (t_offset t) := false]> (offsets pcb)) pcb in
    match lock_release (t_tid t) (process_thread_lock pcb) with
    | Ret h =>
        let pcb := set_process_thread_lock h pcb in
        match t_join_status t with
        | Some a =>
            match sema_up_join a js with
            | Ret js' => ThreadExits pcb js'
            | _ => ExitAborts Stray
            end
        | None => ThreadExits pcb js
        end
    | _ => ExitAborts Panic
    end
  else ExitAborts Stray.

(** [pthread_exit ()], called by the thread [t].  The main thread is sent to
    [pthread_exit_main].  Any other thread takes its entry out of the
    user-thread table (a thread without an entry dereferences the null
    pointer [get_thread_entry] returns), unmaps its stack page, and only
    then takes the process thread lock to clear its bit. *)
Definition pthread_exit (t : thread) (pcb : process) (js : join_heap) : exit_run :=
  if bool_decide (t_tid t = main_thread pcb) then ExitsAsMain pcb js
  else
    match get_thread_entry (t_tid t) (user_thread_list pcb) with
    | None => ExitAborts Stray
    | Some (i, _) =>
        let pcb := set_user_thread_list (delete i (user_thread_list pcb)) pcb in
        match pagedir pcb with
        | None => ExitAborts Stray
        | Some pd =>
            let pcb := set_pagedir (Some (delete (t_upage t) pd)) pcb in
            match lock_acquire (t_tid t) (process_thread_lock pcb) with
            | AssertFails => ExitAborts Panic
            | MustSleep => ExitSleeps OnProcessThreadLock pcb js
            | Acquired =>
                pthread_exit_finish t (set_process_thread_lock (Some (t_tid t)) pcb) js
            end
        end
    end.

(** ** Wait-status records: [process_execute], [process_wait], [process_exit] *)

Abbreviation wait_heap := (gmap nat wait_status) (only parsing).

Definition release_child (a : addr) (ws : wait_heap) : outcome wait_heap :=
  match ws !! a with
  | None => Stray
  | Some cs =>
      let new_ref_cnt := ws_ref_cnt cs - 1 in
      if new_ref_cnt =? 0 then Ret (delete a ws)
      else Ret (<[a := mkWait new_ref_cnt (ws_pid cs) (ws_exit_code cs) (ws_dead cs)]> ws)
  end.

(** The wait-status as [start_process] initialises it for the thread [tid]. *)
Definition new_wait_status (tid : Z) : wait_status := mkWait 2 tid (-1) 0.

(** The parent's side of [process_execute], once [load_done] has been
    signalled: [tid] is what [thread_create] returned, [success] and [cs]
    are what the child left in [exec]. *)
Definition process_execute_link (tid : Z) (success : bool) (cs : addr) (parent : process)
  : Z * process :=
  if bool_decide (tid <> TID_ERROR) then
    if success then (tid, set_children (children parent ++ [cs]) parent)
    else (TID_ERROR, parent)
  else (tid, parent).

(** The scan of [process_wait]: the first child record with this pid. *)
Fixpoint find_child (ws : wait_heap) (child_pid : Z) (l : list addr) : outcome (option addr) :=
  match l with
  | [] => Ret None
  | a :: l' =>
      match ws !! a with
      | None => Stray
      | Some cs =>
          if bool_decide (ws_pid cs = child_pid) then Ret (Some a)
          else find_child ws child_pid l'
      end
  end.

(** [process_wait] from [sema_down (&cs->dead)] on; a parent that was put
    to sleep resumes here. *)
Definition process_wait_finish (a : addr) (pcb : process) (ws : wait_heap)
  : run Z (process * wait_heap) :=
  match ws !! a with
  | None => Aborts Stray
  | Some cs =>
      match ws_dead cs with
      | O => Sleeps (OnDead a) (pcb, ws)
      | S v =>
          let ws1 := <[a := mkWait (ws_ref_cnt cs) (ws_pid cs) (ws_exit_code cs) v]> ws in
          let exit_code := ws_exit_code cs in
          lift_outcome (ws2 ← release_child a ws1; Ret (exit_code, (pcb, ws2)))
      end
  end.

Definition process_wait (child_pid : Z) (pcb : process) (ws : wait_heap)
  : run Z (process * wait_heap) :=
  match find_child ws child_pid (children pcb) with
  | Ret (Some a) =>
      process_wait_finish a (set_children (list_remove a (children pcb)) pcb) ws
  | Ret None => Returns (-1) (pcb, ws)
  | Panic => Aborts Panic
  | Stray => Aborts Stray
  | Hang => Aborts Hang
  end.

(** [sys_exit] stores the exit code in the caller's wait-status. *)
Definition sys_exit_store (exit_code : Z) (pcb : process) (ws : wait_heap)
  : outcome wait_heap :=
  match wait_status_of pcb with
  | None => Stray
  | Some a =>
      match ws !! a with
      | None => Stray
      | Some cs => Ret (<[a := mkWait (ws_ref_cnt cs) (ws_pid cs) exit_code (ws_dead cs)]> ws)
      end
  end.

(** The part of [process_exit] that touches wait-status records: the
    references to the children are dropped, then the parent is notified
    through [dead] and the child's own reference is dropped. *)
Fixpoint release_children (l : list addr) (ws : wait_heap) : outcome wait_heap :=
  match l with
  | [] => Ret ws
  | a :: l' => ws' ← release_child a ws; release_children l' ws'
  end.

Definition process_exit_notify (pcb : process) (ws : wait_heap) : outcome wait_heap :=
  match wait_status_of pcb with
  | None => Ret ws
  | Some a =>
      match ws !! a with
      | None => Stray
      | Some cs =>
          release_child a
            (<[a := mkWait (ws_ref_cnt cs) (ws_pid cs) (ws_exit_code cs) (S (ws_dead cs))]> ws)
      end
  end.

Definition process_exit (pcb : process) (ws : wait_heap) : outcome wait_heap :=
  ws1 ← release_children (children pcb) ws;
  process_exit_notify pcb ws1.

(** Well-formed children list: each element is in the list once, points to
    a live record, and no two children have the same pid (a pid is the tid
    that [thread_create] gave the child's main thread). *)
Definition children_ok (pcb : process) (ws : wait_heap) : bool :=
  bool_decide (NoDup (children pcb)) &&
  bool_decide (Forall (fun b => is_Some (ws !! b)) (children pcb)) &&
  bool_decide (NoDup ((fun b => ws_pid <$> ws !! b) <$> children pcb)).

(** The same for the join-status list and thread ids. *)
Definition join_statuses_ok (pcb : process) (js : join_heap) : bool :=
  bool_decide (NoDup (join_statuses pcb)) &&
  bool_decide (Forall (fun b => is_Some (js !! b)) (join_statuses pcb)) &&
  bool_decide (NoDup ((fun b => js_tid <$> js !! b) <$> join_statuses pcb)).

(** ** Process bootstrap: [start_process] *)

(** [calloc (1, sizeof (struct join_status))]: every field is zero. *)
Definition calloc_join_status : join_status := mkJoin 0 false 0 0 false.

(** The block of [start_process] that initialises the control block, for the
    thread [tid].  [new_pcb] is the [malloc]ed block as it comes (only the
    fields assigned here are defined afterwards); [js_alloc] and [entry_ok]
    are the results of the two [calloc]s.  Returns the [success] flag, the
    control block, the join-status heap and the thread's [join_status]
    pointer. *)
Definition start_process_init_pcb (tid : Z) (new_pcb : process) (js : join_heap)
  (js_alloc : option addr) (entry_ok : bool)
  : bool * process * join_heap * option addr :=
  let pcb :=
    mkProcess (wait_status_of new_pcb) [] [] None tid 2 None []
      (user_thread_counter new_pcb) (exiting new_pcb) (locks new_pcb)
      (semaphores new_pcb) (offsets new_pcb) in
  let '(success, pcb, js, t_js) :=
    match js_alloc with
    | None => (false, pcb, js, None)
    | Some a =>
        let j := calloc_join_status in
        let j := mkJoin tid (js_waited_on j) (js_sema j) (js_ref_cnt j) (js_lock_ready j) in
        let j := mkJoin (js_tid j) false (js_sema j) (js_ref_cnt j) (js_lock_ready j) in
        let j := mkJoin (js_tid j) (js_waited_on j) 0 (js_ref_cnt j) (js_lock_ready j) in
        (true, set_join_statuses (a :: join_statuses pcb) pcb, <[a := j]> js, Some a)
    end in
  let '(success, pcb) :=
    if entry_ok
    then (success,
          set_user_thread_list
            (mkEntry (Some tid) tid false false true 0 0 :: user_thread_list pcb) pcb)
    else (false, pcb) in
  let pcb :=
    mkProcess (wait_status_of pcb) (children pcb) (join_statuses pcb) (pagedir pcb)
      (main_thread pcb) (next_handle pcb) (process_thread_lock pcb)
      (user_thread_list pcb) 1 (exiting pcb) (locks pcb) (semaphores pcb)
      (<[1%nat := true]> (<[0%nat := true]> (offsets pcb))) in
  let pcb :=
    set_offsets
      (foldl (fun o i => <[i := false]> o) (offsets pcb) (seq 2 (NOFFSETS - 2))) pcb in
  (success, pcb, js, t_js).

(** [start_pthread]: [setup_thread], then either [thread_exit] (no thread
    is left) or the registration above.  [args->success] is published in
    between. *)
Definition start_pthread (tid : Z) (args : thread_create_args) (pcb : process)
  (js : join_heap) (palloc : option Z) (pt_ok entry_ok : bool) (js_alloc : option addr)
  : outcome (process * join_heap * option thread) :=
  r ← setup_thread args pcb palloc pt_ok 0;
  if sr_success r then
    '(pcb', js', t) ←
      start_pthread_register tid (set_args_success true (sr_args r)) (sr_pcb r) js
        entry_ok js_alloc;
    Ret (pcb', js', Some t)
  else Ret (sr_pcb r, js, None).

(** What the specification says of the bitmap, for a control block and the
    user threads (other than the main thread) that are alive: slots 0 and 1
    are set, and slot [i >= 2] is set exactly when the stack of a live
    thread is mapped at [PHYS_BASE - i * PGSIZE]. *)
Definition stack_at (pcb : process) (t : thread) (upage : Z) : Prop :=
  t_upage t = upage /\
  exists pd, pagedir pcb = Some pd /\ pd !! upage = Some (t_kpage t, true).

Definition bitmap_inv (pcb : process) (live : list thread) : Prop :=
  offsets pcb !! 0%nat = Some true /\
  offsets pcb !! 1%nat = Some true /\
  forall i : nat, (2 <= i < NOFFSETS)%nat ->
    (offsets pcb !! i = Some true <->
     exists t, t ∈ live /\ stack_at pcb t (PHYS_BASE - Z.of_nat i * PGSIZE)).

(** A freshly [malloc]ed control block; here its bytes happen to be zero. *)
Definition blank_pcb : process :=
  mkProcess None [] [] None 0 0 None [] 0 false
    (replicate 256 (mkLock None 0 false)) (replicate 256 (mkSema 0 false))
    (replicate NOFFSETS false).

(** A process just after [load]: the control block of [start_process] for
    the thread [tid], with the page directory holding the pages in [pd]. *)
Definition booted_pcb (tid : Z) (pd : pagedir_t) : process :=
  set_pagedir (Some pd) (start_process_init_pcb tid blank_pcb ∅ (Some 0%nat) true).1.1.2.

(** A parent with two children: pid 10, still running, and pid 11, which
    has exited with code 7. *)
Definition parent_pcb : process := set_children [0%nat; 1%nat] blank_pcb.

Definition parent_ws : gmap nat wait_status :=
  {[ 0%nat := new_wait_status 10; 1%nat := mkWait 1 11 7 1 ]}.

(** A process with the main thread (tid 1) and one spawned thread (tid 5),
    neither joined yet. *)
Definition threaded_pcb : process := set_join_statuses [1%nat; 0%nat] blank_pcb.

Definition threaded_js : gmap nat join_status :=
  {[ 0%nat := mkJoin 1 false 0 0 false; 1%nat := mkJoin 5 false 0 2 true ]}.

(** ** User-visible locks: [sys_lock_init], [sys_lock_acquire], [sys_lock_release] *)

(** The slot a handle names: [locks[(uint8_t) *lock]]. *)
Definition lock_slot (h : Z) : nat := Z.to_nat (h mod 256).

(** [sys_lock_init (lock)], called by thread [cur].  [lock_null] says whether
    the pointer is null; the value returned is [retval] together with the
    byte stored through the pointer, if any.  The loop variable is a
    [uint8_t], so [i < 256] never fails: with no free slot the loop goes
    round for ever. *)
Definition sys_lock_init (cur : Z) (lock_null : bool) (pcb : process)
  : run (bool * option Z) process :=
  if lock_null then Returns (false, None) pcb
  else
    match list_find (fun l => tl_initialized l = false) (locks pcb) with
    | None => Aborts Hang
    | Some (i, _) =>
        match lock_acquire cur (process_thread_lock pcb) with
        | AssertFails => Aborts Panic
        | MustSleep => Sleeps OnProcessThreadLock pcb
        | Acquired =>
            let pcb := set_locks (<[i := mkLock None cur true]> (locks pcb)) pcb in
            Returns (true, Some (Z.of_nat i)) pcb
        end
    end.

(** [sys_lock_acquire] from [lock_acquire (&thread_lock->lock)] on, with the
    process thread lock held by [cur]; a thread put to sleep on the user's
    lock resumes here. *)
Definition sys_lock_acquire_finish (cur : Z) (i : nat) (tl : thread_lock_t) (pcb : process)
  : run bool process :=
  match lock_acquire cur (tl_holder tl) with
  | AssertFails => Aborts Panic
  | MustSleep => Sleeps (OnUserLock i) pcb
  | Acquired =>
      let pcb := set_locks (<[i := mkLock (Some cur) cur (tl_initialized tl)]> (locks pcb)) pcb in
      match lock_release cur (process_thread_lock pcb) with
      | Ret h => Returns true (set_process_thread_lock h pcb)
      | _ => Aborts Panic
      end
  end.

(** [lock] is [None] for a null pointer, otherwise the byte it points to. *)
Definition sys_lock_acquire (cur : Z) (lock : option Z) (pcb : process) : run bool process :=
  match lock with
  | None => Returns false pcb
  | Some h =>
      match locks pcb !! lock_slot h with
      | None => Aborts Stray
      | Some tl =>
          if negb (tl_initialized tl) then Returns false pcb
          else if lock_held_by_current_thread cur (tl_holder tl) then Returns false pcb
          else
            match lock_acquire cur (process_thread_lock pcb) with
            | AssertFails => Aborts Panic
            | MustSleep => Sleeps OnProcessThreadLock pcb
            | Acquired =>
                sys_lock_acquire_finish cur (lock_slot h) tl
                  (set_process_thread_lock (Some cur) pcb)
            end
      end
  end.

Definition sys_lock_release (cur : Z) (lock : option Z) (pcb : process) : run bool process :=
  match lock with
  | None => Returns false pcb
  | Some h =>
      match locks pcb !! lock_slot h with
      | None => Aborts Stray
      | Some tl =>
          if negb (bool_decide (tl_tid tl = cur)) || negb (tl_initialized tl)
          then Returns false pcb
          else
            match lock_acquire cur (process_thread_lock pcb) with
            | AssertFails => Aborts Panic
            | MustSleep => Sleeps OnProcessThreadLock pcb
            | Acquired =>
                match lock_release cur (tl_holder tl) with
                | Ret holder =>
                    Returns true
                      (set_locks (<[lock_slot h := mkLock holder 0 (tl_initialized tl)]> (locks pcb))
                         pcb)
                | _ => Aborts Panic
                end
            end
      end
  end.

(** ** Strings from user memory: [copy_in_string] *)

(** User memory as the faulting accessors see it: the byte at a mapped
    address, nothing where an access faults. *)
Definition user_memory : Type := Z -> option Z.

(** [get_user]: [None] for "a segfault occurred". *)
Definition get_user (um : user_memory) (usrc : Z) : option Z := um usrc.

(** The [for] loop of [copy_in_string], [n] iterations left.  [None] is the
    call of [process_exit]. *)
Fixpoint copy_in_string_loop (um : user_memory) (n : nat) (len : nat) (us : Z) (ks : page)
  : option page :=
  match n with
  | O => Some (<[Z.to_nat (PGSIZE - 1) := 0]> ks)
  | S n' =>
      if PHYS_BASE <=? us then None
      else
        match get_user um us with
        | None => None
        | Some b =>
            let ks := <[len := b]> ks in
            if b =? 0 then Some ks
            else copy_in_string_loop um n' (S len) (us + 1) ks
        end
  end.

(** [palloc] is what [palloc_get_page (0)] returns: a page with whatever
    contents it has, or nothing. *)
Definition copy_in_string (um : user_memory) (us : Z) (palloc : option page) : option page :=
  match palloc with
  | None => None
  | Some ks => copy_in_string_loop um (Z.to_nat PGSIZE) 0 us ks
  end.

(** The [n] bytes of user memory from [us] on. *)
Fixpoint user_bytes (um : user_memory) (us : Z) (n : nat) : list Z :=
  match n with
  | O => []
  | S n' => default 0 (um us) :: user_bytes um (us + 1) n'
  end.

(** [n] readable, non-zero bytes of user memory from [us] on: a string with
    no terminator among them. *)
Definition unterminated (um : user_memory) (us : Z) (n : nat) : Prop :=
  forall k : nat, (k < n)%nat ->
    us + Z.of_nat k < PHYS_BASE /\
    exists b, um (us + Z.of_nat k) = Some b /\ b <> 0.

(** The system calls that take a path.  The file system and the program
    loader are outside this subsystem; they receive the kernel string. *)
Section PathSyscalls.

Variable filesys_create : list Z -> Z -> bool.
Variable filesys_remove : list Z -> bool.
Variable filesys_open : list Z -> option Z.
Variable process_execute : list Z -> Z.





End PathSyscalls.

(** ** The loader: [load] on a [PT_LOAD] header, [load_segment] *)

Definition PF_W : Z := 2.

(** [ROUND_UP] on [uint32_t] operands: the sum and the product wrap. *)
Definition ROUND_UP32 (x step : Z) : Z := wrap32 (wrap32 (x + step - 1) / step * step).

(** The arguments of a call of [load_segment]. *)
Record segment_args : Type := mkSegment {
  sg_ofs : Z;
  sg_upage : Z;
  sg_read_bytes : Z;
  sg_zero_bytes : Z;
  sg_writable : bool
}.

(** [load], case [PT_LOAD], for a header that [validate_segment] accepted:
    the values handed to [load_segment]. *)
Definition load_segment_args (phdr : Elf32_Phdr) : segment_args :=
  let writable := negb (Z.land (p_flags phdr) PF_W =? 0) in
  let file_page := Z.land (p_offset phdr) (wrap32 (Z.lnot PGMASK)) in
  let mem_page := Z.land (p_vaddr phdr) (wrap32 (Z.lnot PGMASK)) in
  let page_offset := Z.land (p_vaddr phdr) PGMASK in
  if 0 <? p_filesz phdr then
    let read_bytes := add32 page_offset (p_filesz phdr) in
    let zero_bytes :=
      sub32 (ROUND_UP32 (add32 page_offset (p_memsz phdr)) PGSIZE) read_bytes in
    mkSegment file_page mem_page read_bytes zero_bytes writable
  else
    mkSegment file_page mem_page 0
      (ROUND_UP32 (add32 page_offset (p_memsz phdr)) PGSIZE) writable.

(** Modelled from the spec: [filesys/file.c] is not among the sources.  An
    open file is its bytes and a position; [file_seek] sets the position;
    [file_read] copies up to [size] bytes from the position on, stops at the
    end of the file, and moves the position past the bytes it returned. *)
Record file : Type := mkFile {
  f_bytes : list Z;
  f_pos : Z
}.

Definition file_seek (f : file) (pos : Z) : file := mkFile (f_bytes f) pos.

Definition file_read (f : file) (size : Z) : list Z * file :=
  let got := take (Z.to_nat size) (drop (Z.to_nat (f_pos f)) (f_bytes f)) in
  (got, mkFile (f_bytes f) (f_pos f + Z.of_nat (length got))).

(** The frames of the user pool that are in use, by kernel address. *)
Abbreviation frames_t := (gmap Z (list Z)) (only parsing).

(** The [while] loop of [load_segment], [n] iterations left.  Each element
    of [allocs] answers one iteration: what [palloc_get_page (PAL_USER)]
    returns, and whether [pagedir_set_page] gets its page table.  The frame
    comes with arbitrary contents and is overwritten in full: the bytes read,
    then zeros. *)
Fixpoint load_segment_loop (n : nat) (f : file) (upage read_bytes zero_bytes : Z)
  (writable : bool) (pd : pagedir_t) (frames : frames_t)
  (allocs : list (option Z * bool))
  : outcome (bool * file * pagedir_t * frames_t) :=
  if (0 <? read_bytes) || (0 <? zero_bytes) then
    match n with
    | O => Hang
    | S n' =>
        let page_read_bytes := if read_bytes <? PGSIZE then read_bytes else PGSIZE in
        let page_zero_bytes := PGSIZE - page_read_bytes in
        match allocs with
        | [] => Ret (false, f, pd, frames)
        | (None, _) :: _ => Ret (false, f, pd, frames)
        | (Some kpage, pt_ok) :: allocs' =>
            let '(got, f') := file_read f page_read_bytes in
            if negb (Z.of_nat (length got) =? page_read_bytes)
            then Ret (false, f', pd, frames)
            else
              let contents := got ++ replicate (Z.to_nat page_zero_bytes) 0 in
              let '(ok, pd') := install_page pd upage kpage writable pt_ok in
              if ok then
                load_segment_loop n' f' (add32 upage PGSIZE)
                  (read_bytes - page_read_bytes) (sub32 zero_bytes page_zero_bytes)
                  writable pd' (<[kpage := contents]> frames) allocs'
              else Ret (false, f', pd, frames)
        end
    end
  else Ret (true, f, pd, frames).

(** [load_segment (file, ofs, upage, read_bytes, zero_bytes, writable)].
    The three assertions come first; behind them every iteration takes
    [PGSIZE] bytes off [read_bytes + zero_bytes], so that many iterations
    are all the loop can make. *)
Definition load_segment (f : file) (ofs upage read_bytes zero_bytes : Z)
  (writable : bool) (pd : pagedir_t) (frames : frames_t)
  (allocs : list (option Z * bool))
  : outcome (bool * file * pagedir_t * frames_t) :=
  if negb (add32 read_bytes zero_bytes mod PGSIZE =? 0) then Panic
  else if negb (pg_ofs upage =? 0) then Panic
  else if negb (Z.rem ofs PGSIZE =? 0) then Panic
  else
    load_segment_loop (Z.to_nat ((read_bytes + zero_bytes) / PGSIZE))
      (file_seek f ofs) upage read_bytes zero_bytes writable pd frames allocs.

(** What a user program reads at a virtual address: the page directory
    names the frame, the frame holds the byte. *)
Definition user_byte (pd : pagedir_t) (frames : frames_t) (va : Z) : option Z :=
  '(kpage, _) ← pd !! (va - pg_ofs va);
  m ← frames !! kpage;
  m !! Z.to_nat (pg_ofs va).

(** ** The initial stack page: [setup_stack] *)

(** [setup_stack] keeps the frame mapped whether [init_cmd_line] returns
    true or false, so the page has to be followed on the failing paths as
    well.  A [push] that returns null has stored nothing: the loop pushing
    the arguments leaves the page of the pushes that went through. *)
Fixpoint push_arguments_page (m : page) (ofs : Z) (arguments : list Z)
  : outcome (page * option Z) :=
  match arguments with
  | [] => Ret (m, Some ofs)
  | a :: rest =>
      r ← push m ofs (le_bytes32 a);
      match r with
      | None => Ret (m, None)
      | Some (m', ofs', _) => push_arguments_page m' ofs' rest
      end
  end.

(** [init_cmd_line (kpage, upage, cmd_line, esp)] with the page as the call
    leaves it: [*esp] when it returns true, nothing when it returns
    false. *)
Definition init_cmd_line_page (kpage : page) (upage : Z) (cmd_line : list Z)
  : outcome (page * option Z) :=
  let ofs := PGSIZE in
  r ← push kpage ofs (cmd_line ++ [0]);
  match r with
  | None => Ret (kpage, None)
  | Some (m, ofs, cmd_line_copy) =>
      '(m, arguments) ←
        parse_arguments (S (length m)) m (Z.to_nat cmd_line_copy) upage [];
      let argc := Z.of_nat (length arguments) in
      let alignment_adjustment :=
        wrap32 ((PGSIZE - ofs) + (argc + 1) * 4 + 4 + 4) mod 16 in
      let ofs := sub32 ofs (16 - alignment_adjustment) in
      r ← push m ofs (le_bytes32 0);
      match r with
      | None => Ret (m, None)
      | Some (m, ofs, _) =>
          '(m, r) ← push_arguments_page m ofs arguments;
          match r with
          | None => Ret (m, None)
          | Some ofs =>
              let argv := upage + ofs in
              let m := reverse (length arguments) ofs m in
              r ← push m ofs (le_bytes32 argv);
              match r with
              | None => Ret (m, None)
              | Some (m, ofs, _) =>
                  r ← push m ofs (le_bytes32 argc);
                  match r with
                  | None => Ret (m, None)
                  | Some (m, ofs, _) =>
                      r ← push m ofs (le_bytes32 0);
                      match r with
                      | None => Ret (m, None)
                      | Some (m, ofs, _) => Ret (m, Some (upage + ofs))
                      end
                  end
              end
          end
      end
  end.

(** [setup_stack (cmd_line, esp)]: the [success] flag, the page directory,
    the frame the thread records ([kpage] with its contents) and [*esp] if
    it was set.  [palloc] is what [palloc_get_page (PAL_USER | PAL_ZERO)]
    returns. *)
Definition setup_stack (cmd_line : list Z) (pd : pagedir_t) (palloc : option Z)
  (pt_ok : bool) : outcome (bool * pagedir_t * option (Z * page) * option Z) :=
  match palloc with
  | None => Ret (false, pd, None, None)
  | Some kpage =>
      let upage := PHYS_BASE - PGSIZE in
      let '(ok, pd') := install_page pd upage kpage true pt_ok in
      if ok then
        '(m, esp) ← init_cmd_line_page zero_page upage cmd_line;
        Ret (bool_decide (is_Some esp), pd', Some (kpage, m), esp)
      else Ret (false, pd, None, None)
  end.

(** The parts of the frame of a command line. *)
Definition string_bytes (cmd_line : list Z) : Z :=
  ROUND_UP (Z.of_nat (length cmd_line) + 1) 4.

Definition alignment_padding (cmd_line : list Z) : Z :=
  16 - (string_bytes cmd_line
        + (Z.of_nat (length (tokens cmd_line)) + 1) * 4 + 4 + 4) mod 16.

(** ** Spawning a thread: [pthread_execute] *)

Definition set_user_thread_counter (c : Z) (p : process) : process :=
  mkProcess (wait_status_of p) (children p) (join_statuses p) (pagedir p)
    (main_thread p) (next_handle p) (process_thread_lock p) (user_thread_list p)
    c (exiting p) (locks p) (semaphores p) (offsets p).

(** The [thread_create_args_t] blocks on the heap: [pthread_execute]
    allocates one, hands its address to the new thread and frees it. *)
Abbreviation args_heap := (gmap nat thread_create_args) (only parsing).

(** [pthread_execute] up to the call of [thread_create], run by thread
    [cur]; [args_alloc] is what [malloc] returns.  The value is the address
    of the block and [thread_count_id], or nothing when the function has
    returned [TID_ERROR]. *)
Definition pthread_execute_begin (cur sfun tfun arg : Z) (args_alloc : option addr)
  (pcb : process) (ah : args_heap) : run (option (addr * Z)) (process * args_heap) :=
  match args_alloc with
  | None => Returns None (pcb, ah)
  | Some a =>
      let ah := <[a := mkArgs sfun tfun arg false 0 0 0]> ah in
      match lock_acquire cur (process_thread_lock pcb) with
      | AssertFails => Aborts Panic
      | MustSleep => Sleeps OnProcessThreadLock (pcb, ah)
      | Acquired =>
          let thread_count_id := user_thread_counter pcb + 1 in
          Returns (Some (a, thread_count_id))
            (set_user_thread_counter thread_count_id pcb, ah)
      end
  end.

(** [pthread_execute] from the return of [thread_create] on, once
    [load_done] has been signalled: [new_tid] is what [thread_create]
    returned, [entry_ok] whether the [calloc] in [create_thread_entry]
    succeeds.  The block is freed on the way out. *)
Definition pthread_execute_end (cur new_tid : Z) (a : addr) (entry_ok : bool)
  (pcb : process) (ah : args_heap) : run Z (process * args_heap) :=
  if bool_decide (new_tid <> TID_ERROR) then
    match ah !! a with
    | None => Aborts Stray
    | Some args =>
        if a_success args then
          match lock_acquire cur (process_thread_lock pcb) with
          | AssertFails => Aborts Panic
          | MustSleep => Sleeps OnProcessThreadLock (pcb, ah)
          | Acquired =>
              let pcb :=
                match get_thread_entry new_tid (user_thread_list pcb) with
                | Some _ => pcb
                | None =>
                    if entry_ok
                    then set_user_thread_list
                           (create_thread_entry cur new_tid (user_thread_list pcb)).1 pcb
                    else pcb
                end in
              Returns new_tid (pcb, delete a ah)
          end
        else Returns new_tid (pcb, delete a ah)
    end
  else Returns new_tid (pcb, delete a ah).

(** [start_pthread] up to [sema_up (&args->load_done)]: [setup_thread]
    works on the block the thread was handed, and the result is published
    in it. *)
Definition start_pthread_begin (a : addr) (pcb : process) (ah : args_heap)
  (palloc : option Z) (pt_ok : bool) : outcome (bool * process * args_heap) :=
  match ah !! a with
  | None => Stray
  | Some args =>
      r ← setup_thread args pcb palloc pt_ok 0;
      Ret (sr_success r, sr_pcb r,
           <[a := set_args_success (sr_success r) (sr_args r)]> ah)
  end.

(** [start_pthread] from [process_activate] on: the new thread reads its
    pages out of the block it was handed. *)
Definition start_pthread_finish (tid : Z) (a : addr) (pcb : process) (ah : args_heap)
  (js : join_heap) (entry_ok : bool) (js_alloc : option addr)
  : outcome (process * join_heap * thread) :=
  match ah !! a with
  | None => Stray
  | Some args => start_pthread_register tid args pcb js entry_ok js_alloc
  end.

(** No two entries of the user-thread table carry the same tid. *)
Definition thread_entries_ok (pcb : process) : Prop :=
  NoDup (ute_tid <$> user_thread_list pcb).

(** ** User-visible semaphores: [sys_sema_init], [sys_sema_down], [sys_sema_up] *)

Definition set_semaphores (l : list thread_sema_t) (p : process) : process :=
  mkProcess (wait_status_of p) (children p) (join_statuses p) (pagedir p)
    (main_thread p) (next_handle p) (process_thread_lock p) (user_thread_list p)
    (user_thread_counter p) (exiting p) (locks p) l (offsets p).

(** [sys_sema_init (sema, val)], called by thread [cur]; [sema_null] says
    whether the pointer is null.  As in [sys_lock_init] the loop variable
    is a [uint8_t], and the value is [retval] with the byte stored through
    the pointer. *)
Definition sys_sema_init (cur : Z) (sema_null : bool) (val : Z) (pcb : process)
  : run (bool * option Z) process :=
  if sema_null || (val <? 0) then Returns (false, None) pcb
  else
    match list_find (fun s => tsm_initialized s = false) (semaphores pcb) with
    | None => Aborts Hang
    | Some (i, _) =>
        match lock_acquire cur (process_thread_lock pcb) with
        | AssertFails => Aborts Panic
        | MustSleep => Sleeps OnProcessThreadLock pcb
        | Acquired =>
            let pcb := set_semaphores (<[i := mkSema (Z.to_nat val) true]> (semaphores pcb)) pcb in
            Returns (true, Some (Z.of_nat i)) pcb
        end
    end.

(** Modelled from the spec: the primitive semaphore of [threads/synch.c]
    is not among the sources.  It is a counter: [sema_down] sleeps while
    the counter is zero and then takes one off, [sema_up] adds one.  A call
    of the system calls below returns, or goes to sleep on the semaphore of
    a slot, or reads outside the table. *)
Inductive sema_run : Type :=
| SemaReturns (retval : bool) (pcb : process)
| SemaSleeps (slot : nat)
| SemaStray.

(** [sema] is [None] for a null pointer, otherwise the byte it points to. *)
Definition sys_sema_down (sema : option Z) (pcb : process) : sema_run :=
  match sema with
  | None => SemaReturns false pcb
  | Some h =>
      match semaphores pcb !! lock_slot h with
      | None => SemaStray
      | Some ts =>
          if negb (tsm_initialized ts) then SemaReturns false pcb
          else
            match tsm_value ts with
            | O => SemaSleeps (lock_slot h)
            | S v =>
                SemaReturns true
                  (set_semaphores
                     (<[lock_slot h := mkSema v (tsm_initialized ts)]> (semaphores pcb)) pcb)
            end
      end
  end.

Definition sys_sema_up (sema : option Z) (pcb : process) : sema_run :=
  match sema with
  | None => SemaReturns false pcb
  | Some h =>
      match semaphores pcb !! lock_slot h with
      | None => SemaStray
      | Some ts =>
          if negb (tsm_initialized ts) then SemaReturns false pcb
          else
            SemaReturns true
              (set_semaphores
                 (<[lock_slot h := mkSema (S (tsm_value ts)) (tsm_initialized ts)]>
                    (semaphores pcb)) pcb)
      end
  end.

(** [k] calls of [sys_sema_down] on the same handle, one after the other;
    the value is that of the last call. *)
Fixpoint sema_downs (k : nat) (sema : option Z) (pcb : process) : sema_run :=
  match k with
  | O => SemaReturns true pcb
  | S k' =>
      match sys_sema_down sema pcb with
      | SemaReturns true pcb' => sema_downs k' sema pcb'
      | r => r
      end
  end.

(** ** System-call arguments: [copy_in], [syscall_handler] *)

(** [copy_in (dst, usrc, size)]: the bytes copied, or [None] for the call
    of [process_exit]. *)
Fixpoint copy_in (um : user_memory) (usrc : Z) (size : nat) : option (list Z) :=
  match size with
  | O => Some []
  | S size' =>
      if PHYS_BASE <=? usrc then None
      else
        match get_user um usrc with
        | None => None
        | Some b => bs ← copy_in um (usrc + 1) size'; Some (b :: bs)
        end
  end.

(** [size] bytes from [us] on that user code may read: below [PHYS_BASE]
    and mapped. *)
Definition readable (um : user_memory) (us : Z) (size : nat) : Prop :=
  forall k : nat, (k < size)%nat ->
    us + Z.of_nat k < PHYS_BASE /\ is_Some (um (us + Z.of_nat k)).

(** The 32-bit word user code has at an address. *)
Definition user_word32 (um : user_memory) (a : Z) : Z := load32 (user_bytes um a 4) 0.

(** The [arg_cnt] column of [syscall_table]. *)
Definition syscall_table : list nat :=
  [0; 1; 1; 1; 2; 1; 1; 1; 3; 3; 2; 1; 1; 1; 1; 3; 0; 1; 1; 1; 1; 2; 1; 1; 0]%nat.

(** The words of a little-endian byte buffer. *)
Fixpoint words_of (n : nat) (bytes : list Z) : list Z :=
  match n with
  | O => []
  | S n' => load32 bytes 0 :: words_of n' (drop 4 bytes)
  end.

(** [syscall_handler] up to the call of the implementation: the call number
    and [args[0 .. 3)], or [None] for the call of [process_exit].  [args]
    is zeroed before the words of the call are copied over it. *)
Definition syscall_fetch (um : user_memory) (esp : Z) : outcome (option (Z * list Z)) :=
  match copy_in um esp 4 with
  | None => Ret None
  | Some nr_bytes =>
      let call_nr := load32 nr_bytes 0 in
      match syscall_table !! Z.to_nat call_nr with
      | None => Ret None
      | Some arg_cnt =>
          if bool_decide (arg_cnt <= 3)%nat then
            match copy_in um (esp + 4) (4 * arg_cnt) with
            | None => Ret None
            | Some arg_bytes =>
                Ret (Some (call_nr,
                           words_of 3 (arg_bytes ++ replicate (12 - 4 * arg_cnt) 0)))
            end
          else Panic
      end
  end.

(** ** File descriptors: [sys_open], [lookup_fd], [sys_close] *)

(** [struct file_descriptor]; the file is named by its address. *)
Record file_descriptor : Type := mkFd {
  fd_file : Z;
  fd_handle : Z
}.

Definition INT_MAX : Z := 2147483647.

(** [lookup_fd (handle)]: the first descriptor of the list with this
    handle; [None] is the call of [process_exit]. *)
Definition lookup_fd (handle : Z) (fds : list file_descriptor)
  : option (nat * file_descriptor) :=
  list_find (fun fd => fd_handle fd = handle) fds.

Section FileDescriptors.

Variable filesys_open : list Z -> option Z.

(** [sys_open] with the descriptor list: the handle returned, the counter
    and the list; [None] is the call of [process_exit] in
    [copy_in_string].  [next_handle] is an [int]: incrementing [INT_MAX]
    is undefined. *)
Definition sys_open_fd (um : user_memory) (ufile : Z) (palloc : option page)
  (fd_ok : bool) (next_handle : Z) (fds : list file_descriptor)
  : outcome (option (Z * Z * list file_descriptor)) :=
  match copy_in_string um ufile palloc with
  | None => Ret None
  | Some kfile =>
      if fd_ok then
        match filesys_open (cstring kfile) with
        | Some f =>
            if bool_decide (next_handle = INT_MAX) then Stray
            else Ret (Some (next_handle, next_handle + 1, mkFd f next_handle :: fds))
        | None => Ret (Some (-1, next_handle, fds))
        end
      else Ret (Some (-1, next_handle, fds))
  end.

End FileDescriptors.

(** [sys_close (handle)]: the value returned, the file handed to
    [file_close] and the list; [None] is the call of [process_exit] in
    [lookup_fd]. *)
Definition sys_close (handle : Z) (fds : list file_descriptor)
  : option (Z * Z * list file_descriptor) :=
  '(i, fd) ← lookup_fd handle fds;
  Some (0, fd_file fd, delete i fds).

(** The loop of [process_exit] that closes what is still open: it calls
    [sys_close] on the handle at the front of the list until the list is
    empty.  Returns the files closed, in order; [None] is the nested call
    of [process_exit]. *)
Fixpoint process_exit_close_fds (n : nat) (fds : list file_descriptor)
  : outcome (option (list Z)) :=
  match fds with
  | [] => Ret (Some [])
  | fd :: _ =>
      match n with
      | O => Hang
      | S n' =>
          match sys_close (fd_handle fd) fds with
          | None => Ret None
          | Some (_, f, fds') =>
              r ← process_exit_close_fds n' fds';
              Ret (option_map (cons f) r)
          end
      end
  end.

(** The descriptor table as [start_process] leaves it and the system calls
    keep it: the counter is at least 2, and the handles are distinct, at
    least 2 and below the counter. *)
Definition fds_ok (next_handle : Z) (fds : list file_descriptor) : Prop :=
  2 <= next_handle /\
  NoDup (fd_handle <$> fds) /\
  Forall (fun fd => 2 <= fd_handle fd < next_handle) fds.

(** ** Writing from user memory: [verify_user], [sys_write] *)

Definition STDOUT_FILENO : Z := 1.

(** [verify_user (uaddr)]: below [PHYS_BASE] and in a mapped page. *)
Definition verify_user (pd : pagedir_t) (uaddr : Z) : bool :=
  (uaddr <? PHYS_BASE) && bool_decide (is_Some (pd !! (uaddr - pg_ofs uaddr))).

(** The [n] bytes the kernel reads through a user address; nothing where a
    byte has no frame behind it. *)
Fixpoint user_read (pd : pagedir_t) (frames : frames_t) (usrc : Z) (n : nat)
  : option (list Z) :=
  match n with
  | O => Some []
  | S n' =>
      b ← user_byte pd frames usrc;
      bs ← user_read pd frames (usrc + 1) n';
      Some (b :: bs)
  end.

Section ConsoleAndFiles.

(** [file_write (file, buffer, size)] belongs to the file system; it
    receives the bytes and answers with an [off_t]. *)
Variable file_write : Z -> list Z -> Z.

(** The [while] loop of [sys_write], [fuel] iterations left; [file] is
    [fd->file].  The value is [bytes_written], or [None] for the call of
    [process_exit], together with what has been put on the console.  Every
    iteration that goes round again takes at least one byte off [size].
    [bytes_written] is an [int]: adding beyond [INT_MAX] is undefined. *)
Fixpoint sys_write_loop (fuel : nat) (handle file : Z) (pd : pagedir_t)
  (frames : frames_t) (usrc size bytes_written : Z) (console : list Z)
  : outcome (option Z * list Z) :=
  if 0 <? size then
    match fuel with
    | O => Hang
    | S fuel' =>
        let page_left := PGSIZE - pg_ofs usrc in
        let write_amt := if size <? page_left then size else page_left in
        if negb (verify_user pd usrc) then Ret (None, console)
        else
          match user_read pd frames usrc (Z.to_nat write_amt) with
          | None => Stray
          | Some buffer =>
              let '(retval, console) :=
                if handle =? STDOUT_FILENO
                then (write_amt, console ++ buffer)
                else (file_write file buffer, console) in
              if retval <? 0
              then Ret (Some (if bytes_written =? 0 then -1 else bytes_written), console)
              else if INT_MAX <? bytes_written + retval then Stray
              else
                let bytes_written := bytes_written + retval in
                if negb (retval =? write_amt) then Ret (Some bytes_written, console)
                else
                  sys_write_loop fuel' handle file pd frames (usrc + retval)
                    (size - retval) bytes_written console
          end
    end
  else Ret (Some bytes_written, console).

(** [sys_write (handle, usrc, size)]. *)
Definition sys_write (handle : Z) (fds : list file_descriptor) (pd : pagedir_t)
  (frames : frames_t) (usrc size : Z) (console : list Z)
  : outcome (option Z * list Z) :=
  if negb (handle =? STDOUT_FILENO) then
    match lookup_fd handle fds with
    | None => Ret (None, console)
    | Some (_, fd) =>
        sys_write_loop (Z.to_nat size) handle (fd_file fd) pd frames usrc size 0 console
    end
  else sys_write_loop (Z.to_nat size) handle 0 pd frames usrc size 0 console.

End ConsoleAndFiles.

(** * Theorems *)

Lemma PGSIZE_val : PGSIZE = 4096.
Proof. reflexivity. Qed.

Lemma PHYS_BASE_val : PHYS_BASE = 3221225472.
Proof. reflexivity. Qed.

Lemma UINT32_MOD_val : UINT32_MOD = 4294967296.
Proof. reflexivity. Qed.

Section ValidateSegment.

Lemma land_PGMASK (z : Z) : Z.land z PGMASK = z mod PGSIZE.
Proof. change PGMASK with (Z.ones 12). rewrite Z.land_ones by lia. reflexivity. Qed.

Lemma validate_segment_false_iff (phdr : Elf32_Phdr) (file_len : Z) :
  0 <= file_len < 2 ^ 31 ->
  validate_segment phdr file_len = false <-> segment_rejected phdr file_len.
Proof.
  intros Hlen. unfold validate_segment, segment_rejected.
  rewrite !land_PGMASK.
  assert (Hw : wrap32 file_len = file_len).
  { unfold wrap32. rewrite UINT32_MOD_val. apply Z.mod_small. lia. }
  rewrite Hw.
  repeat match goal with
  | |- context [negb (?a =? ?b)] => destruct (Z.eqb_spec a b)
  | |- context [?a =? ?b] => destruct (Z.eqb_spec a b)
  | |- context [negb (is_user_vaddr ?a)] => destruct (is_user_vaddr a) eqn:?
  | |- context [?a <? ?b] => destruct (Z.ltb_spec a b)
  end; cbn [negb]; split; intros; try tauto; try discriminate; try lia;
  intuition (try congruence; try lia).
Qed.



(** Accepted segments, in plain arithmetic: with 32-bit fields, the checks
    on the wrapped sum amount to the whole range lying below the kernel
    boundary. *)
Lemma validate_segment_true_iff (phdr : Elf32_Phdr) (file_len : Z) :
  phdr_wf phdr -> 0 <= file_len < 2 ^ 31 ->
  validate_segment phdr file_len = true <->
  p_offset phdr mod PGSIZE = p_vaddr phdr mod PGSIZE /\
  p_offset phdr <= file_len /\
  p_filesz phdr <= p_memsz phdr /\
  0 < p_memsz phdr /\
  PGSIZE <= p_vaddr phdr /\
  p_vaddr phdr + p_memsz phdr < PHYS_BASE.
Proof.
  intros (Ho & Hv & Hf & Hm) Hlen.
  pose proof (validate_segment_false_iff phdr file_len Hlen) as Hiff.
  destruct (validate_segment phdr file_len) eqn:E.
  - split; [intros _ | reflexivity].
    assert (Hn : ~ segment_rejected phdr file_len).
    { intros Hr. apply Hiff in Hr. discriminate. }
    unfold segment_rejected, is_user_vaddr, add32, wrap32, is_u32 in *.
    rewrite ?PGSIZE_val, ?PHYS_BASE_val, ?UINT32_MOD_val in *.
    destruct (Z.ltb_spec (p_vaddr phdr) 3221225472);
      destruct (Z.ltb_spec ((p_vaddr phdr + p_memsz phdr) mod 4294967296) 3221225472);
      try (exfalso; apply Hn; tauto).
    assert (Hsum : p_vaddr phdr + p_memsz phdr < 4294967296).
    { destruct (Z_lt_ge_dec (p_vaddr phdr + p_memsz phdr) 4294967296) as [|Hge]; [assumption|].
      exfalso. apply Hn. do 6 right. left.
      replace ((p_vaddr phdr + p_memsz phdr) mod 4294967296)
        with (p_vaddr phdr + p_memsz phdr - 4294967296).
      - lia.
      - apply Z.mod_unique with (q := 1); lia. }
    rewrite (Z.mod_small (p_vaddr phdr + p_memsz phdr)) in * by lia.
    repeat split; try lia;
      match goal with
      | |- ?a = ?b => destruct (Z.eq_dec a b); [assumption | exfalso; apply Hn; tauto]
      end.
  - split; [discriminate |]. intros (H1 & H2 & H3 & H4 & H5 & H6).
    assert (Hr : segment_rejected phdr file_len) by (apply Hiff; reflexivity).
    exfalso.
    unfold segment_rejected, is_user_vaddr, add32, wrap32, is_u32 in *.
    rewrite ?PGSIZE_val, ?PHYS_BASE_val, ?UINT32_MOD_val in *.
    rewrite (Z.mod_small (p_vaddr phdr + p_memsz phdr)) in Hr by lia.
    destruct (Z.ltb_spec (p_vaddr phdr) 3221225472); [| lia].
    destruct (Z.ltb_spec (p_vaddr phdr + p_memsz phdr) 3221225472); [| lia].
    clear Hiff E.
    destruct Hr as [Hr|[Hr|[Hr|[Hr|[Hr|[Hr|[Hr|Hr]]]]]]];
      first [ discriminate Hr | exact (Hr H1) | lia ].
Qed.

(** C7.  Segment validation returns false exactly when one of the listed
    conditions holds (page offsets of [p_offset] and [p_vaddr] differ;
    [p_offset] beyond the file length; [p_memsz < p_filesz]; [p_memsz = 0];
    [p_vaddr] or [p_vaddr + p_memsz] not a user address; the sum wrapping
    below [p_vaddr]; [p_vaddr < PGSIZE]), and true otherwise. *)
Theorem validate_segment_rejects_exactly (phdr : Elf32_Phdr) (file_len : Z) :
  0 <= file_len < 2 ^ 31 ->
  (validate_segment phdr file_len = false <-> segment_rejected phdr file_len) /\
  (validate_segment phdr file_len = true <-> ~ segment_rejected phdr file_len).
Proof.
  intros Hlen. pose proof (validate_segment_false_iff phdr file_len Hlen) as Hiff.
  split; [exact Hiff |].
  destruct (validate_segment phdr file_len); split; intros H; try discriminate H;
    try reflexivity.
  - intros Hr. apply Hiff in Hr. discriminate Hr.
  - exfalso. apply H. apply Hiff. reflexivity.
Qed.

Lemma validate_segment_rejects_exactly_witness :
  0 <= 8192 < 2 ^ 31 /\
  (validate_segment (mkPhdr 1 4096 0x08048000 0 100 200 5 4096) 8192 = false <->
   segment_rejected (mkPhdr 1 4096 0x08048000 0 100 200 5 4096) 8192) /\
  (validate_segment (mkPhdr 1 4096 0x08048000 0 100 200 5 4096) 8192 = true <->
   ~ segment_rejected (mkPhdr 1 4096 0x08048000 0 100 200 5 4096) 8192).
Proof.
  split; [lia |].
  apply (validate_segment_rejects_exactly (mkPhdr 1 4096 0x08048000 0 100 200 5 4096) 8192).
  lia.
Defined.

End ValidateSegment.

Section OffsetBitmap.

Lemma get_lowest_offset_loop_spec (n : nat) : forall (i : nat) (offsets : list bool),
  (i + n <= length offsets)%nat ->
  match get_lowest_offset_loop n i offsets with
  | Ret (k, offsets') =>
      (i <= k < i + n)%nat /\ offsets !! k = Some false /\
      (forall j, (i <= j < k)%nat -> offsets !! j = Some true) /\
      offsets' = <[k := true]> offsets
  | Panic => forall j, (i <= j < i + n)%nat -> offsets !! j = Some true
  | _ => False
  end.
Proof.
  induction n as [|n IH]; intros i offsets Hlen; simpl.
  - intros j Hj. lia.
  - destruct (offsets !! i) as [b|] eqn:Hi.
    + destruct b.
      * specialize (IH (S i) offsets ltac:(lia)).
        destruct (get_lowest_offset_loop n (S i) offsets) as [[k o']| | |]; try exact IH.
        -- destruct IH as (Hk & Hf & Hlow & Ho). repeat split; try lia; try assumption.
           intros j Hj. destruct (decide (j = i)) as [->|]; [assumption|]. apply Hlow. lia.
        -- intros j Hj. destruct (decide (j = i)) as [->|]; [assumption|]. apply IH. lia.
      * repeat split; try lia; try assumption; intros j Hj; lia.
    + apply lookup_ge_None in Hi. lia.
Qed.

Lemma initial_offsets_length : length initial_offsets = NOFFSETS.
Proof. reflexivity. Qed.



End OffsetBitmap.

Section Bootstrap.

(** C4.  The claim says the main thread's join-status has reference count 1
    when [start_process] pushes it on the list.  The code gets the record
    from [calloc] and never assigns [ref_cnt] (nor initialises its lock,
    as [start_pthread] does for the other threads): the record at the head
    of the list has reference count 0. *)
Theorem start_process_main_join_status_ref_cnt
  (tid : Z) (new_pcb : process) (js : join_heap) (a : addr) (entry_ok : bool) :
  let '(_, pcb, js', t_js) := start_process_init_pcb tid new_pcb js (Some a) entry_ok in
  join_statuses pcb = [a] /\ t_js = Some a /\
  js' !! a = Some (mkJoin tid false 0 0 false) /\
  js_ref_cnt <$> js' !! a = Some 0 /\
  js_ref_cnt <$> js' !! a <> Some 1.
Proof.
  unfold start_process_init_pcb. destruct entry_ok; cbn.
  all: rewrite lookup_insert_eq; repeat split; discriminate.
Qed.

(** The sibling path: a spawned thread's join-status starts with two
    references and an initialised lock. *)
Lemma start_pthread_register_ref_cnt
  (tid : Z) (args : thread_create_args) (pcb : process) (js : join_heap)
  (a : addr) (pcb' : process) (js' : join_heap) (t : thread) :
  start_pthread_register tid args pcb js true (Some a) = Ret (pcb', js', t) ->
  js' !! a = Some (mkJoin tid false 0 2 true) /\
  join_statuses pcb' = a :: join_statuses pcb /\ t_join_status t = Some a.
Proof.
  unfold start_pthread_register.
  destruct (get_thread_entry tid (user_thread_list pcb)) as [[i e]|]; cbn;
    intros H; inversion H; subst; clear H;
    (split; [apply lookup_insert_eq | split; reflexivity]).
Qed.

(** The bitmap after bootstrap: slots 0 and 1 set, the rest clear. *)
Lemma start_process_offsets (tid : Z) (js : join_heap) (js_alloc : option addr)
  (entry_ok : bool) :
  offsets (start_process_init_pcb tid blank_pcb js js_alloc entry_ok).1.1.2
  = initial_offsets.
Proof. destruct js_alloc, entry_ok; vm_compute; reflexivity. Qed.

End Bootstrap.

Section StackSlots.

Lemma initial_offsets_lookup (i : nat) :
  (2 <= i < NOFFSETS)%nat -> initial_offsets !! i = Some false.
Proof.
  intros Hi. destruct i as [|[|i]]; [lia | lia |].
  unfold initial_offsets. cbn [lookup list_lookup].
  apply lookup_replicate_2. lia.
Qed.

Lemma booted_pcb_offsets (tid : Z) (pd : gmap Z (Z * bool)) :
  offsets (booted_pcb tid pd) = initial_offsets.
Proof. vm_compute. reflexivity. Qed.

(** A process that has no user thread besides the main thread satisfies the
    bitmap invariant after bootstrap. *)
Lemma booted_pcb_bitmap_inv (tid : Z) (pd : gmap Z (Z * bool)) :
  bitmap_inv (booted_pcb tid pd) [].
Proof.
  unfold bitmap_inv. rewrite booted_pcb_offsets.
  split; [reflexivity|]. split; [reflexivity|].
  intros i Hi. rewrite initial_offsets_lookup by exact Hi. split.
  - discriminate.
  - intros (t & Hin & _). inversion Hin.
Qed.

(** A set bit at a slot [i >= 2] with no live thread contradicts the
    invariant. *)
Lemma bitmap_inv_no_threads (pcb : process) (i : nat) :
  (2 <= i < NOFFSETS)%nat -> offsets pcb !! i = Some true -> ~ bitmap_inv pcb [].
Proof.
  intros Hi Hset (_ & _ & Hinv).
  apply (Hinv i Hi) in Hset. destruct Hset as (t & Hin & _). inversion Hin.
Qed.

(** C8.  The claim says that every operation, the failure paths of
    [setup_thread] included, keeps the bitmap equal to the set of slots that
    hold a live thread's stack.  When [install_page] fails (the page-table
    allocation fails, or the page is already mapped, here by a loaded
    segment), [setup_thread] frees the frame but leaves the bit that
    [get_lowest_offset] has just set: slot 2 stays marked with no thread
    living there. *)
Theorem setup_thread_failure_leaves_slot_set :
  let pd : gmap Z (Z * bool) := {[ stack_upage := (7, true) ]} in
  let pd_seg : gmap Z (Z * bool) := <[PHYS_BASE - 2 * PGSIZE := (8, false)]> pd in
  let args := mkArgs 11 12 13 false 0 0 0 in
  bitmap_inv (booted_pcb 1 pd) [] /\
  bitmap_inv (booted_pcb 1 pd_seg) [] /\
  (exists pcb1,
     start_pthread 5 args (booted_pcb 1 pd) ∅ (Some 9) false true (Some 1%nat)
       = Ret (pcb1, ∅, None) /\
     offsets pcb1 !! 2%nat = Some true /\ ~ bitmap_inv pcb1 []) /\
  (exists pcb1,
     start_pthread 5 args (booted_pcb 1 pd_seg) ∅ (Some 9) true true (Some 1%nat)
       = Ret (pcb1, ∅, None) /\
     offsets pcb1 !! 2%nat = Some true /\ ~ bitmap_inv pcb1 []).
Proof.
  intros pd pd_seg args.
  split; [apply booted_pcb_bitmap_inv|]. split; [apply booted_pcb_bitmap_inv|].
  split.
  - eexists. split; [vm_compute; reflexivity|].
    split; [reflexivity|].
    apply (bitmap_inv_no_threads _ 2%nat); [unfold NOFFSETS; lia | reflexivity].
  - eexists. split; [vm_compute; reflexivity|].
    split; [reflexivity|].
    apply (bitmap_inv_no_threads _ 2%nat); [unfold NOFFSETS; lia | reflexivity].
Qed.

End StackSlots.

Section UserLocks.

(** A thread that has acquired a user lock passes the owner check of
    [sys_lock_release], which then returns true. *)
Lemma sys_lock_release_after_acquire (cur h : Z) (pcb pcb1 : process) :
  sys_lock_acquire cur (Some h) pcb = Returns true pcb1 ->
  exists pcb2, sys_lock_release cur (Some h) pcb1 = Returns true pcb2.
Proof.
  unfold sys_lock_acquire.
  destruct (locks pcb !! lock_slot h) as [tl|] eqn:Hslot; [|discriminate].
  destruct (tl_initialized tl) eqn:Hinit; cbn [negb]; [|discriminate].
  destruct (lock_held_by_current_thread cur (tl_holder tl)); [discriminate|].
  unfold lock_acquire at 1.
  destruct (process_thread_lock pcb) as [p|]; [destruct (decide (p = cur)); discriminate|].
  unfold sys_lock_acquire_finish.
  destruct (lock_acquire cur (tl_holder tl)); try discriminate.
  cbn. destruct (decide (cur = cur)) as [_|Hne]; [|contradiction].
  intros H. inversion H; subst; clear H.
  unfold sys_lock_release. cbn.
  rewrite list_lookup_insert_eq by (eapply lookup_lt_Some; exact Hslot).
  cbn. rewrite bool_decide_eq_true_2 by reflexivity. rewrite Hinit. cbn.
  destruct (decide (cur = cur)) as [_|Hne]; [|contradiction].
  eexists. reflexivity.
Qed.

(** [sys_lock_init] records the caller as the owner of the new slot, so
    the caller passes the owner check of [sys_lock_release] without having
    acquired the lock, and the primitive lock is released by a thread that
    does not hold it. *)
Lemma sys_lock_release_after_init (cur : Z) (pcb pcb1 : process) (h : Z) :
  (length (locks pcb) <= 256)%nat ->
  sys_lock_init cur false pcb = Returns (true, Some h) pcb1 ->
  sys_lock_release cur (Some h) pcb1 = Aborts Panic.
Proof.
  intros Hlen. unfold sys_lock_init.
  destruct (list_find _ (locks pcb)) as [[i tl]|] eqn:Hfind; [|discriminate].
  apply list_find_Some in Hfind. destruct Hfind as (Hi & _ & _).
  apply lookup_lt_Some in Hi.
  unfold lock_acquire at 1.
  destruct (process_thread_lock pcb) as [p|] eqn:Hp;
    [destruct (decide (p = cur)); discriminate|].
  intros H. inversion H; subst; clear H.
  unfold sys_lock_release, lock_slot. cbn.
  rewrite Z.mod_small by lia. rewrite Nat2Z.id.
  rewrite list_lookup_insert_eq by exact Hi.
  cbn. rewrite bool_decide_eq_true_2 by reflexivity. cbn.
  rewrite Hp. reflexivity.
Qed.

(** C6.  The claim says that [lock_release] by a thread that has not
    acquired the lock returns false.  For the thread that initialised the
    slot it does not: thread 3 initialises a lock (handle 0) and releases it
    straight away; the owner check passes and the kernel releases a primitive
    lock that nobody holds. *)
Theorem lock_release_by_creator_without_acquire :
  exists pcb1,
    sys_lock_init 3 false blank_pcb = Returns (true, Some 0) pcb1 /\
    locks pcb1 !! 0%nat = Some (mkLock None 3 true) /\
    sys_lock_release 3 (Some 0) pcb1 = Aborts Panic /\
    (forall pcb2, sys_lock_release 3 (Some 0) pcb1 <> Returns false pcb2).
Proof.
  eexists. split; [vm_compute; reflexivity|].
  split; [reflexivity|].
  assert (H : forall p, sys_lock_init 3 false blank_pcb = Returns (true, Some 0) p ->
                        sys_lock_release 3 (Some 0) p = Aborts Panic).
  { intros p. apply sys_lock_release_after_init. cbn [blank_pcb locks].
    rewrite length_replicate. lia. }
  split.
  - apply H. vm_compute. reflexivity.
  - intros pcb2. rewrite H by (vm_compute; reflexivity). discriminate.
Qed.

(** A second defect on the same path: a thread that goes to sleep in
    [sys_lock_acquire] keeps the process thread lock, so the holder of the
    user lock goes to sleep in [sys_lock_release] and neither can go on. *)
Lemma lock_release_blocked_by_sleeping_acquirer :
  exists pcb1 pcb2 pcb3,
    sys_lock_init 3 false blank_pcb = Returns (true, Some 0) pcb1 /\
    sys_lock_acquire 3 (Some 0) pcb1 = Returns true pcb2 /\
    sys_lock_acquire 4 (Some 0) pcb2 = Sleeps (OnUserLock 0) pcb3 /\
    process_thread_lock pcb3 = Some 4 /\
    sys_lock_release 3 (Some 0) pcb3 = Sleeps OnProcessThreadLock pcb3 /\
    sys_lock_acquire_finish 4 0 (mkLock (Some 3) 3 true) pcb3 = Sleeps (OnUserLock 0) pcb3.
Proof.
  do 3 eexists. split; [vm_compute; reflexivity|].
  split; [vm_compute; reflexivity|].
  split; [vm_compute; reflexivity|].
  repeat split; vm_compute; reflexivity.
Qed.

End UserLocks.

Section WaitOnce.

Lemma list_remove_elem_of (a b : nat) (l : list nat) :
  b ∈ list_remove a l -> b ∈ l.
Proof.
  induction l as [|c l IH]; cbn; [trivial|].
  destruct (decide (a = c)); intros H.
  - right. exact H.
  - apply elem_of_cons in H. destruct H as [->|H]; [left | right; auto].
Qed.

Lemma list_remove_not_elem_of (a : nat) (l : list nat) :
  NoDup l -> a ∉ list_remove a l.
Proof.
  induction l as [|c l IH]; cbn; intros Hnd.
  - apply not_elem_of_nil.
  - apply NoDup_cons in Hnd. destruct Hnd as [Hc Hnd].
    destruct (decide (a = c)) as [->|Hne]; [exact Hc|].
    intros H. apply elem_of_cons in H. destruct H as [?|H]; [contradiction|].
    exact (IH Hnd H).
Qed.

Lemma NoDup_fmap_inj_on {A B : Type} (f : A -> B) (l : list A) (x y : A) :
  NoDup (f <$> l) -> x ∈ l -> y ∈ l -> f x = f y -> x = y.
Proof.
  induction l as [|c l IH]; intros Hnd Hx Hy Hf; [inversion Hx|].
  rewrite fmap_cons in Hnd. apply NoDup_cons in Hnd. destruct Hnd as [Hc Hnd].
  apply elem_of_cons in Hx. apply elem_of_cons in Hy.
  destruct Hx as [->|Hx], Hy as [->|Hy]; [reflexivity | | | auto].
  - exfalso. apply Hc. rewrite Hf. apply list_elem_of_fmap. eauto.
  - exfalso. apply Hc. rewrite <- Hf. apply list_elem_of_fmap. eauto.
Qed.

Lemma children_ok_unfold (pcb : process) (ws : gmap nat wait_status) :
  children_ok pcb ws = true ->
  NoDup (children pcb) /\
  (forall b, b ∈ children pcb -> is_Some (ws !! b)) /\
  NoDup ((fun b => ws_pid <$> ws !! b) <$> children pcb).
Proof.
  unfold children_ok. intros H.
  apply andb_prop in H. destruct H as [H H3]. apply andb_prop in H. destruct H as [H1 H2].
  apply bool_decide_eq_true in H1. apply bool_decide_eq_true in H2.
  apply bool_decide_eq_true in H3.
  split; [exact H1|]. split; [|exact H3].
  intros b Hb. exact (proj1 (Forall_forall _ _) H2 b Hb).
Qed.

(** The scan finds the record [a] of the child with this pid. *)
Lemma find_child_found (ws : gmap nat wait_status) (a : nat) (cs : wait_status)
  (l : list nat) :
  (forall b, b ∈ l -> is_Some (ws !! b)) ->
  NoDup ((fun b => ws_pid <$> ws !! b) <$> l) ->
  a ∈ l -> ws !! a = Some cs ->
  find_child ws (ws_pid cs) l = Ret (Some a).
Proof.
  induction l as [|b l IH]; intros Hlive Hnd Hin Ha.
  - inversion Hin.
  - cbn. destruct (Hlive b ltac:(left)) as [cb Hb]. rewrite Hb.
    rewrite fmap_cons in Hnd. apply NoDup_cons in Hnd. destruct Hnd as [Hfresh Hnd].
    destruct (decide (a = b)) as [->|Hne].
    + assert (cb = cs) as -> by congruence.
      rewrite bool_decide_eq_true_2 by reflexivity. reflexivity.
    + apply elem_of_cons in Hin. destruct Hin as [?|Hin]; [contradiction|].
      rewrite bool_decide_eq_false_2.
      * apply IH; try assumption. intros c Hc. apply Hlive. right. exact Hc.
      * intros Hpid. apply Hfresh. apply list_elem_of_fmap. exists a.
        split; [|exact Hin]. rewrite Hb, Ha. cbn. congruence.
Qed.

(** The scan finds nothing when no listed child has this pid. *)
Lemma find_child_none (ws : gmap nat wait_status) (pid : Z) (l : list nat) :
  (forall b, b ∈ l -> exists cb, ws !! b = Some cb /\ ws_pid cb <> pid) ->
  find_child ws pid l = Ret None.
Proof.
  induction l as [|b l IH]; intros H; cbn; [reflexivity|].
  destruct (H b ltac:(left)) as (cb & Hb & Hpid). rewrite Hb.
  rewrite bool_decide_eq_false_2 by exact Hpid.
  apply IH. intros c Hc. apply H. right. exact Hc.
Qed.

(** Once the record has been taken off the list, no listed child has the
    pid any more. *)
Lemma children_after_remove (pcb : process) (ws ws' : gmap nat wait_status)
  (a : nat) (cs : wait_status) :
  children_ok pcb ws = true -> a ∈ children pcb -> ws !! a = Some cs ->
  (forall b, b ∈ list_remove a (children pcb) -> ws' !! b = ws !! b) ->
  forall b, b ∈ list_remove a (children pcb) ->
    exists cb, ws' !! b = Some cb /\ ws_pid cb <> ws_pid cs.
Proof.
  intros Hok Hin Ha Hsame b Hb.
  apply children_ok_unfold in Hok. destruct Hok as (Hnd & Hlive & Hpids).
  pose proof (list_remove_elem_of _ _ _ Hb) as Hb'.
  destruct (Hlive b Hb') as [cb Hcb]. exists cb. rewrite (Hsame b Hb).
  split; [exact Hcb|]. intros Heq.
  assert (Hba : b <> a).
  { intros ->. exact (list_remove_not_elem_of a _ Hnd Hb). }
  apply Hba.
  apply (NoDup_fmap_inj_on (fun b => ws_pid <$> ws !! b) (children pcb));
    try assumption.
  rewrite Hcb, Ha. cbn. congruence.
Qed.

Lemma release_child_other (a b : nat) (ws ws' : gmap nat wait_status) :
  release_child a ws = Ret ws' -> b <> a -> ws' !! b = ws !! b.
Proof.
  unfold release_child. destruct (ws !! a) as [cs|]; [|discriminate].
  destruct (ws_ref_cnt cs - 1 =? 0); intros H Hne; inversion H; subst.
  - apply lookup_delete_ne. congruence.
  - apply lookup_insert_ne. congruence.
Qed.

Lemma release_children_other (l : list nat) :
  forall (ws ws' : gmap nat wait_status) (b : nat),
  release_children l ws = Ret ws' -> b ∉ l -> ws' !! b = ws !! b.
Proof.
  induction l as [|a l IH]; intros ws ws' b H Hb; cbn in H.
  - inversion H. reflexivity.
  - destruct (release_child a ws) as [w| | |] eqn:Hr; try discriminate.
    cbn in H. rewrite (IH w ws' b H).
    + apply (release_child_other a b ws w Hr). intros ->. apply Hb. left.
    + intros Hin. apply Hb. right. exact Hin.
Qed.

(** What [process_wait_finish] does on a record whose [dead] semaphore has
    been upped: it returns the stored exit code and touches no other
    record. *)
Lemma process_wait_finish_signalled (a : nat) (pcb : process)
  (ws : gmap nat wait_status) (cs : wait_status) (d : nat) :
  ws !! a = Some cs -> ws_dead cs = S d ->
  exists ws1, process_wait_finish a pcb ws = Returns (ws_exit_code cs) (pcb, ws1) /\
              forall b, b <> a -> ws1 !! b = ws !! b.
Proof.
  intros Ha Hd. unfold process_wait_finish. rewrite Ha, Hd.
  unfold release_child. rewrite lookup_insert_eq. cbn.
  destruct (ws_ref_cnt cs - 1 =? 0); cbn; eexists; (split; [reflexivity|]); intros b Hb.
  - rewrite lookup_delete_ne by congruence. apply lookup_insert_ne. congruence.
  - rewrite lookup_insert_ne by congruence. apply lookup_insert_ne. congruence.
Qed.

(** A child that stores its exit code and then exits leaves the code in its
    wait-status and ups [dead], after the store. *)
Lemma child_exit_publishes (child : process) (a : nat) (cs : wait_status) (e : Z)
  (ws ws2 ws3 : gmap nat wait_status) :
  ws !! a = Some cs -> ws_ref_cnt cs = 2 ->
  wait_status_of child = Some a -> a ∉ children child ->
  sys_exit_store e child ws = Ret ws2 -> process_exit child ws2 = Ret ws3 ->
  ws3 !! a = Some (mkWait 1 (ws_pid cs) e (S (ws_dead cs))).
Proof.
  intros Ha Href Hws Hnot Hstore Hexit.
  unfold sys_exit_store in Hstore. rewrite Hws, Ha in Hstore.
  inversion Hstore; subst; clear Hstore.
  unfold process_exit in Hexit.
  destruct (release_children (children child) _) as [w| | |] eqn:Hrel; try discriminate.
  cbn in Hexit. unfold process_exit_notify in Hexit. rewrite Hws in Hexit.
  rewrite (release_children_other _ _ _ a Hrel Hnot) in Hexit.
  rewrite lookup_insert_eq in Hexit. cbn in Hexit.
  unfold release_child in Hexit. rewrite lookup_insert_eq in Hexit. cbn in Hexit.
  rewrite Href in Hexit. cbn in Hexit. inversion Hexit; subst.
  apply lookup_insert_eq.
Qed.

(** C1.  For a child whose wait-status [a] is on the parent's list: the
    first [process_wait] on its pid takes the record off the list and then
    either returns the exit code the child has stored (the child has upped
    [dead]) or sleeps on [dead]; a sleeping parent that is woken by the
    child's exit gets the code the child stored before exiting; after that
    every wait on the pid returns -1 without sleeping; and so does a wait on
    a pid that no listed child has. *)
Theorem process_wait_once (pcb : process) (ws : gmap nat wait_status)
  (a : nat) (cs : wait_status) :
  children_ok pcb ws = true -> a ∈ children pcb -> ws !! a = Some cs ->
  let pid := ws_pid cs in
  let pcb1 := set_children (list_remove a (children pcb)) pcb in
  (forall d, ws_dead cs = S d ->
     exists ws1, process_wait pid pcb ws = Returns (ws_exit_code cs) (pcb1, ws1) /\
                 forall b, b <> a -> ws1 !! b = ws !! b) /\
  (ws_dead cs = O -> process_wait pid pcb ws = Sleeps (OnDead a) (pcb1, ws)) /\
  (forall child e ws2 ws3,
     ws_dead cs = O -> ws_ref_cnt cs = 2 ->
     wait_status_of child = Some a -> a ∉ children child ->
     sys_exit_store e child ws = Ret ws2 -> process_exit child ws2 = Ret ws3 ->
     exists ws4, process_wait_finish a pcb1 ws3 = Returns e (pcb1, ws4)) /\
  (forall pcb' ws',
     children pcb' = children pcb1 ->
     (forall b, b ∈ children pcb1 -> ws' !! b = ws !! b) ->
     process_wait pid pcb' ws' = Returns (-1) (pcb', ws')) /\
  (forall pid',
     (forall b cb, b ∈ children pcb -> ws !! b = Some cb -> ws_pid cb <> pid') ->
     process_wait pid' pcb ws = Returns (-1) (pcb, ws)).
Proof.
  intros Hok Hin Ha pid pcb1.
  pose proof (children_ok_unfold _ _ Hok) as (Hnd & Hlive & Hpids).
  assert (Hfind : find_child ws pid (children pcb) = Ret (Some a)).
  { apply find_child_found; assumption. }
  split; [|split; [|split; [|split]]].
  - intros d Hd. unfold process_wait. rewrite Hfind.
    apply (process_wait_finish_signalled a pcb1 ws cs d Ha Hd).
  - intros Hd. unfold process_wait. rewrite Hfind.
    unfold process_wait_finish. rewrite Ha, Hd. reflexivity.
  - intros child e ws2 ws3 Hd Href Hws Hnot Hstore Hexit.
    pose proof (child_exit_publishes child a cs e ws ws2 ws3 Ha Href Hws Hnot Hstore Hexit)
      as Ha3.
    destruct (process_wait_finish_signalled a pcb1 ws3 _ (ws_dead cs) Ha3 eq_refl)
      as (ws4 & Hfin & _).
    exists ws4. exact Hfin.
  - intros pcb' ws' Hlist Hsame. unfold process_wait. rewrite Hlist.
    rewrite (find_child_none ws' pid (children pcb1)); [reflexivity|].
    apply (children_after_remove pcb ws ws' a cs Hok Hin Ha Hsame).
  - intros pid' Hnone. unfold process_wait.
    rewrite (find_child_none ws pid' (children pcb)); [reflexivity|].
    intros b Hb. destruct (Hlive b Hb) as [cb Hcb]. exists cb.
    split; [exact Hcb|]. exact (Hnone b cb Hb Hcb).
Qed.

Lemma process_wait_once_witness :
  children_ok parent_pcb parent_ws = true /\
  process_wait 10 parent_pcb parent_ws
    = Sleeps (OnDead 0) (set_children [1%nat] parent_pcb, parent_ws) /\
  process_wait 10 (set_children [1%nat] parent_pcb) parent_ws
    = Returns (-1) (set_children [1%nat] parent_pcb, parent_ws).
Proof.
  split; [vm_compute; reflexivity|].
  destruct (process_wait_once parent_pcb parent_ws 0%nat (new_wait_status 10))
    as (_ & Hsleep & _ & Hagain & _).
  - vm_compute. reflexivity.
  - left.
  - reflexivity.
  - split.
    + apply Hsleep. reflexivity.
    + apply Hagain; [reflexivity|]. intros b _. reflexivity.
Defined.

End WaitOnce.

Section JoinOnce.

Lemma join_statuses_ok_unfold (pcb : process) (js : gmap nat join_status) :
  join_statuses_ok pcb js = true ->
  NoDup (join_statuses pcb) /\
  (forall b, b ∈ join_statuses pcb -> is_Some (js !! b)) /\
  NoDup ((fun b => js_tid <$> js !! b) <$> join_statuses pcb).
Proof.
  unfold join_statuses_ok. intros H.
  apply andb_prop in H. destruct H as [H H3]. apply andb_prop in H. destruct H as [H1 H2].
  apply bool_decide_eq_true in H1. apply bool_decide_eq_true in H2.
  apply bool_decide_eq_true in H3.
  split; [exact H1|]. split; [|exact H3].
  intros b Hb. exact (proj1 (Forall_forall _ _) H2 b Hb).
Qed.

(** The scan finds the record [a] of an un-joined thread with this tid. *)
Lemma find_join_found (js : gmap nat join_status) (a : nat) (j : join_status)
  (l : list nat) :
  (forall b, b ∈ l -> is_Some (js !! b)) ->
  NoDup ((fun b => js_tid <$> js !! b) <$> l) ->
  a ∈ l -> js !! a = Some j -> js_waited_on j = false ->
  find_join js (js_tid j) l = Ret (Some a).
Proof.
  induction l as [|b l IH]; intros Hlive Hnd Hin Ha Hw.
  - inversion Hin.
  - cbn. destruct (Hlive b ltac:(left)) as [jb Hb]. rewrite Hb.
    rewrite fmap_cons in Hnd. apply NoDup_cons in Hnd. destruct Hnd as [Hfresh Hnd].
    destruct (decide (a = b)) as [->|Hne].
    + assert (jb = j) as -> by congruence.
      rewrite bool_decide_eq_true_2 by reflexivity. rewrite Hw. reflexivity.
    + apply elem_of_cons in Hin. destruct Hin as [?|Hin]; [contradiction|].
      rewrite bool_decide_eq_false_2.
      * apply IH; try assumption. intros c Hc. apply Hlive. right. exact Hc.
      * intros Htid. apply Hfresh. apply list_elem_of_fmap. exists a.
        split; [|exact Hin]. rewrite Hb, Ha. cbn. congruence.
Qed.

(** The scan finds nothing when every listed record has another tid or has
    been waited on. *)
Lemma find_join_none (js : gmap nat join_status) (tid : Z) (l : list nat) :
  (forall b, b ∈ l ->
     exists jb, js !! b = Some jb /\ (js_tid jb <> tid \/ js_waited_on jb = true)) ->
  find_join js tid l = Ret None.
Proof.
  induction l as [|b l IH]; intros H; cbn; [reflexivity|].
  destruct (H b ltac:(left)) as (jb & Hb & Hno). rewrite Hb.
  assert (bool_decide (js_tid jb = tid) && negb (js_waited_on jb) = false) as ->.
  { destruct Hno as [Hno|Hno].
    - rewrite bool_decide_eq_false_2 by exact Hno. reflexivity.
    - rewrite Hno. apply andb_false_r. }
  apply IH. intros c Hc. apply H. right. exact Hc.
Qed.

Lemma join_statuses_after_remove (pcb : process) (js js' : gmap nat join_status)
  (a : nat) (j : join_status) :
  join_statuses_ok pcb js = true -> a ∈ join_statuses pcb -> js !! a = Some j ->
  (forall b, b ∈ list_remove a (join_statuses pcb) -> js' !! b = js !! b) ->
  forall b, b ∈ list_remove a (join_statuses pcb) ->
    exists jb, js' !! b = Some jb /\
               (js_tid jb <> js_tid j \/ js_waited_on jb = true).
Proof.
  intros Hok Hin Ha Hsame b Hb.
  apply join_statuses_ok_unfold in Hok. destruct Hok as (Hnd & Hlive & Htids).
  pose proof (list_remove_elem_of _ _ _ Hb) as Hb'.
  destruct (Hlive b Hb') as [jb Hjb]. exists jb. rewrite (Hsame b Hb).
  split; [exact Hjb|]. left. intros Heq.
  assert (Hba : b <> a).
  { intros ->. exact (list_remove_not_elem_of a _ Hnd Hb). }
  apply Hba.
  apply (NoDup_fmap_inj_on (fun b => js_tid <$> js !! b) (join_statuses pcb));
    try assumption.
  rewrite Hjb, Ha. cbn. congruence.
Qed.

(** [pthread_join_finish] on a record whose semaphore has been upped and
    whose lock is initialised returns the tid and touches no other
    record. *)
Lemma pthread_join_finish_signalled (tid : Z) (a : nat) (pcb : process)
  (js : gmap nat join_status) (j : join_status) (v : nat) :
  js !! a = Some j -> js_sema j = S v -> js_lock_ready j = true ->
  exists js1, pthread_join_finish tid a pcb js = Returns tid (pcb, js1) /\
              forall b, b <> a -> js1 !! b = js !! b.
Proof.
  intros Ha Hv Hl. unfold pthread_join_finish. rewrite Ha, Hv.
  unfold release_thread. rewrite lookup_insert_eq. cbn. rewrite Hl. cbn.
  destruct (js_ref_cnt j - 1 =? 0); cbn; eexists; (split; [reflexivity|]); intros b Hb.
  - rewrite lookup_delete_ne by congruence. apply lookup_insert_ne. congruence.
  - rewrite lookup_insert_ne by congruence. apply lookup_insert_ne. congruence.
Qed.

(** With the process thread lock free, [pthread_join] is its scan. *)
Lemma pthread_join_lock_free (cur tid : Z) (pcb : process) (js : gmap nat join_status) :
  process_thread_lock pcb = None ->
  pthread_join cur tid pcb js
  = match find_join js tid (join_statuses pcb) with
    | Ret (Some a) =>
        match js !! a with
        | None => Aborts Stray
        | Some j =>
            pthread_join_finish tid a
              (set_join_statuses (list_remove a (join_statuses pcb)) pcb)
              (<[a := mkJoin (js_tid j) true (js_sema j) (js_ref_cnt j)
                        (js_lock_ready j)]> js)
        end
    | Ret None => Returns TID_ERROR (pcb, js)
    | Panic => Aborts Panic
    | Stray => Aborts Stray
    | Hang => Aborts Hang
    end.
Proof. intros Hlock. unfold pthread_join. rewrite Hlock. reflexivity. Qed.

(** While another thread holds the process thread lock, [pthread_join]
    goes to sleep on it before it has looked at the list. *)
Lemma pthread_join_lock_held (cur holder tid : Z) (pcb : process)
  (js : gmap nat join_status) :
  process_thread_lock pcb = Some holder -> holder <> cur ->
  pthread_join cur tid pcb js = Sleeps OnProcessThreadLock (pcb, js).
Proof.
  intros Hlock Hne. unfold pthread_join, lock_acquire. rewrite Hlock.
  rewrite decide_False by exact Hne. reflexivity.
Qed.

(** What a call of [pthread_exit] that gets to [thread_exit] has done. *)
Lemma pthread_exit_inv (t : thread) (pcb pcb' : process) (js js' : gmap nat join_status) :
  pthread_exit t pcb js = ThreadExits pcb' js' ->
  t_tid t <> main_thread pcb /\
  process_thread_lock pcb = None /\
  0 <= t_offset t < Z.of_nat NOFFSETS /\
  exists i e pd,
    get_thread_entry (t_tid t) (user_thread_list pcb) = Some (i, e) /\
    pagedir pcb = Some pd /\
    pcb' = set_process_thread_lock None
             (set_offsets (<[Z.to_nat (t_offset t) := false]> (offsets pcb))
                (set_process_thread_lock (Some (t_tid t))
                   (set_pagedir (Some (delete (t_upage t) pd))
                      (set_user_thread_list (delete i (user_thread_list pcb)) pcb)))) /\
    match t_join_status t with
    | Some a => sema_up_join a js = Ret js'
    | None => js' = js
    end.
Proof.
  unfold pthread_exit.
  destruct (bool_decide (t_tid t = main_thread pcb)) eqn:Hmain; [discriminate|].
  apply bool_decide_eq_false in Hmain.
  destruct (get_thread_entry (t_tid t) (user_thread_list pcb)) as [[i e]|]; [|discriminate].
  cbn [pagedir set_user_thread_list].
  destruct (pagedir pcb) as [pd|]; [|discriminate].
  cbn [process_thread_lock set_pagedir set_user_thread_list].
  destruct (process_thread_lock pcb) as [h|] eqn:Hlock.
  { cbn [lock_acquire]. destruct (decide (h = t_tid t)); discriminate. }
  cbn [lock_acquire]. unfold pthread_exit_finish.
  destruct (bool_decide (0 <= t_offset t < Z.of_nat NOFFSETS)) eqn:Hrange; [|discriminate].
  apply bool_decide_eq_true in Hrange.
  cbn [process_thread_lock set_offsets set_process_thread_lock lock_release].
  rewrite decide_True by reflexivity.
  intros H. split; [exact Hmain|]. split; [reflexivity|]. split; [exact Hrange|].
  exists i, e, pd. split; [reflexivity|]. split; [reflexivity|].
  destruct (t_join_status t) as [a|].
  - destruct (sema_up_join a js) as [js1| | |]; try discriminate.
    inversion H. split; reflexivity.
  - inversion H. split; reflexivity.
Qed.

(** A thread that runs [pthread_exit] ups the semaphore of its
    join-status. *)
Lemma pthread_exit_signals (t : thread) (pcb pcb2 : process)
  (js js2 : gmap nat join_status) (a : nat) (j : join_status) :
  t_join_status t = Some a -> js !! a = Some j ->
  pthread_exit t pcb js = ThreadExits pcb2 js2 ->
  js2 !! a = Some (mkJoin (js_tid j) (js_waited_on j) (S (js_sema j)) (js_ref_cnt j)
                     (js_lock_ready j)) /\
  join_statuses pcb2 = join_statuses pcb.
Proof.
  intros Ht Ha Hexit. apply pthread_exit_inv in Hexit.
  destruct Hexit as (_ & _ & _ & i & e & pd & _ & _ & -> & Hjs).
  rewrite Ht in Hjs. unfold sema_up_join in Hjs. rewrite Ha in Hjs.
  inversion Hjs. split; [apply lookup_insert_eq | reflexivity].
Qed.

(** C2 (amended).  For a thread whose join-status [a] is on the list and
    has not been waited on, and with the process thread lock free at the
    call: the first [pthread_join] on its tid marks the record waited-on,
    takes it off the list and then either returns the tid (the thread has
    upped the semaphore) or sleeps on the semaphore; a sleeping joiner that
    is woken by the thread's [pthread_exit] returns the tid; after that
    every join on the tid finds nothing and returns [TID_ERROR] without
    waiting for any thread, and so does a join on a tid with no matching
    un-waited record.  Every join takes the process thread lock first:
    while another thread holds it, the caller sleeps on the lock, whatever
    the tid, with nothing changed. *)
Theorem pthread_join_once (cur : Z) (pcb : process) (js : gmap nat join_status)
  (a : nat) (j : join_status) :
  join_statuses_ok pcb js = true -> a ∈ join_statuses pcb -> js !! a = Some j ->
  js_waited_on j = false -> js_lock_ready j = true ->
  process_thread_lock pcb = None ->
  let tid := js_tid j in
  let pcb1 := set_join_statuses (list_remove a (join_statuses pcb)) pcb in
  let js1 := <[a := mkJoin tid true (js_sema j) (js_ref_cnt j) (js_lock_ready j)]> js in
  (forall v, js_sema j = S v ->
     exists js2, pthread_join cur tid pcb js = Returns tid (pcb1, js2) /\
                 forall b, b <> a -> js2 !! b = js !! b) /\
  (js_sema j = O -> pthread_join cur tid pcb js = Sleeps (OnJoin a) (pcb1, js1)) /\
  (forall t pcb2 js2,
     js_sema j = O -> t_join_status t = Some a ->
     pthread_exit t pcb1 js1 = ThreadExits pcb2 js2 ->
     exists js3, pthread_join_finish tid a pcb2 js2 = Returns tid (pcb2, js3)) /\
  (forall cur' pcb' js',
     join_statuses pcb' = join_statuses pcb1 -> process_thread_lock pcb' = None ->
     (forall b, b ∈ join_statuses pcb1 -> js' !! b = js !! b) ->
     pthread_join cur' tid pcb' js' = Returns TID_ERROR (pcb', js')) /\
  (forall tid',
     (forall b jb, b ∈ join_statuses pcb -> js !! b = Some jb ->
        js_tid jb <> tid' \/ js_waited_on jb = true) ->
     pthread_join cur tid' pcb js = Returns TID_ERROR (pcb, js)) /\
  (forall cur' holder tid' pcb' js',
     process_thread_lock pcb' = Some holder -> holder <> cur' ->
     pthread_join cur' tid' pcb' js' = Sleeps OnProcessThreadLock (pcb', js')).
Proof.
  intros Hok Hin Ha Hw Hl Hlock tid pcb1 js1.
  pose proof (join_statuses_ok_unfold _ _ Hok) as (Hnd & Hlive & Htids).
  assert (Hfind : find_join js tid (join_statuses pcb) = Ret (Some a)).
  { apply find_join_found; assumption. }
  assert (Ha1 : js1 !! a = Some (mkJoin tid true (js_sema j) (js_ref_cnt j) (js_lock_ready j))).
  { apply lookup_insert_eq. }
  split; [|split; [|split; [|split; [|split]]]].
  - intros v Hv. rewrite (pthread_join_lock_free cur tid pcb js Hlock), Hfind, Ha.
    destruct (pthread_join_finish_signalled tid a pcb1 js1 _ v Ha1 Hv Hl) as (js2 & Hfin & Hoth).
    exists js2. split; [exact Hfin|]. intros b Hb. rewrite (Hoth b Hb).
    apply lookup_insert_ne. congruence.
  - intros Hv. rewrite (pthread_join_lock_free cur tid pcb js Hlock), Hfind, Ha.
    unfold pthread_join_finish. fold tid. fold js1. rewrite Ha1. cbn. rewrite Hv. reflexivity.
  - intros t pcb2 js2 Hv Ht Hexit.
    destruct (pthread_exit_signals t pcb1 pcb2 js1 js2 a _ Ht Ha1 Hexit) as [Ha2 _].
    cbn in Ha2.
    destruct (pthread_join_finish_signalled tid a pcb2 js2 _ (js_sema j) Ha2 eq_refl Hl)
      as (js3 & Hfin & _).
    exists js3. exact Hfin.
  - intros cur' pcb' js' Hlist Hlock' Hsame.
    rewrite (pthread_join_lock_free cur' tid pcb' js' Hlock'), Hlist.
    rewrite (find_join_none js' tid (join_statuses pcb1)); [reflexivity|].
    apply (join_statuses_after_remove pcb js js' a j Hok Hin Ha Hsame).
  - intros tid' Hnone. rewrite (pthread_join_lock_free cur tid' pcb js Hlock).
    rewrite (find_join_none js tid' (join_statuses pcb)); [reflexivity|].
    intros b Hb. destruct (Hlive b Hb) as [jb Hjb]. exists jb.
    split; [exact Hjb|]. exact (Hnone b jb Hb Hjb).
  - intros cur' holder tid' pcb' js'. apply pthread_join_lock_held.
Qed.

Lemma pthread_join_once_witness :
  join_statuses_ok threaded_pcb threaded_js = true /\
  pthread_join 1 5 threaded_pcb threaded_js
    = Sleeps (OnJoin 1)
        (set_join_statuses [0%nat] threaded_pcb,
         <[1%nat := mkJoin 5 true 0 2 true]> threaded_js) /\
  pthread_join 1 5 (set_join_statuses [0%nat] threaded_pcb)
      (<[1%nat := mkJoin 5 true 1 2 true]> threaded_js)
    = Returns TID_ERROR
        (set_join_statuses [0%nat] threaded_pcb,
         <[1%nat := mkJoin 5 true 1 2 true]> threaded_js) /\
  pthread_join 1 5 (set_process_thread_lock (Some 5) threaded_pcb) threaded_js
    = Sleeps OnProcessThreadLock
        (set_process_thread_lock (Some 5) threaded_pcb, threaded_js).
Proof.
  split; [vm_compute; reflexivity|].
  destruct (pthread_join_once 1 threaded_pcb threaded_js 1%nat (mkJoin 5 false 0 2 true))
    as (_ & Hsleep & _ & Hagain & _ & Hheld).
  - vm_compute. reflexivity.
  - left.
  - reflexivity.
  - reflexivity.
  - reflexivity.
  - reflexivity.
  - split; [|split].
    + apply Hsleep. reflexivity.
    + apply Hagain; [reflexivity | reflexivity |].
      intros b Hb. apply elem_of_cons in Hb. destruct Hb as [->|Hb]; [reflexivity|].
      inversion Hb.
    + apply (Hheld 1 5); [reflexivity | discriminate].
Defined.

(** C2 as stated fails: the claim says that a join on a tid with no
    matching un-waited join-status returns [TID_ERROR] without blocking.
    In the process of [threaded_pcb] the main thread (tid 1) initialises a
    user lock and acquires it; thread 5 then calls [sys_lock_acquire] on it
    and goes to sleep holding the process thread lock.  A
    [pthread_join (9)] of the main thread, for which no join-status exists,
    now does not return [TID_ERROR]: it goes to sleep on the process thread
    lock. *)
Lemma pthread_join_blocks_on_process_thread_lock :
  exists pcb1 pcb2 pcb3,
    sys_lock_init 1 false threaded_pcb = Returns (true, Some 0) pcb1 /\
    sys_lock_acquire 1 (Some 0) pcb1 = Returns true pcb2 /\
    sys_lock_acquire 5 (Some 0) pcb2 = Sleeps (OnUserLock 0) pcb3 /\
    process_thread_lock pcb3 = Some 5 /\
    find_join threaded_js 9 (join_statuses pcb3) = Ret None /\
    pthread_join 1 9 pcb3 threaded_js = Sleeps OnProcessThreadLock (pcb3, threaded_js) /\
    pthread_join 1 9 pcb3 threaded_js <> Returns TID_ERROR (pcb3, threaded_js).
Proof.
  do 3 eexists. split; [vm_compute; reflexivity|].
  split; [vm_compute; reflexivity|].
  split; [vm_compute; reflexivity|].
  split; [reflexivity|]. split; [vm_compute; reflexivity|].
  assert (H : forall pcb js, process_thread_lock pcb = Some 5 ->
                pthread_join 1 9 pcb js = Sleeps OnProcessThreadLock (pcb, js)).
  { intros pcb js Hlock. apply (pthread_join_lock_held 1 5 9 pcb js Hlock). discriminate. }
  split.
  - apply H. reflexivity.
  - rewrite H by reflexivity. discriminate.
Qed.

End JoinOnce.

Section CopyInString.

Lemma user_bytes_length (um : user_memory) (n : nat) :
  forall us, length (user_bytes um us n) = n.
Proof. induction n as [|n IH]; intros us; cbn; [reflexivity | rewrite IH; reflexivity]. Qed.


Lemma unterminated_tail (um : user_memory) (us : Z) (n : nat) :
  unterminated um us (S n) -> unterminated um (us + 1) n.
Proof.
  intros H k Hk. destruct (H (S k) ltac:(lia)) as [Hlt Hb].
  replace (us + 1 + Z.of_nat k) with (us + Z.of_nat (S k)) by lia. split; assumption.
Qed.

Lemma unterminated_nonzero (um : user_memory) (n : nat) :
  forall us, unterminated um us n -> Forall (fun b => b <> 0) (user_bytes um us n).
Proof.
  induction n as [|n IH]; intros us H; cbn; constructor.
  - destruct (H O ltac:(lia)) as [_ (b & Hb & Hnz)].
    rewrite Z.add_0_r in Hb. rewrite Hb. exact Hnz.
  - apply IH. apply unterminated_tail. exact H.
Qed.

Lemma cstring_terminated (l rest : list Z) :
  Forall (fun b => b <> 0) l -> cstring (l ++ 0 :: rest) = l.
Proof.
  induction 1 as [|b l Hb _ IH]; cbn; [reflexivity|].
  destruct (Z.eqb_spec b 0); [contradiction|]. rewrite IH. reflexivity.
Qed.




End CopyInString.

Section InitialStack.

(** *** Bytes and words in a page *)

Lemma same_outside_refl (m : list Z) (lo hi : Z) : same_outside m m lo hi.
Proof. split; [reflexivity | intros; reflexivity]. Qed.

Lemma same_outside_trans (m1 m2 m3 : list Z) (lo hi lo' hi' lo'' hi'' : Z) :
  same_outside m1 m2 lo hi -> same_outside m2 m3 lo' hi' ->
  lo'' <= lo -> lo'' <= lo' -> hi <= hi'' -> hi' <= hi'' ->
  same_outside m1 m3 lo'' hi''.
Proof.
  intros [Hl1 H1] [Hl2 H2] ? ? ? ?. split; [congruence|].
  intros i Hi. rewrite H2 by lia. apply H1. lia.
Qed.

Lemma memcpy_same_outside (m : list Z) (dst : Z) (buf : list Z) :
  0 <= dst ->
  same_outside m (memcpy m dst buf) dst (dst + Z.of_nat (length buf)).
Proof.
  intros Hdst. unfold memcpy. split; [apply length_inserts|].
  intros i [Hi|Hi].
  - apply list_lookup_inserts_lt. lia.
  - apply list_lookup_inserts_ge. lia.
Qed.

Lemma memcpy_lookup (m : list Z) (dst : Z) (buf : list Z) (k : nat) :
  0 <= dst -> dst + Z.of_nat (length buf) <= Z.of_nat (length m) ->
  (k < length buf)%nat ->
  memcpy m dst buf !! (Z.to_nat dst + k)%nat = buf !! k.
Proof.
  intros Hdst Hfit Hk. unfold memcpy.
  rewrite list_lookup_inserts by lia. f_equal. lia.
Qed.

Lemma load8_lookup (m : list Z) (a : Z) (x : Z) :
  m !! Z.to_nat a = Some x -> load8 m a = x.
Proof. unfold load8. intros ->. reflexivity. Qed.

Lemma load32_ext (m m' : list Z) (a : Z) :
  0 <= a ->
  (forall i : nat, a <= Z.of_nat i < a + 4 -> m' !! i = m !! i) ->
  load32 m' a = load32 m a.
Proof.
  intros Ha H. unfold load32, load8.
  rewrite !(H (Z.to_nat _)) by lia. reflexivity.
Qed.

Lemma le_bytes32_value (w : Z) :
  0 <= w < UINT32_MOD ->
  w mod 256 + 256 * ((w / 256) mod 256) + 65536 * ((w / 65536) mod 256)
  + 16777216 * ((w / 16777216) mod 256) = w.
Proof.
  rewrite UINT32_MOD_val. intros Hw.
  Z.div_mod_to_equations. lia.
Qed.

Lemma load32_store32 (m : list Z) (a w : Z) :
  0 <= a -> a + 4 <= Z.of_nat (length m) -> 0 <= w < UINT32_MOD ->
  load32 (store32 m a w) a = w.
Proof.
  intros Ha Hfit Hw. unfold load32, store32.
  pose proof (memcpy_lookup m a (le_bytes32 w)) as Hk.
  assert (H0 := Hk 0%nat Ha Hfit ltac:(cbn; lia)).
  assert (H1 := Hk 1%nat Ha Hfit ltac:(cbn; lia)).
  assert (H2 := Hk 2%nat Ha Hfit ltac:(cbn; lia)).
  assert (H3 := Hk 3%nat Ha Hfit ltac:(cbn; lia)).
  replace (Z.to_nat a + 0)%nat with (Z.to_nat a) in H0 by lia.
  replace (Z.to_nat a + 1)%nat with (Z.to_nat (a + 1)) in H1 by lia.
  replace (Z.to_nat a + 2)%nat with (Z.to_nat (a + 2)) in H2 by lia.
  replace (Z.to_nat a + 3)%nat with (Z.to_nat (a + 3)) in H3 by lia.
  rewrite (load8_lookup _ _ _ H0), (load8_lookup _ _ _ H1),
    (load8_lookup _ _ _ H2), (load8_lookup _ _ _ H3).
  apply le_bytes32_value. exact Hw.
Qed.

Lemma store32_same_outside (m : list Z) (a w : Z) :
  0 <= a -> same_outside m (store32 m a w) a (a + 4).
Proof. intros Ha. apply (memcpy_same_outside m a (le_bytes32 w) Ha). Qed.

Lemma ROUND_UP_4 : ROUND_UP 4 4 = 4.
Proof. reflexivity. Qed.

Lemma ROUND_UP_bounds (x : Z) :
  0 <= x -> x <= ROUND_UP x 4 < x + 4 /\ ROUND_UP x 4 mod 4 = 0.
Proof.
  intros Hx. unfold ROUND_UP. split.
  - Z.div_mod_to_equations. lia.
  - apply Z.mod_mul. lia.
Qed.

(** Pushing one 32-bit word. *)
Lemma push_word (m : list Z) (ofs w : Z) :
  4 <= ofs <= PGSIZE ->
  push m ofs (le_bytes32 w) = Ret (Some (store32 m (ofs - 4) w, ofs - 4, ofs - 4)).
Proof.
  intros Hofs. unfold push. cbn [length le_bytes32].
  change (Z.of_nat 4) with 4. rewrite ROUND_UP_4.
  destruct (Z.ltb_spec ofs 4); [lia|].
  replace (ofs - 4 + (4 - 4)) with (ofs - 4) by lia.
  destruct (Z.leb_spec (ofs - 4 + 4) PGSIZE); [reflexivity | lia].
Qed.

(** Whatever [push] of a word returns, the new offset is four less. *)
Lemma push_word_ofs (m : list Z) (ofs w : Z) (m' : list Z) (ofs' dst : Z) :
  push m ofs (le_bytes32 w) = Ret (Some (m', ofs', dst)) -> ofs' = ofs - 4.
Proof.
  unfold push. cbn [length le_bytes32]. change (Z.of_nat 4) with 4. rewrite ROUND_UP_4.
  destruct (ofs <? 4); [discriminate|].
  destruct (_ <=? PGSIZE); [|discriminate].
  intros H. inversion H. reflexivity.
Qed.

Lemma push_arguments_ofs (args : list Z) :
  forall (m : list Z) (ofs : Z) (m' : list Z) (ofs' : Z),
  push_arguments m ofs args = Ret (Some (m', ofs')) ->
  ofs' = ofs - 4 * Z.of_nat (length args).
Proof.
  induction args as [|a args IH]; intros m ofs m' ofs' H; cbn in H.
  - inversion H. cbn. lia.
  - destruct (push m ofs (le_bytes32 a)) as [[[[m1 ofs1] d1]|]| | |] eqn:Hp;
      try discriminate.
    cbn in H. apply push_word_ofs in Hp. apply IH in H. cbn [length]. lia.
Qed.

(** Whatever [push] returns, the new offset is the old one less the padded
    size. *)
Lemma push_ofs (m : list Z) (ofs : Z) (buf : list Z) (m' : list Z) (ofs' dst : Z) :
  push m ofs buf = Ret (Some (m', ofs', dst)) ->
  ofs' = ofs - ROUND_UP (Z.of_nat (length buf)) 4.
Proof.
  unfold push. destruct (ofs <? _); [discriminate|].
  destruct (_ <=? PGSIZE); [|discriminate].
  intros H. inversion H. reflexivity.
Qed.

(** The stack pointer [init_cmd_line] hands out, modulo 16. *)
Lemma init_cmd_line_esp_mod16 (kpage : list Z) (upage : Z) (cmd_line : list Z)
  (m : list Z) (esp : Z) :
  init_cmd_line kpage upage cmd_line = Ret (Some (m, esp)) ->
  (esp - upage) mod 16 = 12.
Proof.
  unfold init_cmd_line.
  destruct (push kpage PGSIZE (cmd_line ++ [0])) as [[[[m0 ofs0] c0]|]| | |] eqn:Hp0;
    try discriminate.
  cbn [mbind outcome_bind].
  destruct (parse_arguments _ m0 _ upage []) as [[m1 args]| | |]; try discriminate.
  cbn [mbind outcome_bind].
  set (argc := Z.of_nat (length args)).
  set (adj := wrap32 (PGSIZE - ofs0 + (argc + 1) * 4 + 4 + 4) mod 16).
  set (ofs1 := sub32 ofs0 (16 - adj)).
  destruct (push m1 ofs1 (le_bytes32 0)) as [[[[m2 ofs2] c2]|]| | |] eqn:Hp2;
    try discriminate.
  cbn [mbind outcome_bind].
  destruct (push_arguments m2 ofs2 args) as [[[m3 ofs3]|]| | |] eqn:Hp3; try discriminate.
  cbn [mbind outcome_bind].
  destruct (push (reverse _ _ _) ofs3 _) as [[[[m4 ofs4] c4]|]| | |] eqn:Hp4;
    try discriminate.
  cbn [mbind outcome_bind].
  destruct (push m4 ofs4 _) as [[[[m5 ofs5] c5]|]| | |] eqn:Hp5; try discriminate.
  cbn [mbind outcome_bind].
  destruct (push m5 ofs5 _) as [[[[m6 ofs6] c6]|]| | |] eqn:Hp6; try discriminate.
  cbn [mbind outcome_bind].
  intros H. inversion H; subst m esp; clear H.
  apply push_ofs in Hp0. apply push_word_ofs in Hp2, Hp4, Hp5, Hp6.
  apply push_arguments_ofs in Hp3. fold argc in Hp3.
  assert (Hround : ROUND_UP (Z.of_nat (length (cmd_line ++ [0]))) 4 mod 4 = 0).
  { apply ROUND_UP_bounds. lia. }
  set (S0 := ROUND_UP (Z.of_nat (length (cmd_line ++ [0]))) 4) in *.
  assert (Hargc : 0 <= argc) by (unfold argc; lia).
  unfold ofs1, sub32, adj, wrap32 in *. rewrite UINT32_MOD_val in *.
  rewrite PGSIZE_val in *.
  replace (upage + ofs6 - upage) with ofs6 by lia.
  subst ofs6 ofs5 ofs4 ofs3 ofs2 ofs0.
  clearbody S0 argc. clear.
  Z.div_mod_to_equations. lia.
Qed.

(** C5 (amended).  For every command line [init_cmd_line] accepts, with the
    page 16-byte aligned as it is in [setup_stack], the final stack pointer
    is 12 modulo 16: the padding makes [esp] 16-byte aligned before the fake
    return address is pushed, so it is [esp + 4], the address of [argc],
    that is a multiple of 16. *)
Theorem init_cmd_line_esp_aligned_before_return_address
  (kpage : list Z) (upage : Z) (cmd_line : list Z) (m : list Z) (esp : Z) :
  upage mod 16 = 0 ->
  init_cmd_line kpage upage cmd_line = Ret (Some (m, esp)) ->
  esp mod 16 = 12 /\ (esp + 4) mod 16 = 0.
Proof.
  intros Hup H. apply init_cmd_line_esp_mod16 in H.
  revert Hup H. Z.div_mod_to_equations. lia.
Qed.

Lemma init_cmd_line_esp_aligned_before_return_address_witness :
  stack_upage mod 16 = 0 /\
  exists m esp,
    init_cmd_line zero_page stack_upage (bytes_of_string "echo hello world")
      = Ret (Some (m, esp)) /\
    esp mod 16 = 12 /\ (esp + 4) mod 16 = 0.
Proof.
  split; [reflexivity|].
  assert (H : exists r, init_cmd_line zero_page stack_upage
                          (bytes_of_string "echo hello world") = Ret (Some r)).
  { vm_compute. eexists. reflexivity. }
  destruct H as [[m esp] H]. exists m, esp. split; [exact H|].
  exact (init_cmd_line_esp_aligned_before_return_address
           zero_page stack_upage _ m esp eq_refl H).
Defined.

(** C5 as stated fails: for ["echo hello world"] the command line is
    accepted and the page offset of the final [esp] is 12 modulo 16, not a
    multiple of 16. *)
Lemma init_cmd_line_esp_not_multiple_of_16 :
  exists m esp,
    init_cmd_line zero_page stack_upage (bytes_of_string "echo hello world")
      = Ret (Some (m, esp)) /\
    pg_ofs esp mod 16 = 12 /\ pg_ofs esp mod 16 <> 0 /\ esp mod 16 <> 0.
Proof.
  assert (H : exists m, init_cmd_line zero_page stack_upage
                          (bytes_of_string "echo hello world")
                        = Ret (Some (m, 3221225420))).
  { vm_compute. eexists. reflexivity. }
  destruct H as [m H]. exists m, 3221225420. split; [exact H|].
  vm_compute. repeat split; discriminate.
Qed.

(** *** The tokens of a command line *)

Lemma fields_no_space (w : list Z) :
  Forall (fun c => c <> SPACE) w -> fields w = [w].
Proof.
  induction 1 as [|c w Hc _ IH]; cbn; [reflexivity|].
  destruct (Z.eqb_spec c SPACE); [contradiction|]. rewrite IH. reflexivity.
Qed.

Lemma fields_word_space (w rest : list Z) :
  Forall (fun c => c <> SPACE) w -> fields (w ++ SPACE :: rest) = w :: fields rest.
Proof.
  induction 1 as [|c w Hc _ IH]; cbn.
  - reflexivity.
  - destruct (Z.eqb_spec c SPACE); [contradiction|]. rewrite IH. reflexivity.
Qed.

Lemma tokens_space (l : list Z) : tokens (SPACE :: l) = tokens l.
Proof.
  unfold tokens. change (fields (SPACE :: l)) with ([] :: fields l).
  apply filter_cons_False. intros H. apply H. reflexivity.
Qed.

Lemma tokens_spaces (k : nat) (l : list Z) : tokens (replicate k SPACE ++ l) = tokens l.
Proof.
  induction k as [|k IH]; cbn [replicate app]; [reflexivity|].
  rewrite tokens_space. exact IH.
Qed.

Lemma tokens_nil : tokens [] = [].
Proof. reflexivity. Qed.

Lemma tokens_word (w : list Z) :
  w <> [] -> Forall (fun c => c <> SPACE) w -> tokens w = [w].
Proof.
  intros Hne Hw. unfold tokens. rewrite fields_no_space by exact Hw.
  rewrite filter_cons_True by exact Hne. reflexivity.
Qed.

Lemma tokens_word_space (w rest : list Z) :
  w <> [] -> Forall (fun c => c <> SPACE) w ->
  tokens (w ++ SPACE :: rest) = w :: tokens rest.
Proof.
  intros Hne Hw. unfold tokens. rewrite fields_word_space by exact Hw.
  rewrite filter_cons_True by exact Hne. reflexivity.
Qed.

(** A string is all spaces, or some spaces and then a word that runs to the
    end of the string or to the next space. *)
Lemma split_first_token (l : list Z) :
  (exists k, l = replicate k SPACE) \/
  exists k w rest,
    w <> [] /\ Forall (fun c => c <> SPACE) w /\
    (l = replicate k SPACE ++ w /\ rest = [] \/
     l = replicate k SPACE ++ w ++ SPACE :: rest).
Proof.
  induction l as [|c l IH].
  - left. exists O. reflexivity.
  - destruct (Z.eq_dec c SPACE) as [->|Hc].
    + destruct IH as [[k ->]|(k & w & rest & Hne & Hw & Hl)].
      * left. exists (S k). reflexivity.
      * right. exists (S k), w, rest. split; [exact Hne|]. split; [exact Hw|].
        destruct Hl as [[-> ->] | ->]; [left | right]; auto.
    + right. destruct IH as [[k ->]|(k & w & rest & Hne & Hw & Hl)].
      * destruct k as [|k].
        -- exists O, [c], []. split; [discriminate|]. split; [repeat constructor; exact Hc|].
           left. auto.
        -- exists O, [c], (replicate k SPACE). split; [discriminate|].
           split; [repeat constructor; exact Hc|]. right. reflexivity.
      * destruct k as [|k].
        -- exists O, (c :: w), rest. split; [discriminate|].
           split; [constructor; assumption|].
           destruct Hl as [[-> ->] | ->]; [left | right]; auto.
        -- destruct Hl as [[-> ->] | ->].
           ++ exists O, [c], (replicate k SPACE ++ w). split; [discriminate|].
              split; [repeat constructor; exact Hc|]. right. reflexivity.
           ++ exists O, [c], (replicate k SPACE ++ w ++ SPACE :: rest).
              split; [discriminate|].
              split; [repeat constructor; exact Hc|]. right. reflexivity.
Qed.

(** *** [strtok_r] on a string in the page *)

Lemma strtok_skip_spaces (k : nat) (x : list Z) (s : nat) :
  strtok_skip (replicate k SPACE ++ x) s = strtok_skip x (s + k).
Proof.
  revert s. induction k as [|k IH]; intros s; cbn [replicate app].
  - rewrite Nat.add_0_r. reflexivity.
  - cbn [strtok_skip]. change (SPACE =? 0) with false. rewrite Z.eqb_refl.
    rewrite IH. f_equal. lia.
Qed.

Lemma strtok_span_word (w : list Z) (c : Z) (r : list Z) (s : nat) :
  Forall (fun x => x <> 0) w -> Forall (fun x => x <> SPACE) w ->
  c = 0 \/ c = SPACE ->
  strtok_span (w ++ c :: r) s = Ret ((s + length w)%nat, c).
Proof.
  intros Hz Hs Hc. revert s. induction w as [|x w IH]; intros s; cbn [app strtok_span length].
  - rewrite Nat.add_0_r. destruct Hc as [->| ->]; reflexivity.
  - apply Forall_cons in Hz, Hs. destruct Hz as [Hx0 Hz], Hs as [Hx32 Hs].
    destruct (Z.eqb_spec x 0); [contradiction|].
    destruct (Z.eqb_spec x SPACE); [contradiction|]. cbn [orb].
    rewrite (IH Hz Hs). f_equal. f_equal. lia.
Qed.

Lemma drop_prefix (m : list Z) (s : nat) (p x : list Z) :
  drop s m = p ++ x -> drop (s + length p) m = x.
Proof. intros H. rewrite <- drop_drop, H. apply drop_app_length. Qed.

Lemma bytes_at_of_drop (m : list Z) (a : nat) (l r : list Z) :
  drop a m = l ++ r -> bytes_at m a l.
Proof.
  intros H i x Hi. rewrite <- lookup_drop, H. apply lookup_app_l_Some. exact Hi.
Qed.

Lemma bytes_at_same_outside (m m' : list Z) (a : nat) (l : list Z) (lo hi : Z) :
  same_outside m m' lo hi ->
  (forall p : nat, (a <= p < a + length l)%nat -> Z.of_nat p < lo \/ hi <= Z.of_nat p) ->
  bytes_at m a l -> bytes_at m' a l.
Proof.
  intros [_ Hsame] Hout Hb i x Hi.
  rewrite Hsame; [apply Hb; exact Hi|].
  apply Hout. apply lookup_lt_Some in Hi. lia.
Qed.

Lemma cstring_of_bytes_at (w : list Z) :
  forall (m : list Z) (a : nat),
  Forall (fun x => x <> 0) w -> bytes_at m a (w ++ [0]) -> cstring (drop a m) = w.
Proof.
  induction w as [|x w IH]; intros m a Hz Hb.
  - pose proof (Hb O 0 eq_refl) as H0. rewrite Nat.add_0_r in H0.
    rewrite (drop_S _ _ _ H0). reflexivity.
  - apply Forall_cons in Hz. destruct Hz as [Hx Hz].
    pose proof (Hb O x eq_refl) as H0. rewrite Nat.add_0_r in H0.
    rewrite (drop_S _ _ _ H0). cbn [cstring].
    destruct (Z.eqb_spec x 0); [contradiction|]. f_equal.
    apply IH; [exact Hz|]. intros i y Hi.
    replace (S a + i)%nat with (a + S i)%nat by lia. apply Hb. exact Hi.
Qed.

(** One call of [strtok_r] on a string that still has a token: the token's
    offset, the page after the call and the saved position. *)
Lemma strtok_r_token (m : list Z) (s k : nat) (w rest r l : list Z) :
  drop s m = l ++ 0 :: r -> Forall (fun c => c <> 0) l ->
  w <> [] -> Forall (fun c => c <> SPACE) w ->
  (l = replicate k SPACE ++ w /\ rest = [] \/ l = replicate k SPACE ++ w ++ SPACE :: rest) ->
  exists m1 save,
    strtok_r m s = Ret (Some ((s + k)%nat, m1, save)) /\
    same_outside m m1 (Z.of_nat s) (Z.of_nat (s + length l)) /\
    bytes_at m1 (s + k) (w ++ [0]) /\
    drop save m1 = rest ++ 0 :: r /\
    (s <= save)%nat /\ (save + length rest <= s + length l)%nat /\
    (length rest < length l)%nat /\
    Forall (fun c => c <> 0) w /\ Forall (fun c => c <> 0) rest /\
    (forall p : nat, (p <= s + k + length w)%nat ->
       (p < save)%nat \/ (save + length rest <= p)%nat).
Proof.
  intros Hdrop Hz Hne Hw Hl.
  assert (Hzw : Forall (fun c => c <> 0) w).
  { destruct Hl as [[-> _] | ->]; apply Forall_app in Hz; destruct Hz as [_ Hz];
      [exact Hz | apply Forall_app in Hz; tauto]. }
  assert (Hskip : strtok_skip (drop s m) s = Ret (Some (s + k)%nat)).
  { rewrite Hdrop. destruct w as [|x w']; [contradiction|].
    apply Forall_cons in Hw, Hzw. destruct Hw as [Hx _], Hzw as [Hx0 _].
    destruct Hl as [[-> _] | ->]; rewrite <- app_assoc, strtok_skip_spaces;
      cbn [app strtok_skip];
      destruct (Z.eqb_spec x 0); try contradiction;
      destruct (Z.eqb_spec x SPACE); try contradiction; reflexivity. }
  unfold strtok_r. rewrite Hskip. cbn [mbind outcome_bind].
  destruct Hl as [[-> ->] | ->].
  - (* the word runs to the terminator *)
    assert (Htok : drop (s + k) m = w ++ 0 :: r).
    { rewrite <- app_assoc in Hdrop. apply drop_prefix in Hdrop.
      rewrite length_replicate in Hdrop. exact Hdrop. }
    rewrite Htok, strtok_span_word by (auto using Forall_nil).
    cbn [mbind outcome_bind]. change (0 =? 0) with true. cbn iota.
    exists m, (s + k + length w)%nat. split; [reflexivity|].
    split; [apply same_outside_refl|].
    split; [apply (bytes_at_of_drop m (s + k) (w ++ [0]) r);
            rewrite <- app_assoc; exact Htok|].
    split; [apply drop_prefix in Htok; exact Htok|].
    rewrite length_app, length_replicate. cbn [length].
    repeat split; try lia; try assumption; try constructor.
    destruct w; [contradiction | cbn [length]; lia].
  - (* the word is followed by a space *)
    assert (Htok : drop (s + k) m = w ++ SPACE :: rest ++ 0 :: r).
    { rewrite <- !app_assoc in Hdrop. apply drop_prefix in Hdrop.
      rewrite length_replicate in Hdrop. exact Hdrop. }
    rewrite Htok, strtok_span_word by (auto using Forall_nil).
    cbn [mbind outcome_bind]. change (SPACE =? 0) with false. cbn iota.
    set (e := (s + k + length w)%nat).
    assert (He : drop e m = SPACE :: rest ++ 0 :: r).
    { apply drop_prefix in Htok. exact Htok. }
    assert (Helt : (e < length m)%nat).
    { apply lookup_lt_is_Some. rewrite <- (Nat.add_0_r e), <- lookup_drop, He. eauto. }
    exists (<[e := 0]> m), (S e). split; [reflexivity|].
    rewrite !length_app, length_replicate. cbn [length].
    split.
    { split; [apply length_insert|]. intros i Hi.
      apply list_lookup_insert_ne. unfold e. lia. }
    split.
    { intros i x Hi. destruct (decide (i = length w)) as [->|Hne'].
      - rewrite lookup_app_r in Hi by lia. rewrite Nat.sub_diag in Hi.
        inversion Hi; subst. apply list_lookup_insert_eq. exact Helt.
      - assert (Hi' : (i < length w)%nat).
        { apply lookup_lt_Some in Hi. rewrite length_app in Hi. cbn in Hi. lia. }
        rewrite list_lookup_insert_ne by (unfold e; lia).
        rewrite lookup_app_l in Hi by exact Hi'.
        apply (bytes_at_of_drop m (s + k) w _ Htok). exact Hi. }
    split.
    { rewrite drop_insert_lt by lia.
      replace (S e) with (e + length [SPACE])%nat by (cbn; lia).
      apply drop_prefix. exact He. }
    apply Forall_app in Hz. destruct Hz as [_ Hz].
    apply Forall_app in Hz. destruct Hz as [_ Hz].
    apply Forall_cons in Hz. destruct Hz as [_ Hz].
    unfold e. repeat split; try lia; try assumption.
Qed.

Lemma strtok_r_no_token (m : list Z) (s k : nat) (r : list Z) :
  drop s m = replicate k SPACE ++ 0 :: r -> strtok_r m s = Ret None.
Proof.
  intros Hdrop. unfold strtok_r. rewrite Hdrop, strtok_skip_spaces. reflexivity.
Qed.

(** The tokenising loop: with the string [l] at the saved position, it
    appends the user address of one string per token of [l], each holding
    that token, and changes the page only inside the string. *)
Lemma parse_arguments_spec (upage : Z) (n : nat) :
  forall (l : list Z), (length l <= n)%nat ->
  forall (fuel : nat) (m : list Z) (s : nat) (r : list Z) (args : list Z),
  drop s m = l ++ 0 :: r -> Forall (fun c => c <> 0) l ->
  (length l < fuel)%nat ->
  (length args + length (tokens l) < MAX_ARGS)%nat ->
  exists m' starts,
    parse_arguments fuel m s upage args
      = Ret (m', args ++ ((fun t => upage + Z.of_nat t) <$> starts)) /\
    same_outside m m' (Z.of_nat s) (Z.of_nat (s + length l)) /\
    Forall2 (fun t w => (s <= t)%nat /\ Forall (fun c => c <> 0) w /\
                        bytes_at m' t (w ++ [0]))
      starts (tokens l).
Proof.
  induction n as [|n IH]; intros l Hn fuel m s r args Hdrop Hz Hfuel Hargs.
  - destruct l; [|cbn in Hn; lia].
    destruct fuel as [|fuel]; [lia|]. cbn [parse_arguments].
    rewrite (strtok_r_no_token m s O r Hdrop). cbn [mbind outcome_bind].
    exists m, []. rewrite app_nil_r. split; [reflexivity|].
    split; [apply same_outside_refl | constructor].
  - destruct fuel as [|fuel]; [lia|]. cbn [parse_arguments].
    destruct (split_first_token l) as [[k ->]|(k & w & rest & Hne & Hw & Hl)].
    + rewrite (strtok_r_no_token m s k r Hdrop). cbn [mbind outcome_bind].
      exists m, []. rewrite app_nil_r. split; [reflexivity|].
      split; [apply same_outside_refl|].
      rewrite <- (app_nil_r (replicate k SPACE)), tokens_spaces. constructor.
    + assert (Htok : tokens l = w :: tokens rest).
      { destruct Hl as [[-> ->] | ->]; rewrite tokens_spaces.
        - apply tokens_word; assumption.
        - apply tokens_word_space; assumption. }
      destruct (strtok_r_token m s k w rest r l Hdrop Hz Hne Hw Hl)
        as (m1 & save & Hcall & Hsame1 & Hbytes & Hdrop1 & Hs & Hend & Hlen & Hzw & Hzr & Hbelow).
      rewrite Hcall. cbn [mbind outcome_bind].
      rewrite Htok in Hargs. cbn [length] in Hargs.
      rewrite bool_decide_eq_true_2 by lia.
      destruct (IH rest ltac:(lia) fuel m1 save r (args ++ [upage + Z.of_nat (s + k)])
                  Hdrop1 Hzr ltac:(lia))
        as (m' & starts & Hrun & Hsame2 & Hall).
      { rewrite length_app. cbn [length]. lia. }
      exists m', ((s + k)%nat :: starts). split.
      { rewrite Hrun. rewrite <- app_assoc. reflexivity. }
      split.
      { eapply same_outside_trans; [exact Hsame1 | exact Hsame2 | lia..]. }
      rewrite Htok. constructor.
      * split; [lia|]. split; [exact Hzw|].
        apply (bytes_at_same_outside m1 m' (s + k) (w ++ [0]) _ _ Hsame2); [|exact Hbytes].
        intros p Hp. rewrite length_app in Hp. cbn [length] in Hp.
        destruct (Hbelow p ltac:(lia)); lia.
      * eapply Forall2_impl; [exact Hall|]. cbn. intros t w' (Ht & Hzw' & Hb).
        split; [lia|]. split; assumption.
Qed.

(** *** The pointer array *)

Lemma load32_same_outside (m m' : list Z) (lo hi a : Z) :
  same_outside m m' lo hi -> 0 <= a -> a + 4 <= lo \/ hi <= a ->
  load32 m' a = load32 m a.
Proof.
  intros [_ Hsame] Ha Hout. apply load32_ext; [exact Ha|].
  intros i Hi. apply Hsame. lia.
Qed.

Lemma words_at_app (m : list Z) (a : Z) (ws1 ws2 : list Z) :
  words_at m a ws1 -> words_at m (a + 4 * Z.of_nat (length ws1)) ws2 ->
  words_at m a (ws1 ++ ws2).
Proof.
  intros H1 H2 j w Hj. destruct (decide (j < length ws1)%nat) as [Hlt|Hge].
  - rewrite lookup_app_l in Hj by exact Hlt. apply H1. exact Hj.
  - rewrite lookup_app_r in Hj by lia. apply H2 in Hj. rewrite <- Hj. f_equal. lia.
Qed.

Lemma words_at_same_outside (m m' : list Z) (lo hi a : Z) (ws : list Z) :
  same_outside m m' lo hi -> 0 <= a ->
  a + 4 * Z.of_nat (length ws) <= lo \/ hi <= a ->
  words_at m a ws -> words_at m' a ws.
Proof.
  intros Hsame Ha Hout Hw j w Hj.
  rewrite (load32_same_outside m m' lo hi) by
    (try exact Hsame; apply lookup_lt_Some in Hj; lia).
  apply Hw. exact Hj.
Qed.

(** Pushing the arguments leaves them in the page in reverse order, below
    the old offset. *)
Lemma push_arguments_spec (args : list Z) :
  forall (m : list Z) (ofs : Z),
  4 * Z.of_nat (length args) <= ofs <= PGSIZE -> Z.of_nat (length m) = PGSIZE ->
  Forall (fun a => 0 <= a < UINT32_MOD) args ->
  exists m',
    push_arguments m ofs args = Ret (Some (m', ofs - 4 * Z.of_nat (length args))) /\
    same_outside m m' (ofs - 4 * Z.of_nat (length args)) ofs /\
    words_at m' (ofs - 4 * Z.of_nat (length args)) (rev args).
Proof.
  induction args as [|a args IH]; intros m ofs Hofs Hlen Hu32.
  - exists m. cbn [push_arguments length]. replace (ofs - 4 * Z.of_nat 0) with ofs by lia.
    split; [reflexivity|]. split; [apply same_outside_refl|].
    intros j w Hj. destruct j; discriminate Hj.
  - apply Forall_cons in Hu32. destruct Hu32 as [Ha Hu32].
    cbn [length] in *. cbn [push_arguments].
    rewrite push_word by lia. cbn [mbind outcome_bind].
    pose proof (store32_same_outside m (ofs - 4) a ltac:(lia)) as Hst.
    destruct (IH (store32 m (ofs - 4) a) (ofs - 4) ltac:(lia)
                ltac:(destruct Hst as [-> _]; exact Hlen) Hu32)
      as (m' & Hrun & Hsame & Hwords).
    replace (ofs - 4 - 4 * Z.of_nat (length args))
      with (ofs - 4 * Z.of_nat (S (length args))) in * by lia.
    exists m'. split; [exact Hrun|]. split.
    { eapply same_outside_trans; [exact Hst | exact Hsame | lia..]. }
    cbn [rev]. apply words_at_app; [exact Hwords|].
    rewrite length_rev.
    replace (ofs - 4 * Z.of_nat (S (length args)) + 4 * Z.of_nat (length args))
      with (ofs - 4) by lia.
    intros j w Hj. destruct j as [|j]; [|destruct j; discriminate Hj].
    inversion Hj; subst. replace (ofs - 4 + 4 * Z.of_nat 0) with (ofs - 4) by lia.
    rewrite (load32_same_outside _ m' _ _ (ofs - 4) Hsame) by lia.
    apply load32_store32; lia.
Qed.

(** [reverse] reverses the words of the array and nothing else. *)
Lemma reverse_spec (n : nat) :
  forall (ws : list Z) (a : Z) (m : list Z),
  length ws = n -> 0 <= a -> a + 4 * Z.of_nat n <= Z.of_nat (length m) ->
  Forall (fun w => 0 <= w < UINT32_MOD) ws ->
  words_at m a ws ->
  words_at (reverse n a m) a (rev ws) /\
  same_outside m (reverse n a m) a (a + 4 * Z.of_nat n).
Proof.
  induction n as [n IH] using lt_wf_ind. intros ws a m Hlen Ha Hfit Hu32 Hw.
  destruct n as [|[|n]].
  - destruct ws; [|discriminate]. split; [exact Hw | apply same_outside_refl].
  - destruct ws as [|x [|? ?]]; try discriminate.
    split; [exact Hw | apply same_outside_refl].
  - destruct ws as [|x ws]; [discriminate|].
    destruct ws as [|y mid _] using rev_ind; [discriminate|].
    cbn [length] in Hlen. rewrite length_app in Hlen. cbn [length] in Hlen.
    assert (Hmid : length mid = n) by lia.
    apply Forall_cons in Hu32. destruct Hu32 as [Hx Hu32].
    apply Forall_app in Hu32. destruct Hu32 as [Hu32 Hy].
    apply Forall_cons in Hy. destruct Hy as [Hy _].
    cbn [reverse].
    set (last := a + 4 * (Z.of_nat (S (S n)) - 1)).
    assert (Hlast : last = a + 4 * Z.of_nat (S n)) by (unfold last; lia).
    assert (Hx0 : load32 m a = x).
    { replace a with (a + 4 * Z.of_nat 0) at 1 by lia. apply Hw. reflexivity. }
    assert (Hy0 : load32 m last = y).
    { rewrite Hlast. apply Hw. cbn [lookup list_lookup].
      rewrite <- Hmid. apply list_lookup_middle. reflexivity. }
    rewrite Hx0, Hy0.
    set (m1 := store32 m a y). set (m2 := store32 m1 last x).
    pose proof (store32_same_outside m a y Ha) as H1. fold m1 in H1.
    pose proof (store32_same_outside m1 last x ltac:(lia)) as H2. fold m2 in H2.
    assert (Hl1 : length m1 = length m) by (destruct H1; assumption).
    assert (Hl2 : length m2 = length m) by (destruct H2; congruence).
    assert (Hw2 : words_at m2 (a + 4) mid).
    { intros j w Hj. pose proof (lookup_lt_Some _ _ _ Hj) as Hjlt.
      rewrite (load32_same_outside m1 m2 _ _ _ H2) by lia.
      rewrite (load32_same_outside m m1 _ _ _ H1) by lia.
      replace (a + 4 + 4 * Z.of_nat j) with (a + 4 * Z.of_nat (S j)) by lia.
      apply Hw. cbn [lookup list_lookup]. apply lookup_app_l_Some. exact Hj. }
    destruct (IH n ltac:(lia) mid (a + 4) m2 Hmid ltac:(lia) ltac:(lia) Hu32 Hw2)
      as [Hwr Hsr].
    split.
    + cbn [rev]. rewrite rev_app_distr. cbn [rev app].
      change (y :: rev mid ++ [x]) with ([y] ++ (rev mid ++ [x])).
      apply words_at_app; [|apply words_at_app].
      * intros j w Hj. destruct j as [|j]; [|destruct j; discriminate Hj].
        inversion Hj; subst. replace (a + 4 * Z.of_nat 0) with a by lia.
        rewrite (load32_same_outside m2 _ _ _ a Hsr) by lia.
        rewrite (load32_same_outside m1 m2 _ _ a H2) by lia.
        apply load32_store32; lia.
      * cbn [length]. replace (a + 4 * Z.of_nat 1) with (a + 4) by lia. exact Hwr.
      * cbn [length]. rewrite length_rev, Hmid.
        replace (a + 4 * Z.of_nat 1 + 4 * Z.of_nat n) with last by lia.
        intros j w Hj. destruct j as [|j]; [|destruct j; discriminate Hj].
        inversion Hj; subst. replace (last + 4 * Z.of_nat 0) with last by lia.
        rewrite (load32_same_outside m2 _ _ _ last Hsr) by lia.
        apply load32_store32; lia.
    + assert (H12 : same_outside m m2 a (a + 4 * Z.of_nat (S (S n)))).
      { eapply same_outside_trans; [exact H1 | exact H2 | lia..]. }
      eapply same_outside_trans; [exact H12 | exact Hsr | lia..].
Qed.

(** *** The frame as a whole *)

Lemma memcpy_drop_end (m : list Z) (dst : Z) (buf : list Z) :
  0 <= dst -> dst + Z.of_nat (length buf) = Z.of_nat (length m) ->
  drop (Z.to_nat dst) (memcpy m dst buf) = buf.
Proof.
  intros Hdst Hend. apply list_eq. intros i. rewrite lookup_drop.
  destruct (decide (i < length buf)%nat) as [Hi|Hi].
  - apply memcpy_lookup; [exact Hdst | lia | exact Hi].
  - rewrite (lookup_ge_None_2 buf) by lia. apply lookup_ge_None_2.
    unfold memcpy. rewrite length_inserts. lia.
Qed.

Lemma bytes_at_lt (m : list Z) (a : nat) (l : list Z) :
  l <> [] -> bytes_at m a l -> (a < length m)%nat.
Proof.
  intros Hne Hb. destruct l as [|x l]; [contradiction|].
  pose proof (Hb O x eq_refl) as H. rewrite Nat.add_0_r in H.
  eapply lookup_lt_Some. exact H.
Qed.

(** The page [init_cmd_line] leaves behind, in terms of the page offset
    [argv_ofs] of the pointer array and the offsets [starts] of the
    strings. *)
Lemma init_cmd_line_layout (kpage : list Z) (upage : Z) (cmd_line : list Z) :
  Z.of_nat (length kpage) = PGSIZE -> 0 <= upage -> upage + PGSIZE <= UINT32_MOD ->
  Forall (fun c => c <> 0) cmd_line -> fits_in_page cmd_line ->
  exists (m : list Z) (argv_ofs : Z) (starts : list nat),
    init_cmd_line kpage upage cmd_line = Ret (Some (m, upage + (argv_ofs - 12))) /\
    12 <= argv_ofs /\
    argv_ofs + 4 * Z.of_nat (length starts) + 4 <= PGSIZE /\
    load32 m (argv_ofs - 8) = Z.of_nat (length starts) /\
    load32 m (argv_ofs - 4) = upage + argv_ofs /\
    words_at m argv_ofs ((fun t => upage + Z.of_nat t) <$> starts) /\
    load32 m (argv_ofs + 4 * Z.of_nat (length starts)) = 0 /\
    Forall2 (fun t w => Forall (fun c => c <> 0) w /\ bytes_at m t (w ++ [0]))
      starts (tokens cmd_line).
Proof.
  intros Hklen Hup0 Hup1 Hz Hfits.
  pose proof PGSIZE_val as HPG. pose proof UINT32_MOD_val as HU.
  unfold fits_in_page, frame_bytes in Hfits.
  set (n := Z.of_nat (length cmd_line)) in *.
  set (argc := Z.of_nat (length (tokens cmd_line))) in *.
  set (S0 := ROUND_UP (n + 1) 4) in *.
  set (pad := 16 - (S0 + (argc + 1) * 4 + 4 + 4) mod 16) in *.
  assert (Hn : 0 <= n) by (unfold n; lia).
  assert (Hargc : 0 <= argc) by (unfold argc; lia).
  destruct (ROUND_UP_bounds (n + 1) ltac:(lia)) as [HS0 _]. fold S0 in HS0.
  assert (Hpad : 1 <= pad <= 16).
  { unfold pad. pose proof (Z.mod_pos_bound (S0 + (argc + 1) * 4 + 4 + 4) 16 ltac:(lia)). lia. }
  (* the string *)
  unfold init_cmd_line.
  assert (Hbuf : Z.of_nat (length (cmd_line ++ [0])) = n + 1).
  { rewrite length_app. cbn [length]. unfold n. lia. }
  assert (Hpush0 : push kpage PGSIZE (cmd_line ++ [0])
                   = Ret (Some (memcpy kpage (PGSIZE - (n + 1)) (cmd_line ++ [0]),
                                PGSIZE - S0, PGSIZE - (n + 1)))).
  { unfold push. rewrite Hbuf. fold S0.
    destruct (Z.ltb_spec PGSIZE S0); [lia|].
    replace (PGSIZE - S0 + (S0 - (n + 1))) with (PGSIZE - (n + 1)) by lia.
    destruct (Z.leb_spec (PGSIZE - (n + 1) + (n + 1)) PGSIZE); [reflexivity | lia]. }
  rewrite Hpush0. cbn [mbind outcome_bind].
  set (m0 := memcpy kpage (PGSIZE - (n + 1)) (cmd_line ++ [0])).
  assert (Hm0len : Z.of_nat (length m0) = PGSIZE).
  { unfold m0, memcpy. rewrite length_inserts. exact Hklen. }
  assert (Hdrop0 : drop (Z.to_nat (PGSIZE - (n + 1))) m0 = cmd_line ++ [0]).
  { apply memcpy_drop_end; lia. }
  (* the tokens *)
  destruct (parse_arguments_spec upage (length cmd_line) cmd_line (Nat.le_refl _)
              (S (length m0)) m0 (Z.to_nat (PGSIZE - (n + 1))) [] [] Hdrop0 Hz)
    as (m1 & starts & Hparse & Hsame1 & Htoks).
  { unfold n in *. lia. }
  { cbn [length]. unfold MAX_ARGS. unfold argc in *. lia. }
  rewrite Hparse. cbn [mbind outcome_bind app].
  assert (Hm1len : Z.of_nat (length m1) = PGSIZE).
  { destruct Hsame1 as [-> _]. exact Hm0len. }
  assert (Hstarts : Z.of_nat (length starts) = argc).
  { unfold argc. rewrite (Forall2_length _ _ _ Htoks). reflexivity. }
  rewrite length_fmap, Hstarts.
  assert (Hu32 : Forall (fun a => 0 <= a < UINT32_MOD)
                   ((fun t => upage + Z.of_nat t) <$> starts)).
  { apply Forall_fmap. eapply Forall2_Forall_l; [exact Htoks|].
    apply Forall_forall. intros w _ t (_ & _ & Hb). cbn.
    apply bytes_at_lt in Hb; [lia|]. destruct w; discriminate. }
  (* the padding *)
  assert (Hadj : wrap32 (PGSIZE - (PGSIZE - S0) + (argc + 1) * 4 + 4 + 4) mod 16
                 = 16 - pad).
  { unfold wrap32, pad. rewrite (Z.mod_small _ UINT32_MOD) by lia.
    replace (PGSIZE - (PGSIZE - S0) + (argc + 1) * 4 + 4 + 4)
      with (S0 + (argc + 1) * 4 + 4 + 4) by lia.
    lia. }
  rewrite Hadj.
  assert (Hofs1 : sub32 (PGSIZE - S0) (16 - (16 - pad)) = PGSIZE - S0 - pad).
  { unfold sub32, wrap32. rewrite (Z.mod_small _ UINT32_MOD) by lia. lia. }
  rewrite Hofs1.
  set (ofs1 := PGSIZE - S0 - pad).
  (* the sentinel and the pointers *)
  rewrite push_word by (unfold ofs1; lia). cbn [mbind outcome_bind].
  set (m2 := store32 m1 (ofs1 - 4) 0).
  pose proof (store32_same_outside m1 (ofs1 - 4) 0 ltac:(unfold ofs1; lia)) as Hsame2.
  fold m2 in Hsame2.
  assert (Hm2len : Z.of_nat (length m2) = PGSIZE).
  { destruct Hsame2 as [-> _]. exact Hm1len. }
  destruct (push_arguments_spec ((fun t => upage + Z.of_nat t) <$> starts) m2 (ofs1 - 4))
    as (m3 & Hpusha & Hsame3 & Hwords3); try assumption.
  { rewrite length_fmap, Hstarts. unfold ofs1. lia. }
  rewrite length_fmap, Hstarts in Hpusha, Hsame3, Hwords3.
  rewrite Hpusha. cbn [mbind outcome_bind].
  set (ofs3 := ofs1 - 4 - 4 * argc) in *.
  assert (Hofs3 : 12 <= ofs3) by (unfold ofs3, ofs1; lia).
  assert (Hm3len : Z.of_nat (length m3) = PGSIZE).
  { destruct Hsame3 as [-> _]. exact Hm2len. }
  destruct (reverse_spec (length ((fun t => upage + Z.of_nat t) <$> starts))
              (rev ((fun t => upage + Z.of_nat t) <$> starts)) ofs3 m3)
    as [Hwords4 Hsame4].
  { apply length_rev. }
  { lia. }
  { rewrite length_fmap, Hstarts. unfold ofs3, ofs1. lia. }
  { apply Forall_rev. exact Hu32. }
  { exact Hwords3. }
  rewrite rev_involutive in Hwords4.
  rewrite length_fmap in Hwords4, Hsame4. rewrite Hstarts in Hsame4.
  set (m4 := reverse (length starts) ofs3 m3) in *.
  assert (Hm4len : Z.of_nat (length m4) = PGSIZE).
  { destruct Hsame4 as [-> _]. exact Hm3len. }
  (* argv, argc and the return address *)
  rewrite push_word by lia. cbn [mbind outcome_bind].
  set (m5 := store32 m4 (ofs3 - 4) (upage + ofs3)).
  pose proof (store32_same_outside m4 (ofs3 - 4) (upage + ofs3) ltac:(lia)) as Hsame5.
  fold m5 in Hsame5.
  assert (Hm5len : Z.of_nat (length m5) = PGSIZE).
  { destruct Hsame5 as [-> _]. exact Hm4len. }
  rewrite push_word by lia. cbn [mbind outcome_bind].
  set (m6 := store32 m5 (ofs3 - 4 - 4) argc).
  pose proof (store32_same_outside m5 (ofs3 - 4 - 4) argc ltac:(lia)) as Hsame6.
  fold m6 in Hsame6.
  assert (Hm6len : Z.of_nat (length m6) = PGSIZE).
  { destruct Hsame6 as [-> _]. exact Hm5len. }
  rewrite push_word by lia. cbn [mbind outcome_bind].
  set (m7 := store32 m6 (ofs3 - 4 - 4 - 4) 0).
  pose proof (store32_same_outside m6 (ofs3 - 4 - 4 - 4) 0 ltac:(lia)) as Hsame7.
  fold m7 in Hsame7.
  exists m7, ofs3, starts.
  split; [do 3 f_equal; lia|].
  split; [exact Hofs3|].
  split; [rewrite Hstarts; unfold ofs3, ofs1; lia|].
  split.
  { rewrite Hstarts.
    rewrite (load32_same_outside m6 m7 _ _ (ofs3 - 8) Hsame7) by lia.
    replace (ofs3 - 8) with (ofs3 - 4 - 4) by lia.
    apply load32_store32; unfold argc in *; lia. }
  split.
  { rewrite (load32_same_outside m6 m7 _ _ (ofs3 - 4) Hsame7) by lia.
    rewrite (load32_same_outside m5 m6 _ _ (ofs3 - 4) Hsame6) by lia.
    apply load32_store32; lia. }
  split.
  { apply (words_at_same_outside m6 m7 _ _ ofs3 _ Hsame7); [lia | lia |].
    apply (words_at_same_outside m5 m6 _ _ ofs3 _ Hsame6); [lia | lia |].
    apply (words_at_same_outside m4 m5 _ _ ofs3 _ Hsame5); [lia | lia |].
    exact Hwords4. }
  split.
  { rewrite Hstarts. replace (ofs3 + 4 * argc) with (ofs1 - 4) by (unfold ofs3; lia).
    rewrite (load32_same_outside m6 m7 _ _ (ofs1 - 4) Hsame7) by (unfold ofs3 in *; lia).
    rewrite (load32_same_outside m5 m6 _ _ (ofs1 - 4) Hsame6) by (unfold ofs3 in *; lia).
    rewrite (load32_same_outside m4 m5 _ _ (ofs1 - 4) Hsame5) by (unfold ofs3 in *; lia).
    rewrite (load32_same_outside m3 m4 _ _ (ofs1 - 4) Hsame4) by (unfold ofs3 in *; lia).
    rewrite (load32_same_outside m2 m3 _ _ (ofs1 - 4) Hsame3) by (unfold ofs3 in *; lia).
    apply load32_store32; unfold ofs1 in *; lia. }
  eapply Forall2_impl; [exact Htoks|]. cbn. intros t w (Ht & Hzw & Hb).
  split; [exact Hzw|].
  assert (Hlow : PGSIZE - (n + 1) <= Z.of_nat t) by lia.
  assert (Hout : forall (ma mb : list Z) (lo hi : Z),
             same_outside ma mb lo hi -> hi <= PGSIZE - S0 ->
             bytes_at ma t (w ++ [0]) -> bytes_at mb t (w ++ [0])).
  { intros ma mb lo hi Hs Hhi. apply (bytes_at_same_outside ma mb t _ lo hi Hs).
    intros p Hp. right. lia. }
  apply (Hout m6 m7 _ _ Hsame7); [lia|].
  apply (Hout m5 m6 _ _ Hsame6); [lia|].
  apply (Hout m4 m5 _ _ Hsame5); [lia|].
  apply (Hout m3 m4 _ _ Hsame4); [unfold ofs3, ofs1; lia|].
  apply (Hout m2 m3 _ _ Hsame3); [unfold ofs1; lia|].
  apply (Hout m1 m2 _ _ Hsame2); [unfold ofs1; lia|].
  exact Hb.
Qed.

(** C3.  For a command line (a string without terminator inside) whose
    frame fits in the page, [init_cmd_line] succeeds and leaves at
    [esp + 4] and [esp + 8] the count [argc] and the user address [argv] of
    an array such that, read through the user mapping of the page,
    [argv[i]] is the address of a string equal to the [i]-th space-separated
    token of the command line for every [i < argc], and [argv[argc]] is
    null. *)
Theorem init_cmd_line_argv (kpage : list Z) (upage : Z) (cmd_line : list Z) :
  Z.of_nat (length kpage) = PGSIZE -> 0 <= upage -> upage + PGSIZE <= UINT32_MOD ->
  Forall (fun c => c <> 0) cmd_line -> fits_in_page cmd_line ->
  exists m esp,
    init_cmd_line kpage upage cmd_line = Ret (Some (m, esp)) /\
    let argc := user_word m upage (esp + 4) in
    let argv := user_word m upage (esp + 8) in
    argc = Z.of_nat (length (tokens cmd_line)) /\
    (forall (i : nat) (tok : list Z),
       tokens cmd_line !! i = Some tok ->
       user_string m upage (user_word m upage (argv + 4 * Z.of_nat i)) = tok) /\
    user_word m upage (argv + 4 * argc) = 0.
Proof.
  intros Hklen Hup0 Hup1 Hz Hfits.
  destruct (init_cmd_line_layout kpage upage cmd_line Hklen Hup0 Hup1 Hz Hfits)
    as (m & argv_ofs & starts & Hrun & Hlo & Hhi & Hargc & Hargv & Hwords & Hnull & Htoks).
  exists m, (upage + (argv_ofs - 12)). split; [exact Hrun|].
  unfold user_word, user_string.
  replace (upage + (argv_ofs - 12) + 4 - upage) with (argv_ofs - 8) by lia.
  replace (upage + (argv_ofs - 12) + 8 - upage) with (argv_ofs - 4) by lia.
  cbn zeta. rewrite Hargc, Hargv.
  pose proof (Forall2_length _ _ _ Htoks) as Hlen.
  split; [rewrite Hlen; reflexivity|]. split.
  - intros i tok Hi.
    destruct (Forall2_lookup_r _ _ _ _ _ Htoks Hi) as (t & Ht & Hzw & Hb).
    replace (upage + argv_ofs + 4 * Z.of_nat i - upage)
      with (argv_ofs + 4 * Z.of_nat i) by lia.
    rewrite (Hwords i (upage + Z.of_nat t)) by (rewrite list_lookup_fmap, Ht; reflexivity).
    replace (Z.to_nat (upage + Z.of_nat t - upage)) with t by lia.
    apply cstring_of_bytes_at; assumption.
  - replace (upage + argv_ofs + 4 * Z.of_nat (length starts) - upage)
      with (argv_ofs + 4 * Z.of_nat (length starts)) by lia.
    exact Hnull.
Qed.

Lemma init_cmd_line_argv_witness :
  let cmd := bytes_of_string "echo hello world" in
  Z.of_nat (length zero_page) = PGSIZE /\ 0 <= stack_upage /\
  stack_upage + PGSIZE <= UINT32_MOD /\
  Forall (fun c => c <> 0) cmd /\ fits_in_page cmd /\
  tokens cmd = [bytes_of_string "echo"; bytes_of_string "hello"; bytes_of_string "world"] /\
  exists m esp,
    init_cmd_line zero_page stack_upage cmd = Ret (Some (m, esp)) /\
    user_word m stack_upage (esp + 4) = 3 /\
    user_string m stack_upage
      (user_word m stack_upage (user_word m stack_upage (esp + 8) + 4 * 1))
    = bytes_of_string "hello" /\
    user_word m stack_upage (user_word m stack_upage (esp + 8) + 4 * 3) = 0.
Proof.
  intros cmd.
  assert (H1 : Z.of_nat (length zero_page) = PGSIZE) by reflexivity.
  assert (H2 : 0 <= stack_upage) by (vm_compute; discriminate).
  assert (H3 : stack_upage + PGSIZE <= UINT32_MOD) by (vm_compute; discriminate).
  assert (H4 : Forall (fun c => c <> 0) cmd).
  { apply (bool_decide_unpack (Forall (fun c => c <> 0) cmd)). vm_compute. exact I. }
  assert (H5 : fits_in_page cmd) by (vm_compute; discriminate).
  assert (H6 : tokens cmd
               = [bytes_of_string "echo"; bytes_of_string "hello"; bytes_of_string "world"])
    by (vm_compute; reflexivity).
  repeat (split; [assumption|]).
  destruct (init_cmd_line_argv zero_page stack_upage cmd H1 H2 H3 H4 H5)
    as (m & esp & Hrun & Hargc & Hargs & Hnull).
  exists m, esp. split; [exact Hrun|].
  rewrite H6 in Hargc. split; [exact Hargc|]. split.
  - apply (Hargs 1%nat). rewrite H6. reflexivity.
  - rewrite Hargc in Hnull. exact Hnull.
Defined.

End InitialStack.

Section Lifecycle.

(** [process_execute] puts the new child's wait-status at the back of the
    list; with a pid that no listed child has, the list stays well
    formed. *)
Lemma process_execute_link_children_ok (parent : process) (ws : gmap nat wait_status)
  (tid : Z) (cs : nat) (rec : wait_status) :
  children_ok parent ws = true -> tid <> TID_ERROR ->
  cs ∉ children parent -> ws !! cs = Some rec -> ws_pid rec = tid ->
  (forall b cb, b ∈ children parent -> ws !! b = Some cb -> ws_pid cb <> tid) ->
  (process_execute_link tid true cs parent).1 = tid /\
  cs ∈ children (process_execute_link tid true cs parent).2 /\
  children_ok (process_execute_link tid true cs parent).2 ws = true.
Proof.
  intros Hok Htid Hcs Hrec Hpid Hfresh.
  apply children_ok_unfold in Hok. destruct Hok as (Hnd & Hlive & Hpids).
  unfold process_execute_link. rewrite bool_decide_eq_true_2 by exact Htid. cbn.
  split; [reflexivity|]. split; [apply elem_of_app; right; left|].
  unfold children_ok. cbn.
  rewrite !andb_true_iff, !bool_decide_eq_true. split; [split|].
  - apply NoDup_app. split; [exact Hnd|]. split; [|apply NoDup_singleton].
    intros b Hb Hin. apply list_elem_of_singleton in Hin. subst b. contradiction.
  - apply Forall_app. split.
    + apply Forall_forall. exact Hlive.
    + constructor; [rewrite Hrec; eauto | constructor].
  - rewrite fmap_app. apply NoDup_app. split; [exact Hpids|]. split; [|apply NoDup_singleton].
    intros p Hp Hin. cbn in Hin. apply list_elem_of_singleton in Hin. subst p.
    apply list_elem_of_fmap in Hp. destruct Hp as (b & Hb & Hbin).
    destruct (Hlive b Hbin) as [cb Hcb]. rewrite Hrec, Hcb in Hb. cbn in Hb.
    apply (Hfresh b cb Hbin Hcb). congruence.
Qed.

(** Whatever the [malloc]ed block holds, the bitmap after bootstrap has
    slots 0 and 1 set and the others clear. *)
Lemma foldl_clear_lookup (idxs : list nat) :
  forall (o : list bool) (j : nat),
  foldl (fun o i => <[i := false]> o) o idxs !! j
  = if decide (j ∈ idxs /\ (j < length o)%nat) then Some false else o !! j.
Proof.
  induction idxs as [|i idxs IH]; intros o j; cbn [foldl].
  - destruct (decide _) as [[Hin _]|_]; [inversion Hin | reflexivity].
  - rewrite IH, length_insert.
    destruct (decide (j ∈ idxs /\ (j < length o)%nat)) as [[Hin Hlt]|Hno].
    + rewrite decide_True; [reflexivity|]. split; [right; exact Hin | exact Hlt].
    + destruct (decide (i = j)) as [->|Hne].
      * destruct (decide (j < length o)%nat) as [Hlt|Hge].
        -- rewrite list_lookup_insert_eq by exact Hlt.
           rewrite decide_True; [reflexivity|]. split; [left | exact Hlt].
        -- rewrite list_insert_ge by lia.
           rewrite decide_False; [reflexivity|]. intros [_ ?]. contradiction.
      * rewrite list_lookup_insert_ne by exact Hne.
        rewrite decide_False; [reflexivity|].
        intros [Hin Hlt]. apply Hno. split; [|exact Hlt].
        apply elem_of_cons in Hin. destruct Hin as [?|?]; [congruence | assumption].
Qed.

Lemma start_process_offsets_any (tid : Z) (new_pcb : process) (js : gmap nat join_status)
  (js_alloc : option nat) (entry_ok : bool) :
  length (offsets new_pcb) = NOFFSETS ->
  offsets (start_process_init_pcb tid new_pcb js js_alloc entry_ok).1.1.2
  = initial_offsets.
Proof.
  intros Hlen.
  assert (Hoffs : offsets (start_process_init_pcb tid new_pcb js js_alloc entry_ok).1.1.2
                  = foldl (fun o i => <[i := false]> o)
                      (<[1%nat := true]> (<[0%nat := true]> (offsets new_pcb)))
                      (seq 2 (NOFFSETS - 2))).
  { destruct js_alloc, entry_ok; reflexivity. }
  rewrite Hoffs. apply list_eq. intros j. rewrite foldl_clear_lookup.
  rewrite !length_insert, Hlen.
  destruct (decide (j ∈ seq 2 (NOFFSETS - 2) /\ (j < NOFFSETS)%nat)) as [[Hin Hlt]|Hno].
  - apply elem_of_seq in Hin. symmetry. apply initial_offsets_lookup. lia.
  - destruct j as [|[|j]].
    + rewrite list_lookup_insert_ne by lia.
      rewrite list_lookup_insert_eq by (rewrite Hlen; unfold NOFFSETS; lia). reflexivity.
    + rewrite list_lookup_insert_eq
        by (rewrite length_insert, Hlen; unfold NOFFSETS; lia). reflexivity.
    + assert (Hge : (NOFFSETS <= S (S j))%nat).
      { destruct (le_lt_dec NOFFSETS (S (S j))) as [|Hlt]; [assumption|].
        exfalso. apply Hno. split; [|exact Hlt]. apply elem_of_seq. unfold NOFFSETS in *. lia. }
      rewrite (lookup_ge_None_2 initial_offsets)
        by (rewrite initial_offsets_length; exact Hge).
      apply lookup_ge_None_2. rewrite !length_insert, Hlen. exact Hge.
Qed.

Lemma get_lowest_offset_spec (offs : list bool) :
  length offs = NOFFSETS ->
  match get_lowest_offset offs with
  | Ret (k, offs') =>
      (0 <= k < 0 + NOFFSETS)%nat /\ offs !! k = Some false /\
      (forall j, (0 <= j < k)%nat -> offs !! j = Some true) /\
      offs' = <[k := true]> offs
  | Panic => forall j, (0 <= j < 0 + NOFFSETS)%nat -> offs !! j = Some true
  | _ => False
  end.
Proof.
  intros Hlen. apply (get_lowest_offset_loop_spec NOFFSETS 0 offs). lia.
Qed.

Lemma upage_inj (i k : nat) :
  PHYS_BASE - Z.of_nat i * PGSIZE = PHYS_BASE - Z.of_nat k * PGSIZE -> i = k.
Proof. rewrite PGSIZE_val. lia. Qed.

(** The successful path of [setup_thread] keeps the bitmap invariant, with
    the new thread counted among the live ones. *)
Lemma setup_thread_success_bitmap_inv (args : thread_create_args) (pcb : process)
  (live : list thread) (kpage : Z) (pt_ok : bool) (esp0 : Z) (r : setup_result)
  (tid : Z) (t_js : option nat) :
  length (offsets pcb) = NOFFSETS -> bitmap_inv pcb live ->
  setup_thread args pcb (Some kpage) pt_ok esp0 = Ret r -> sr_success r = true ->
  bitmap_inv (sr_pcb r)
    (mkThread tid (a_kpage (sr_args r)) (a_upage (sr_args r)) (a_offset (sr_args r)) t_js
       :: live).
Proof.
  intros Hlen (H0 & H1 & Hinv). unfold setup_thread.
  pose proof (get_lowest_offset_spec (offsets pcb) Hlen) as Hspec.
  destruct (get_lowest_offset (offsets pcb)) as [[k o']| | |]; try discriminate.
  destruct Hspec as (Hk & Hfree & _ & ->).
  assert (Hk2 : (2 <= k)%nat).
  { destruct k as [|[|k]]; [congruence | congruence | lia]. }
  cbn [mbind outcome_bind pagedir set_offsets].
  destruct (pagedir pcb) as [pd|] eqn:Hpd; [|discriminate].
  unfold install_page.
  destruct (pd !! (PHYS_BASE - Z.of_nat k * PGSIZE)) eqn:Hmapped.
  { intros Hrun Hsucc. inversion Hrun; subst r. discriminate Hsucc. }
  destruct pt_ok; [|intros Hrun Hsucc; inversion Hrun; subst r; discriminate Hsucc].
  destruct (push zero_page _ _) as [[[[m1 o1] d1]|]| | |];
    cbn [mbind outcome_bind]; try discriminate;
    [|intros Hrun Hsucc; inversion Hrun; subst r; discriminate Hsucc].
  destruct (push m1 _ _) as [[[[m2 o2] d2]|]| | |];
    cbn [mbind outcome_bind]; try discriminate;
    [|intros Hrun Hsucc; inversion Hrun; subst r; discriminate Hsucc].
  destruct (push m2 _ _) as [[[[m3 o3] d3]|]| | |];
    cbn [mbind outcome_bind]; try discriminate;
    [|intros Hrun Hsucc; inversion Hrun; subst r; discriminate Hsucc].
  intros Hrun Hsucc. inversion Hrun; subst r; clear Hrun.
  cbn [sr_pcb sr_args a_kpage a_upage a_offset set_args_pages].
  unfold bitmap_inv, stack_at. cbn [offsets pagedir set_pagedir set_offsets].
  split; [rewrite list_lookup_insert_ne by lia; exact H0|].
  split; [rewrite list_lookup_insert_ne by lia; exact H1|].
  intros i Hi. destruct (decide (i = k)) as [->|Hne].
  - rewrite list_lookup_insert_eq by lia. split; [intros _ | reflexivity].
    eexists. split; [left|]. split; [reflexivity|]. cbn.
    eexists. split; [reflexivity|]. apply lookup_insert_eq.
  - rewrite list_lookup_insert_ne by congruence. rewrite (Hinv i Hi).
    assert (Hup : PHYS_BASE - Z.of_nat k * PGSIZE <> PHYS_BASE - Z.of_nat i * PGSIZE).
    { intros Heq. apply upage_inj in Heq. congruence. }
    split.
    + intros (t & Hin & Hup' & pd0 & Hpd0 & Hmap). exists t. split; [right; exact Hin|].
      split; [exact Hup'|]. cbn. eexists. split; [reflexivity|].
      rewrite lookup_insert_ne by exact Hup. congruence.
    + intros (t & Hin & Hup' & pd0 & Hpd0 & Hmap).
      apply elem_of_cons in Hin. destruct Hin as [->|Hin].
      * cbn in Hup'. congruence.
      * exists t. split; [exact Hin|]. split; [exact Hup'|].
        exists pd. split; [exact Hpd|]. cbn in Hpd0. inversion Hpd0; subst pd0.
        rewrite lookup_insert_ne in Hmap by exact Hup. exact Hmap.
Qed.

(** [pthread_exit] keeps the bitmap invariant, with the exiting thread
    taken off the live ones. *)
Lemma pthread_exit_bitmap_inv (t : thread) (pcb pcb' : process)
  (js js' : gmap nat join_status) (live live' : list thread) :
  length (offsets pcb) = NOFFSETS -> bitmap_inv pcb live ->
  2 <= t_offset t -> t_upage t = PHYS_BASE - t_offset t * PGSIZE ->
  (forall t', t' ∈ live' <-> t' ∈ live /\ t_upage t' <> t_upage t) ->
  pthread_exit t pcb js = ThreadExits pcb' js' ->
  bitmap_inv pcb' live'.
Proof.
  intros Hlen (H0 & H1 & Hinv) Hoff Hup Hlive Hrun.
  apply pthread_exit_inv in Hrun.
  destruct Hrun as (_ & _ & Hrange & idx & e & pd & _ & Hpd & -> & _).
  unfold bitmap_inv, stack_at.
  cbn [offsets pagedir set_process_thread_lock set_offsets set_pagedir].
  split; [rewrite list_lookup_insert_ne by lia; exact H0|].
  split; [rewrite list_lookup_insert_ne by lia; exact H1|].
  intros i Hi. destruct (decide (i = Z.to_nat (t_offset t))) as [->|Hne].
  - rewrite list_lookup_insert_eq by lia.
    split; [discriminate|]. intros (t' & _ & _ & pd0 & Hpd0 & Hmap).
    inversion Hpd0; subst pd0.
    rewrite Z2Nat.id in Hmap by lia. rewrite <- Hup in Hmap.
    rewrite lookup_delete_eq in Hmap. discriminate Hmap.
  - rewrite list_lookup_insert_ne by congruence. rewrite (Hinv i Hi).
    assert (Hupi : t_upage t <> PHYS_BASE - Z.of_nat i * PGSIZE).
    { rewrite Hup, PGSIZE_val. lia. }
    unfold stack_at. split.
    + intros (t' & Hin' & Hup' & pd0 & Hpd0 & Hmap). exists t'.
      split; [apply Hlive; split; [exact Hin' | congruence]|].
      split; [exact Hup'|]. eexists. split; [reflexivity|].
      rewrite lookup_delete_ne by exact Hupi. congruence.
    + intros (t' & Hin' & Hup' & pd0 & Hpd0 & Hmap). exists t'.
      apply Hlive in Hin'. destruct Hin' as [Hin' _].
      split; [exact Hin'|]. split; [exact Hup'|]. exists pd. split; [exact Hpd|].
      inversion Hpd0; subst pd0.
      rewrite lookup_delete_ne in Hmap by exact Hupi. exact Hmap.
Qed.

End Lifecycle.

Section Termination.

(** The fuel of the tokenising loop never runs out: every call of
    [strtok_r] that returns a token moves the saved position forward. *)
Lemma strtok_skip_bounds (rest : list Z) :
  forall (s tok : nat),
  strtok_skip rest s = Ret (Some tok) ->
  (s <= tok < s + length rest)%nat /\
  exists c, rest !! (tok - s)%nat = Some c /\ c <> 0 /\ c <> SPACE.
Proof.
  induction rest as [|c rest IH]; intros s tok H; cbn [strtok_skip] in H; [discriminate|].
  destruct (Z.eqb_spec c 0); [discriminate|].
  destruct (Z.eqb_spec c SPACE).
  - apply IH in H. destruct H as (Hb & c' & Hc' & Hnz). cbn [length]. split; [lia|].
    exists c'. split; [|exact Hnz].
    replace (tok - s)%nat with (S (tok - S s)) by lia. exact Hc'.
  - inversion H; subst. cbn [length]. split; [lia|]. exists c.
    rewrite Nat.sub_diag. auto.
Qed.

Lemma strtok_span_bounds (rest : list Z) :
  forall (s e : nat) (c : Z),
  strtok_span rest s = Ret (e, c) ->
  (s <= e < s + length rest)%nat /\
  (forall x, rest !! 0%nat = Some x -> x <> 0 -> x <> SPACE -> (s < e)%nat).
Proof.
  induction rest as [|x rest IH]; intros s e c H; cbn [strtok_span] in H; [discriminate|].
  destruct ((x =? 0) || (x =? SPACE)) eqn:Hd.
  - inversion H; subst. cbn [length]. split; [lia|].
    intros y Hy Hy0 Hy32. inversion Hy; subst y.
    apply orb_true_iff in Hd. destruct Hd as [Hd|Hd]; apply Z.eqb_eq in Hd; contradiction.
  - apply IH in H. destruct H as [Hb _]. cbn [length]. split; [lia|]. intros; lia.
Qed.

Lemma strtok_r_progress (m : list Z) (s tok : nat) (m' : list Z) (save : nat) :
  strtok_r m s = Ret (Some (tok, m', save)) ->
  (s < save <= length m)%nat /\ length m' = length m.
Proof.
  unfold strtok_r.
  destruct (strtok_skip (drop s m) s) as [[t|]| | |] eqn:Hskip; try discriminate.
  cbn [mbind outcome_bind].
  destruct (strtok_span (drop t m) t) as [[e c]| | |] eqn:Hspan; try discriminate.
  cbn [mbind outcome_bind].
  apply strtok_skip_bounds in Hskip. destruct Hskip as (Hb & x & Hx & Hx0 & Hx32).
  rewrite lookup_drop in Hx. replace (s + (t - s))%nat with t in Hx by lia.
  apply strtok_span_bounds in Hspan. destruct Hspan as (Hb' & Hlt).
  rewrite length_drop in Hb, Hb'.
  assert (Hte : (t < e)%nat).
  { apply (Hlt x); try assumption. rewrite lookup_drop, Nat.add_0_r. exact Hx. }
  destruct (c =? 0); intros H; inversion H; subst.
  - split; [lia | reflexivity].
  - split; [lia | apply length_insert].
Qed.

Lemma strtok_r_no_hang (m : list Z) (s : nat) : strtok_r m s <> Hang.
Proof.
  assert (Hskip : forall rest s', strtok_skip rest s' <> Hang).
  { induction rest as [|c rest IH]; intros s'; cbn [strtok_skip]; [discriminate|].
    destruct (c =? 0); [discriminate|]. destruct (c =? SPACE); [apply IH | discriminate]. }
  assert (Hspan : forall rest s', strtok_span rest s' <> Hang).
  { induction rest as [|c rest IH]; intros s'; cbn [strtok_span]; [discriminate|].
    destruct ((c =? 0) || (c =? SPACE)); [discriminate | apply IH]. }
  unfold strtok_r. pose proof (Hskip (drop s m) s) as H1.
  destruct (strtok_skip (drop s m) s) as [[t|]| | |]; try discriminate; [|contradiction].
  cbn [mbind outcome_bind]. pose proof (Hspan (drop t m) t) as H2.
  destruct (strtok_span (drop t m) t) as [[e c]| | |]; try discriminate; [|contradiction].
  cbn [mbind outcome_bind]. destruct (c =? 0); discriminate.
Qed.

Lemma parse_arguments_no_hang (upage : Z) (fuel : nat) :
  forall (m : list Z) (s : nat) (args : list Z),
  (length m - s < fuel)%nat -> parse_arguments fuel m s upage args <> Hang.
Proof.
  induction fuel as [|fuel IH]; intros m s args Hfuel; [lia|].
  cbn [parse_arguments]. pose proof (strtok_r_no_hang m s) as Hno.
  destruct (strtok_r m s) as [[[[tok m'] save]|]| | |] eqn:Hcall;
    try discriminate; [|contradiction].
  cbn [mbind outcome_bind]. apply strtok_r_progress in Hcall. destruct Hcall as [Hs Hlen].
  destruct (bool_decide _); [|discriminate].
  apply IH. rewrite Hlen. lia.
Qed.

(** [init_cmd_line] gives the loop enough fuel. *)
Lemma init_cmd_line_no_hang (kpage : list Z) (upage : Z) (cmd_line : list Z) :
  init_cmd_line kpage upage cmd_line <> Hang.
Proof.
  assert (Hpush : forall m ofs buf, push m ofs buf <> Hang).
  { intros m ofs buf. unfold push. destruct (ofs <? _); [discriminate|].
    destruct (_ <=? PGSIZE); discriminate. }
  assert (Hargs : forall args m ofs, push_arguments m ofs args <> Hang).
  { induction args as [|a args IH]; intros m ofs; cbn [push_arguments]; [discriminate|].
    pose proof (Hpush m ofs (le_bytes32 a)) as Hp.
    destruct (push m ofs (le_bytes32 a)) as [[[[m1 o1] d1]|]| | |];
      try discriminate; [|contradiction].
    cbn [mbind outcome_bind]. apply IH. }
  unfold init_cmd_line.
  pose proof (Hpush kpage PGSIZE (cmd_line ++ [0])) as Hp0.
  destruct (push kpage PGSIZE (cmd_line ++ [0])) as [[[[m0 o0] d0]|]| | |];
    try discriminate; [|contradiction].
  cbn [mbind outcome_bind].
  pose proof (parse_arguments_no_hang upage (S (length m0)) m0 (Z.to_nat d0) []
                ltac:(lia)) as Hparse.
  destruct (parse_arguments _ m0 _ upage []) as [[m1 args]| | |];
    try discriminate; [|contradiction].
  cbn [mbind outcome_bind].
  repeat match goal with
  | |- context [push ?m ?o ?b] =>
      let Hp := fresh "Hp" in
      pose proof (Hpush m o b) as Hp;
      destruct (push m o b) as [[[[? ?] ?]|]| | |];
      try discriminate; [|contradiction]; cbn [mbind outcome_bind]
  | |- context [push_arguments ?m ?o ?a] =>
      let Hp := fresh "Hp" in
      pose proof (Hargs a m o) as Hp;
      destruct (push_arguments m o a) as [[[? ?]|]| | |];
      try discriminate; [|contradiction]; cbn [mbind outcome_bind]
  end.
  match goal with
  | |- context [push ?m ?o ?b] =>
      pose proof (Hpush m o b) as Hlast;
      destruct (push m o b) as [[[[? ?] ?]|]| | |]; try discriminate; contradiction
  end.
Qed.

End Termination.

Section StackPrimitives.

(** The slot [get_lowest_offset] returns is determined by the bitmap. *)
Lemma get_lowest_offset_eq (offs : list bool) (k : nat) :
  length offs = NOFFSETS -> offs !! k = Some false ->
  (forall j, (j < k)%nat -> offs !! j = Some true) ->
  get_lowest_offset offs = Ret (k, <[k := true]> offs).
Proof.
  intros Hlen Hk Hlow.
  pose proof (get_lowest_offset_spec offs Hlen) as Hspec.
  assert (Hkn : (k < NOFFSETS)%nat).
  { rewrite <- Hlen. eapply lookup_lt_Some. exact Hk. }
  destruct (get_lowest_offset offs) as [[k' o']| | |]; try contradiction.
  - destruct Hspec as (Hk' & Hf & Hlow' & ->).
    assert (k' = k) as ->; [|reflexivity].
    destruct (lt_eq_lt_dec k' k) as [[Hlt|Heq]|Hgt]; [|assumption|].
    + specialize (Hlow k' Hlt). congruence.
    + specialize (Hlow' k ltac:(lia)). congruence.
  - specialize (Hspec k ltac:(lia)). congruence.
Qed.

(** X1.  [push] returns the null pointer, and leaves the page alone, when
    the size rounded up to a word exceeds [*ofs].  Otherwise it lowers
    [*ofs] by the rounded size, the object it returns lies between the new
    and the old [*ofs], the bytes of the buffer can be read back there, and
    no other byte of the page changes; in particular, with [*ofs] inside the
    page nothing is written outside it. *)
Theorem push_round_trip (m : list Z) (ofs : Z) (buf : list Z) :
  Z.of_nat (length m) = PGSIZE -> 0 <= ofs <= PGSIZE ->
  let padsize := ROUND_UP (Z.of_nat (length buf)) 4 in
  (ofs < padsize -> push m ofs buf = Ret None) /\
  (padsize <= ofs ->
   exists m' dst,
     push m ofs buf = Ret (Some (m', ofs - padsize, dst)) /\
     ofs - padsize <= dst /\ dst + Z.of_nat (length buf) = ofs /\
     bytes_at m' (Z.to_nat dst) buf /\
     same_outside m m' dst ofs).
Proof.
  intros Hlen Hofs padsize.
  pose proof (ROUND_UP_bounds (Z.of_nat (length buf)) ltac:(lia)) as [Hb _].
  fold padsize in Hb. unfold push. fold padsize. split.
  - intros Hlt. destruct (Z.ltb_spec ofs padsize); [reflexivity | lia].
  - intros Hge. destruct (Z.ltb_spec ofs padsize); [lia|].
    set (dst := ofs - padsize + (padsize - Z.of_nat (length buf))).
    assert (Hdst : dst + Z.of_nat (length buf) = ofs) by (unfold dst; lia).
    destruct (Z.leb_spec (dst + Z.of_nat (length buf)) PGSIZE); [|lia].
    exists (memcpy m dst buf), dst.
    split; [reflexivity|]. split; [unfold dst; lia|]. split; [exact Hdst|]. split.
    + intros i x Hi.
      rewrite memcpy_lookup; [exact Hi | unfold dst; lia | lia |].
      eapply lookup_lt_Some. exact Hi.
    + rewrite <- Hdst. apply memcpy_same_outside. unfold dst. lia.
Qed.

Lemma push_round_trip_witness :
  exists m' dst,
    push zero_page PGSIZE [104; 105; 0] = Ret (Some (m', PGSIZE - 4, dst)) /\
    PGSIZE - 4 <= dst /\ dst + 3 = PGSIZE /\
    bytes_at m' (Z.to_nat dst) [104; 105; 0] /\
    same_outside zero_page m' dst PGSIZE.
Proof.
  destruct (push_round_trip zero_page PGSIZE [104; 105; 0]) as [_ H].
  - reflexivity.
  - rewrite PGSIZE_val. lia.
  - apply H. vm_compute. discriminate.
Defined.

(** X2.  [reverse] puts the [argc] words of the array in the opposite
    order and changes no byte outside the array; applied twice it gives the
    original order back. *)
Theorem reverse_reverses (ws : list Z) (a : Z) (m : list Z) :
  0 <= a -> a + 4 * Z.of_nat (length ws) <= Z.of_nat (length m) ->
  Forall (fun w => 0 <= w < UINT32_MOD) ws ->
  words_at m a ws ->
  words_at (reverse (length ws) a m) a (rev ws) /\
  same_outside m (reverse (length ws) a m) a (a + 4 * Z.of_nat (length ws)) /\
  words_at (reverse (length ws) a (reverse (length ws) a m)) a ws.
Proof.
  intros Ha Hfit Hws Hat.
  destruct (reverse_spec (length ws) ws a m eq_refl Ha Hfit Hws Hat) as [Hrev Hout].
  split; [exact Hrev|]. split; [exact Hout|].
  destruct Hout as [Hlen _].
  destruct (reverse_spec (length ws) (rev ws) a (reverse (length ws) a m)) as [Hrev2 _].
  - apply length_rev.
  - exact Ha.
  - rewrite Hlen. exact Hfit.
  - apply Forall_rev. exact Hws.
  - exact Hrev.
  - rewrite rev_involutive in Hrev2. exact Hrev2.
Qed.

Lemma reverse_reverses_witness :
  words_at (reverse 3 8 (store32 (store32 (store32 zero_page 8 1) 12 2) 16 3)) 8 [3; 2; 1].
Proof.
  assert (Hat : words_at (store32 (store32 (store32 zero_page 8 1) 12 2) 16 3) 8 [1; 2; 3]).
  { intros j w Hj. destruct j as [|[|[|j]]]; cbn in Hj; inversion Hj; subst; vm_compute; reflexivity. }
  refine (proj1 (reverse_reverses [1; 2; 3] 8 _ _ _ _ Hat)).
  - lia.
  - vm_compute. discriminate.
  - repeat constructor; vm_compute; congruence.
Defined.

Lemma zero_page_length : Z.of_nat (length zero_page) = PGSIZE.
Proof. reflexivity. Qed.

(** What a successful [setup_thread] has done. *)
Lemma setup_thread_success_inv (args : thread_create_args) (pcb : process)
  (kpage : Z) (pt_ok : bool) (esp0 : Z) (r : setup_result) :
  length (offsets pcb) = NOFFSETS ->
  setup_thread args pcb (Some kpage) pt_ok esp0 = Ret r -> sr_success r = true ->
  exists (k : nat) (pd : gmap Z (Z * bool)),
    offsets pcb !! k = Some false /\
    (forall j, (j < k)%nat -> offsets pcb !! j = Some true) /\
    pagedir pcb = Some pd /\ pd !! (PHYS_BASE - Z.of_nat k * PGSIZE) = None /\
    pt_ok = true /\
    sr_args r = set_args_pages kpage (PHYS_BASE - Z.of_nat k * PGSIZE) (Z.of_nat k) args /\
    sr_pcb r = set_pagedir (Some (<[PHYS_BASE - Z.of_nat k * PGSIZE := (kpage, true)]> pd))
                 (set_offsets (<[k := true]> (offsets pcb)) pcb).
Proof.
  intros Hlen. unfold setup_thread.
  pose proof (get_lowest_offset_spec (offsets pcb) Hlen) as Hspec.
  destruct (get_lowest_offset (offsets pcb)) as [[k o']| | |]; try discriminate.
  destruct Hspec as (Hk & Hfree & Hlow & ->).
  cbn [mbind outcome_bind pagedir set_offsets].
  destruct (pagedir pcb) as [pd|] eqn:Hpd; [|discriminate].
  unfold install_page.
  destruct (pd !! (PHYS_BASE - Z.of_nat k * PGSIZE)) eqn:Hmapped.
  { intros Hrun Hsucc. inversion Hrun; subst r. discriminate Hsucc. }
  destruct pt_ok; [|intros Hrun Hsucc; inversion Hrun; subst r; discriminate Hsucc].
  destruct (push zero_page _ _) as [[[[m1 o1] d1]|]| | |];
    cbn [mbind outcome_bind]; try discriminate;
    [|intros Hrun Hsucc; inversion Hrun; subst r; discriminate Hsucc].
  destruct (push m1 _ _) as [[[[m2 o2] d2]|]| | |];
    cbn [mbind outcome_bind]; try discriminate;
    [|intros Hrun Hsucc; inversion Hrun; subst r; discriminate Hsucc].
  destruct (push m2 _ _) as [[[[m3 o3] d3]|]| | |];
    cbn [mbind outcome_bind]; try discriminate;
    [|intros Hrun Hsucc; inversion Hrun; subst r; discriminate Hsucc].
  intros Hrun Hsucc. inversion Hrun; subst r; clear Hrun.
  exists k, pd. cbn [sr_args sr_pcb].
  split; [exact Hfree|]. split; [intros j Hj; apply Hlow; lia|].
  repeat split; try reflexivity; assumption.
Qed.

(** The successful path of [setup_thread]: the three pushes go through. *)
Lemma setup_thread_runs (args : thread_create_args) (pcb : process)
  (pd : gmap Z (Z * bool)) (kpage esp0 : Z) (offset : nat) :
  length (offsets pcb) = NOFFSETS ->
  offsets pcb !! offset = Some false ->
  (forall j, (j < offset)%nat -> offsets pcb !! j = Some true) ->
  pagedir pcb = Some pd -> pd !! (PHYS_BASE - Z.of_nat offset * PGSIZE) = None ->
  let upage := PHYS_BASE - Z.of_nat offset * PGSIZE in
  exists r,
    setup_thread args pcb (Some kpage) true esp0 = Ret r /\
    sr_success r = true /\ sr_eip r = a_sfun args /\
    sr_esp r = upage + PGSIZE - 24 /\
    sr_frame r
    = Some (kpage,
            store32 (store32 (store32 zero_page (PGSIZE - 16) (a_arg args))
                       (PGSIZE - 20) (a_tfun args)) (PGSIZE - 24) 0) /\
    pagedir (sr_pcb r) = Some (<[upage := (kpage, true)]> pd) /\
    offsets (sr_pcb r) = <[offset := true]> (offsets pcb) /\
    a_kpage (sr_args r) = kpage /\ a_upage (sr_args r) = upage /\
    a_offset (sr_args r) = Z.of_nat offset.
Proof.
  intros Hlen Hfree Hlow Hpd Hun upage. subst upage.
  unfold setup_thread.
  rewrite (get_lowest_offset_eq (offsets pcb) offset Hlen Hfree Hlow).
  cbn [mbind outcome_bind pagedir set_offsets]. rewrite Hpd.
  unfold install_page. rewrite Hun.
  cbn [a_arg a_tfun set_args_pages].
  rewrite (push_word zero_page (PGSIZE - 12)) by (rewrite PGSIZE_val; lia).
  cbn [mbind outcome_bind].
  rewrite push_word by (rewrite PGSIZE_val; lia).
  cbn [mbind outcome_bind].
  rewrite push_word by (rewrite PGSIZE_val; lia).
  cbn [mbind outcome_bind].
  replace (PGSIZE - 12 - 4) with (PGSIZE - 16) by lia.
  replace (PGSIZE - 16 - 4) with (PGSIZE - 20) by lia.
  replace (PGSIZE - 20 - 4) with (PGSIZE - 24) by lia.
  eexists. split; [reflexivity|].
  cbn [sr_success sr_eip sr_esp sr_frame sr_pcb sr_args pagedir set_pagedir offsets
       set_offsets a_kpage a_upage a_offset].
  split; [reflexivity|]. split; [reflexivity|]. split; [lia|].
  repeat split; reflexivity.
Qed.



End StackPrimitives.

Section CommandLineLimits.

Lemma frame_bytes_parts (cmd_line : list Z) :
  frame_bytes cmd_line
  = string_bytes cmd_line + alignment_padding cmd_line
    + (Z.of_nat (length (tokens cmd_line)) + 1) * 4 + 12.
Proof. reflexivity. Qed.

Lemma push_null (m : list Z) (ofs w : Z) :
  ofs < 4 -> push m ofs (le_bytes32 w) = Ret None.
Proof.
  intros Hlt. unfold push. cbn [length le_bytes32].
  change (Z.of_nat 4) with 4. rewrite ROUND_UP_4.
  destruct (Z.ltb_spec ofs 4); [reflexivity | lia].
Qed.

Lemma push_arguments_null (args : list Z) :
  forall (m : list Z) (ofs : Z),
  0 <= ofs <= PGSIZE -> ofs < 4 * Z.of_nat (length args) ->
  push_arguments m ofs args = Ret None.
Proof.
  induction args as [|a args IH]; intros m ofs Hofs Hlt; cbn [length] in Hlt.
  - lia.
  - cbn [push_arguments]. destruct (Z_lt_ge_dec ofs 4) as [H4|H4].
    + rewrite push_null by exact H4. reflexivity.
    + rewrite push_word by lia. cbn [mbind outcome_bind]. apply IH; lia.
Qed.

(** With more tokens than [arguments] has entries, the tokenising loop
    stores past the end of the array. *)
Lemma parse_arguments_overflow (upage : Z) (n : nat) :
  forall (l : list Z), (length l <= n)%nat ->
  forall (fuel : nat) (m : list Z) (s : nat) (r : list Z) (args : list Z),
  drop s m = l ++ 0 :: r -> Forall (fun c => c <> 0) l ->
  (length l < fuel)%nat ->
  (length args <= MAX_ARGS)%nat ->
  (MAX_ARGS < length args + length (tokens l))%nat ->
  parse_arguments fuel m s upage args = Stray.
Proof.
  induction n as [|n IH]; intros l Hn fuel m s r args Hdrop Hz Hfuel Hargs Hover.
  - destruct l; [|cbn in Hn; lia]. rewrite tokens_nil in Hover. cbn in Hover. lia.
  - destruct fuel as [|fuel]; [lia|]. cbn [parse_arguments].
    destruct (split_first_token l) as [[k ->]|(k & w & rest & Hne & Hw & Hl)].
    + rewrite <- (app_nil_r (replicate k SPACE)), tokens_spaces, tokens_nil in Hover.
      cbn in Hover. lia.
    + assert (Htok : tokens l = w :: tokens rest).
      { destruct Hl as [[-> ->] | ->]; rewrite tokens_spaces.
        - apply tokens_word; assumption.
        - apply tokens_word_space; assumption. }
      destruct (strtok_r_token m s k w rest r l Hdrop Hz Hne Hw Hl)
        as (m1 & save & Hcall & Hsame1 & Hbytes & Hdrop1 & Hs & Hend & Hlen & Hzw & Hzr & Hbelow).
      rewrite Hcall. cbn [mbind outcome_bind].
      rewrite Htok in Hover. cbn [length] in Hover.
      destruct (decide (length args < MAX_ARGS)%nat) as [Hlt|Hge].
      * rewrite bool_decide_eq_true_2 by exact Hlt.
        apply (IH rest ltac:(lia) fuel m1 save r _ Hdrop1 Hzr ltac:(lia)).
        -- rewrite length_app. cbn [length]. lia.
        -- rewrite length_app. cbn [length]. lia.
      * rewrite bool_decide_eq_false_2 by exact Hge. reflexivity.
Qed.

(** A command line whose string fits in the page but whose frame does
    not. *)
Lemma init_cmd_line_overlong (kpage : list Z) (upage : Z) (cmd_line : list Z) :
  Z.of_nat (length kpage) = PGSIZE -> 0 <= upage -> upage + PGSIZE <= UINT32_MOD ->
  Forall (fun c => c <> 0) cmd_line ->
  (length (tokens cmd_line) < MAX_ARGS)%nat ->
  string_bytes cmd_line <= PGSIZE ->
  (PGSIZE - string_bytes cmd_line < alignment_padding cmd_line ->
   init_cmd_line kpage upage cmd_line = Stray) /\
  (alignment_padding cmd_line <= PGSIZE - string_bytes cmd_line ->
   ~ fits_in_page cmd_line ->
   init_cmd_line kpage upage cmd_line = Ret None).
Proof.
  intros Hklen Hup0 Hup1 Hz Htoks HS.
  pose proof PGSIZE_val as HPG. pose proof UINT32_MOD_val as HU.
  unfold fits_in_page. rewrite frame_bytes_parts.
  unfold alignment_padding, string_bytes in *.
  set (n := Z.of_nat (length cmd_line)) in *.
  set (argc := Z.of_nat (length (tokens cmd_line))) in *.
  set (S0 := ROUND_UP (n + 1) 4) in *.
  set (pad := 16 - (S0 + (argc + 1) * 4 + 4 + 4) mod 16) in *.
  assert (Hn : 0 <= n) by (unfold n; lia).
  assert (Hargc : 0 <= argc < 1024) by (unfold argc, MAX_ARGS in *; lia).
  destruct (ROUND_UP_bounds (n + 1) ltac:(lia)) as [HS0 _]. fold S0 in HS0.
  assert (Hpad : 1 <= pad <= 16).
  { unfold pad. pose proof (Z.mod_pos_bound (S0 + (argc + 1) * 4 + 4 + 4) 16 ltac:(lia)). lia. }
  unfold init_cmd_line.
  assert (Hbuf : Z.of_nat (length (cmd_line ++ [0])) = n + 1).
  { rewrite length_app. cbn [length]. unfold n. lia. }
  assert (Hpush0 : push kpage PGSIZE (cmd_line ++ [0])
                   = Ret (Some (memcpy kpage (PGSIZE - (n + 1)) (cmd_line ++ [0]),
                                PGSIZE - S0, PGSIZE - (n + 1)))).
  { unfold push. rewrite Hbuf. fold S0.
    destruct (Z.ltb_spec PGSIZE S0); [lia|].
    replace (PGSIZE - S0 + (S0 - (n + 1))) with (PGSIZE - (n + 1)) by lia.
    destruct (Z.leb_spec (PGSIZE - (n + 1) + (n + 1)) PGSIZE); [reflexivity | lia]. }
  rewrite Hpush0. cbn [mbind outcome_bind].
  set (m0 := memcpy kpage (PGSIZE - (n + 1)) (cmd_line ++ [0])).
  assert (Hm0len : Z.of_nat (length m0) = PGSIZE).
  { unfold m0, memcpy. rewrite length_inserts. exact Hklen. }
  assert (Hdrop0 : drop (Z.to_nat (PGSIZE - (n + 1))) m0 = cmd_line ++ [0]).
  { apply memcpy_drop_end; lia. }
  destruct (parse_arguments_spec upage (length cmd_line) cmd_line (Nat.le_refl _)
              (S (length m0)) m0 (Z.to_nat (PGSIZE - (n + 1))) [] [] Hdrop0 Hz)
    as (m1 & starts & Hparse & Hsame1 & Hall).
  { unfold n in *. lia. }
  { cbn [length]. exact Htoks. }
  rewrite Hparse. cbn [mbind outcome_bind app].
  assert (Hm1len : Z.of_nat (length m1) = PGSIZE).
  { destruct Hsame1 as [-> _]. exact Hm0len. }
  assert (Hstarts : Z.of_nat (length starts) = argc).
  { unfold argc. rewrite (Forall2_length _ _ _ Hall). reflexivity. }
  rewrite length_fmap, Hstarts.
  assert (Hu32 : Forall (fun a => 0 <= a < UINT32_MOD)
                   ((fun t => upage + Z.of_nat t) <$> starts)).
  { apply Forall_fmap. eapply Forall2_Forall_l; [exact Hall|].
    apply Forall_forall. intros w _ t (_ & _ & Hb). cbn.
    apply bytes_at_lt in Hb; [lia|]. destruct w; discriminate. }
  assert (Hadj : wrap32 (PGSIZE - (PGSIZE - S0) + (argc + 1) * 4 + 4 + 4) mod 16
                 = 16 - pad).
  { unfold wrap32, pad. rewrite (Z.mod_small _ UINT32_MOD) by lia.
    replace (PGSIZE - (PGSIZE - S0) + (argc + 1) * 4 + 4 + 4)
      with (S0 + (argc + 1) * 4 + 4 + 4) by lia.
    lia. }
  rewrite Hadj. replace (16 - (16 - pad)) with pad by lia.
  split.
  - (* the subtraction wraps *)
    intros Hwrap.
    assert (Hofs1 : sub32 (PGSIZE - S0) pad = UINT32_MOD + (PGSIZE - S0 - pad)).
    { unfold sub32, wrap32. symmetry. apply Z.mod_unique with (q := -1); lia. }
    rewrite Hofs1. unfold push. cbn [length le_bytes32].
    change (Z.of_nat 4) with 4. rewrite ROUND_UP_4.
    destruct (Z.ltb_spec (UINT32_MOD + (PGSIZE - S0 - pad)) 4); [lia|].
    destruct (Z.leb_spec (UINT32_MOD + (PGSIZE - S0 - pad) - 4 + (4 - 4) + 4) PGSIZE);
      [lia | reflexivity].
  - intros Hfit Hnofit.
    assert (Hofs1 : sub32 (PGSIZE - S0) pad = PGSIZE - S0 - pad).
    { unfold sub32, wrap32. rewrite (Z.mod_small _ UINT32_MOD) by lia. lia. }
    rewrite Hofs1. set (ofs1 := PGSIZE - S0 - pad).
    assert (Hshort : ofs1 < (argc + 1) * 4 + 12) by (unfold ofs1; lia).
    destruct (Z_lt_ge_dec ofs1 4) as [H4|H4].
    { rewrite push_null by exact H4. reflexivity. }
    rewrite push_word by (unfold ofs1 in *; lia). cbn [mbind outcome_bind].
    set (m2 := store32 m1 (ofs1 - 4) 0).
    pose proof (store32_same_outside m1 (ofs1 - 4) 0 ltac:(lia)) as Hsame2.
    fold m2 in Hsame2.
    assert (Hm2len : Z.of_nat (length m2) = PGSIZE).
    { destruct Hsame2 as [-> _]. exact Hm1len. }
    destruct (Z_lt_ge_dec (ofs1 - 4) (4 * argc)) as [Ha|Ha].
    { rewrite push_arguments_null; [reflexivity | unfold ofs1 in *; lia |].
      rewrite length_fmap, Hstarts. exact Ha. }
    destruct (push_arguments_spec ((fun t => upage + Z.of_nat t) <$> starts) m2 (ofs1 - 4))
      as (m3 & Hpusha & _ & _); try assumption.
    { rewrite length_fmap, Hstarts. unfold ofs1 in *. lia. }
    rewrite length_fmap, Hstarts in Hpusha.
    rewrite Hpusha. cbn [mbind outcome_bind].
    set (ofs3 := ofs1 - 4 - 4 * argc) in *.
    destruct (Z_lt_ge_dec ofs3 4) as [Hb|Hb].
    { rewrite push_null by exact Hb. reflexivity. }
    rewrite push_word by (unfold ofs3, ofs1 in *; lia). cbn [mbind outcome_bind].
    destruct (Z_lt_ge_dec (ofs3 - 4) 4) as [Hc|Hc].
    { rewrite push_null by exact Hc. reflexivity. }
    rewrite push_word by (unfold ofs3, ofs1 in *; lia). cbn [mbind outcome_bind].
    rewrite push_null by (unfold ofs3 in *; lia). reflexivity.
Qed.

(** X5.  [init_cmd_line] returns false for a command line whose string
    with its terminator, rounded to words, is longer than the page, and
    for one whose string and alignment padding fit in the page while the
    argument pointers, [argv], [argc] and the return address do not. *)
Theorem init_cmd_line_rejects_overlong (kpage : list Z) (upage : Z) (cmd_line : list Z) :
  Z.of_nat (length kpage) = PGSIZE -> 0 <= upage -> upage + PGSIZE <= UINT32_MOD ->
  Forall (fun c => c <> 0) cmd_line ->
  ~ fits_in_page cmd_line ->
  PGSIZE < string_bytes cmd_line \/
  (length (tokens cmd_line) < MAX_ARGS)%nat /\
  string_bytes cmd_line + alignment_padding cmd_line <= PGSIZE ->
  init_cmd_line kpage upage cmd_line = Ret None.
Proof.
  intros Hklen Hup0 Hup1 Hz Hnofit [Hlong|[Htoks Hpad]].
  - unfold init_cmd_line, push, string_bytes in *.
    rewrite length_app. cbn [length].
    replace (Z.of_nat (length cmd_line + 1)) with (Z.of_nat (length cmd_line) + 1) by lia.
    destruct (Z.ltb_spec PGSIZE (ROUND_UP (Z.of_nat (length cmd_line) + 1) 4));
      [reflexivity | lia].
  - assert (Hpos : 1 <= alignment_padding cmd_line).
    { unfold alignment_padding.
      pose proof (Z.mod_pos_bound
                    (string_bytes cmd_line
                     + (Z.of_nat (length (tokens cmd_line)) + 1) * 4 + 4 + 4) 16 ltac:(lia)).
      lia. }
    apply (init_cmd_line_overlong kpage upage cmd_line); try assumption; lia.
Qed.

Lemma init_cmd_line_rejects_overlong_witness :
  init_cmd_line zero_page stack_upage (replicate 4096 97) = Ret None /\
  init_cmd_line zero_page stack_upage (replicate 4080 97) = Ret None.
Proof.
  split.
  - apply init_cmd_line_rejects_overlong.
    + reflexivity.
    + vm_compute. discriminate.
    + vm_compute. discriminate.
    + apply Forall_replicate. discriminate.
    + vm_compute. intros H. apply H. reflexivity.
    + left. vm_compute. reflexivity.
  - apply init_cmd_line_rejects_overlong.
    + reflexivity.
    + vm_compute. discriminate.
    + vm_compute. discriminate.
    + apply Forall_replicate. discriminate.
    + vm_compute. intros H. apply H. reflexivity.
    + right. split.
      * apply (bool_decide_unpack (length (tokens (replicate 4080 97%Z)) < MAX_ARGS)%nat).
        vm_compute. exact I.
      * vm_compute. discriminate.
Defined.

(** X6.  When the string of the command line fits in the page but the
    alignment padding below it does not, [init_cmd_line] does not return
    false: the padding is subtracted from the offset without a check, the
    unsigned offset wraps round to just below 2^32, the next [push] takes
    it for room enough and stores the null sentinel outside the page. *)
Theorem init_cmd_line_padding_underflow (kpage : list Z) (upage : Z) (cmd_line : list Z) :
  Z.of_nat (length kpage) = PGSIZE -> 0 <= upage -> upage + PGSIZE <= UINT32_MOD ->
  Forall (fun c => c <> 0) cmd_line ->
  (length (tokens cmd_line) < MAX_ARGS)%nat ->
  string_bytes cmd_line <= PGSIZE ->
  PGSIZE < string_bytes cmd_line + alignment_padding cmd_line ->
  init_cmd_line kpage upage cmd_line = Stray.
Proof.
  intros Hklen Hup0 Hup1 Hz Htoks HS Hpad.
  apply (init_cmd_line_overlong kpage upage cmd_line); try assumption. lia.
Qed.

Lemma init_cmd_line_padding_underflow_witness :
  init_cmd_line zero_page stack_upage (replicate 4095 97) = Stray.
Proof.
  apply init_cmd_line_padding_underflow.
  - reflexivity.
  - vm_compute. discriminate.
  - vm_compute. discriminate.
  - apply Forall_replicate. discriminate.
  - apply (bool_decide_unpack (length (tokens (replicate 4095 97%Z)) < MAX_ARGS)%nat).
    vm_compute. exact I.
  - vm_compute. discriminate.
  - vm_compute. reflexivity.
Defined.

(** X7.  [arguments] has [MAX_ARGS] entries and the tokenising loop does
    not count: for a command line that fits in the page as a string and
    has more than [MAX_ARGS] tokens, [init_cmd_line] stores past the end of
    the array. *)
Theorem init_cmd_line_arguments_overflow (kpage : list Z) (upage : Z) (cmd_line : list Z) :
  Z.of_nat (length kpage) = PGSIZE ->
  Forall (fun c => c <> 0) cmd_line ->
  string_bytes cmd_line <= PGSIZE ->
  (MAX_ARGS < length (tokens cmd_line))%nat ->
  init_cmd_line kpage upage cmd_line = Stray.
Proof.
  intros Hklen Hz HS Hover.
  pose proof PGSIZE_val as HPG.
  unfold string_bytes in HS.
  set (n := Z.of_nat (length cmd_line)) in *.
  set (S0 := ROUND_UP (n + 1) 4) in *.
  assert (Hn : 0 <= n) by (unfold n; lia).
  destruct (ROUND_UP_bounds (n + 1) ltac:(lia)) as [HS0 _]. fold S0 in HS0.
  unfold init_cmd_line.
  assert (Hbuf : Z.of_nat (length (cmd_line ++ [0])) = n + 1).
  { rewrite length_app. cbn [length]. unfold n. lia. }
  assert (Hpush0 : push kpage PGSIZE (cmd_line ++ [0])
                   = Ret (Some (memcpy kpage (PGSIZE - (n + 1)) (cmd_line ++ [0]),
                                PGSIZE - S0, PGSIZE - (n + 1)))).
  { unfold push. rewrite Hbuf. fold S0.
    destruct (Z.ltb_spec PGSIZE S0); [lia|].
    replace (PGSIZE - S0 + (S0 - (n + 1))) with (PGSIZE - (n + 1)) by lia.
    destruct (Z.leb_spec (PGSIZE - (n + 1) + (n + 1)) PGSIZE); [reflexivity | lia]. }
  rewrite Hpush0. cbn [mbind outcome_bind].
  set (m0 := memcpy kpage (PGSIZE - (n + 1)) (cmd_line ++ [0])).
  assert (Hm0len : Z.of_nat (length m0) = PGSIZE).
  { unfold m0, memcpy. rewrite length_inserts. exact Hklen. }
  assert (Hdrop0 : drop (Z.to_nat (PGSIZE - (n + 1))) m0 = cmd_line ++ [0]).
  { apply memcpy_drop_end; lia. }
  rewrite (parse_arguments_overflow upage (length cmd_line) cmd_line (Nat.le_refl _)
             (S (length m0)) m0 (Z.to_nat (PGSIZE - (n + 1))) [] [] Hdrop0 Hz).
  - reflexivity.
  - unfold n in *. lia.
  - cbn [length]. lia.
  - cbn [length]. lia.
Qed.

Lemma init_cmd_line_arguments_overflow_witness :
  init_cmd_line zero_page stack_upage (concat (replicate 1025 [97; 32])) = Stray.
Proof.
  apply init_cmd_line_arguments_overflow.
  - reflexivity.
  - apply (bool_decide_unpack (Forall (fun c => c <> 0) (concat (replicate 1025 [97; 32])))).
    vm_compute. exact I.
  - vm_compute. discriminate.
  - apply (bool_decide_unpack (MAX_ARGS < length (tokens (concat (replicate 1025 [97%Z; 32%Z]))))%nat).
    vm_compute. exact I.
Defined.

End CommandLineLimits.

Section ThreadTable.

Lemma get_thread_entry_None (tid : Z) (l : list user_thread_entry) :
  get_thread_entry tid l = None <-> tid ∉ ute_tid <$> l.
Proof.
  unfold get_thread_entry. rewrite list_find_None, Forall_forall. split.
  - intros H Hin. apply list_elem_of_fmap in Hin. destruct Hin as (e & -> & He).
    exact (H e He eq_refl).
  - intros H e He Heq. apply H. apply list_elem_of_fmap. exists e. split; [congruence | exact He].
Qed.

Lemma get_thread_entry_Some (tid : Z) (l : list user_thread_entry) (i : nat)
  (e : user_thread_entry) :
  get_thread_entry tid l = Some (i, e) -> l !! i = Some e /\ ute_tid e = tid.
Proof.
  unfold get_thread_entry. intros H. apply list_find_Some in H. tauto.
Qed.

(** The element found does not depend on elements that do not match
    being taken out. *)
Lemma list_find_delete_other {A : Type} (P : A -> Prop) `{forall x, Decision (P x)}
  (l : list A) :
  forall (i : nat) (e : A),
  l !! i = Some e -> ~ P e ->
  snd <$> list_find P (delete i l) = snd <$> list_find P l.
Proof.
  induction l as [|x l IH]; intros i e Hi Hne; [discriminate|].
  destruct i as [|i]; cbn in Hi.
  - inversion Hi; subst x. cbn [delete list_delete]. cbn [list_find].
    rewrite decide_False by exact Hne.
    destruct (list_find P l) as [[j y]|]; reflexivity.
  - change (delete (S i) (x :: l)) with (x :: delete i l). cbn [list_find].
    destruct (decide (P x)); [reflexivity|].
    specialize (IH i e Hi Hne).
    destruct (list_find P (delete i l)) as [[j y]|], (list_find P l) as [[j' y']|];
      cbn in *; congruence.
Qed.

Lemma get_thread_entry_delete (tid : Z) (l : list user_thread_entry)
  (i : nat) (e : user_thread_entry) :
  l !! i = Some e -> ute_tid e <> tid ->
  snd <$> get_thread_entry tid (delete i l) = snd <$> get_thread_entry tid l.
Proof. apply (list_find_delete_other (fun e => ute_tid e = tid)). Qed.

Lemma start_pthread_begin_success (a : nat) (pcb pcb1 : process)
  (ah ah1 : gmap nat thread_create_args) (palloc : option Z) (pt_ok : bool) :
  length (offsets pcb) = NOFFSETS ->
  start_pthread_begin a pcb ah palloc pt_ok = Ret (true, pcb1, ah1) ->
  exists args1,
    ah1 = <[a := args1]> ah /\ a_success args1 = true /\
    user_thread_list pcb1 = user_thread_list pcb /\
    join_statuses pcb1 = join_statuses pcb /\
    process_thread_lock pcb1 = process_thread_lock pcb.
Proof.
  intros Hlen. unfold start_pthread_begin.
  destruct (ah !! a) as [args|]; [|discriminate].
  destruct palloc as [kpage|].
  - pose proof (setup_thread_success_inv args pcb kpage pt_ok 0) as Hinv.
    destruct (setup_thread args pcb (Some kpage) pt_ok 0) as [r| | |];
      cbn [mbind outcome_bind]; try discriminate.
    intros Hr. inversion Hr as [[Hs Hp Ha]].
    destruct (Hinv r Hlen eq_refl Hs) as (k & pd & _ & _ & _ & _ & _ & _ & Hpcb).
    exists (set_args_success true (sr_args r)).
    subst pcb1 ah1. rewrite Hs, Hpcb. repeat split; reflexivity.
  - cbn. discriminate.
Qed.

(** X8.  The usual order: the new thread has set up its stack, published
    success and registered itself before [pthread_execute] wakes up.  The
    thread's registration adds one entry for its tid, marked initialized,
    with the thread pointer set and the stack pages of the thread
    recorded; [pthread_execute] then finds the entry, adds none, and
    returns the new tid.  The table still has one entry per tid. *)
Theorem pthread_execute_after_registration (cur tid : Z) (a : nat)
  (pcb pcb1 : process) (ah ah1 : gmap nat thread_create_args)
  (js : gmap nat join_status) (palloc : option Z) (pt_ok entry_ok : bool)
  (js_alloc : option nat) :
  length (offsets pcb) = NOFFSETS ->
  thread_entries_ok pcb -> tid ∉ ute_tid <$> user_thread_list pcb ->
  tid <> TID_ERROR -> process_thread_lock pcb = None ->
  start_pthread_begin a pcb ah palloc pt_ok = Ret (true, pcb1, ah1) ->
  exists pcb2 js2 t e,
    start_pthread_finish tid a pcb1 ah1 js true js_alloc = Ret (pcb2, js2, t) /\
    pthread_execute_end cur tid a entry_ok pcb2 ah1 = Returns tid (pcb2, delete a ah1) /\
    user_thread_list pcb2 = user_thread_list pcb ++ [e] /\
    e = mkEntry (Some tid) tid false false true (t_kpage t) (t_upage t) /\
    get_thread_entry tid (user_thread_list pcb2)
      = Some (length (user_thread_list pcb), e) /\
    thread_entries_ok pcb2.
Proof.
  intros Hlen Hok Hfresh Htid Hlock Hbegin.
  destruct (start_pthread_begin_success a pcb pcb1 ah ah1 palloc pt_ok Hlen Hbegin)
    as (args1 & -> & Hsucc & Hl1 & Hj1 & Hlock1).
  assert (Hnone : get_thread_entry tid (user_thread_list pcb1) = None).
  { rewrite Hl1. apply get_thread_entry_None. exact Hfresh. }
  set (e := mkEntry (Some tid) tid false false true (a_kpage args1) (a_upage args1)).
  assert (Hfind : get_thread_entry tid (user_thread_list pcb ++ [e])
                  = Some (length (user_thread_list pcb), e)).
  { unfold get_thread_entry. rewrite list_find_app_r.
    - cbn [list_find]. rewrite decide_True by reflexivity. cbn.
      rewrite ?Nat.add_0_r. reflexivity.
    - apply get_thread_entry_None. exact Hfresh. }
  assert (Hlist : <[length (user_thread_list pcb1) := e]>
                    (user_thread_list pcb1 ++ [mkEntry (Some tid) tid false false false 0 0])
                  = user_thread_list pcb ++ [e]).
  { rewrite Hl1. rewrite insert_app_r_alt by lia. rewrite Nat.sub_diag. reflexivity. }
  assert (Hreg : exists pcb2 js2 t,
             start_pthread_finish tid a pcb1 (<[a := args1]> ah) js true js_alloc
               = Ret (pcb2, js2, t) /\
             user_thread_list pcb2 = user_thread_list pcb ++ [e] /\
             process_thread_lock pcb2 = None /\
             t_kpage t = a_kpage args1 /\ t_upage t = a_upage args1).
  { unfold start_pthread_finish. rewrite lookup_insert_eq.
    unfold start_pthread_register. rewrite Hnone.
    unfold create_thread_entry. rewrite decide_True by reflexivity.
    cbn [mbind outcome_bind ute_thread ute_tid ute_waited_on ute_completed].
    fold e. rewrite Hlist.
    destruct js_alloc as [b|]; eexists _, _, _; (split; [reflexivity|]);
      cbn [user_thread_list set_user_thread_list set_join_statuses process_thread_lock
           t_kpage t_upage];
      rewrite ?Hlock1, ?Hlock; repeat split; reflexivity. }
  destruct Hreg as (pcb2 & js2 & t & Hfin & Hl2 & Hlock2 & Hk & Hu).
  exists pcb2, js2, t, e. split; [exact Hfin|]. split.
  { unfold pthread_execute_end. rewrite bool_decide_eq_true_2 by exact Htid.
    rewrite lookup_insert_eq, Hsucc, Hlock2. cbn [lock_acquire].
    rewrite Hl2, Hfind. reflexivity. }
  split; [exact Hl2|]. split; [unfold e; rewrite Hk, Hu; reflexivity|].
  split; [rewrite Hl2; exact Hfind|].
  unfold thread_entries_ok. rewrite Hl2, fmap_app. apply NoDup_app.
  split; [exact Hok|]. split; [|apply NoDup_singleton].
  intros x Hx Hin. cbn in Hin. apply list_elem_of_singleton in Hin. subst x.
  contradiction.
Qed.

Lemma pthread_execute_after_registration_witness :
  exists pcb1 ah1 pcb2 js2 t e,
    start_pthread_begin 0 (booted_pcb 1 ∅) {[0%nat := mkArgs 4096 8192 7 false 0 0 0]}
      (Some 77) true = Ret (true, pcb1, ah1) /\
    start_pthread_finish 5 0 pcb1 ah1 ∅ true (Some 1%nat) = Ret (pcb2, js2, t) /\
    pthread_execute_end 1 5 0 true pcb2 ah1 = Returns 5 (pcb2, delete 0%nat ah1) /\
    user_thread_list pcb2 = user_thread_list (booted_pcb 1 ∅) ++ [e] /\
    e = mkEntry (Some 5) 5 false false true (t_kpage t) (t_upage t) /\
    get_thread_entry 5 (user_thread_list pcb2) = Some (1%nat, e) /\
    thread_entries_ok pcb2.
Proof.
  destruct (setup_thread_runs (mkArgs 4096 8192 7 false 0 0 0) (booted_pcb 1 ∅) ∅ 77 0 2%nat)
    as (r & Hrun & Hsucc & _).
  { reflexivity. }
  { reflexivity. }
  { intros [|[|j]] Hj; [reflexivity | reflexivity | lia]. }
  { reflexivity. }
  { apply lookup_empty. }
  assert (Hbegin : start_pthread_begin 0 (booted_pcb 1 ∅)
                     {[0%nat := mkArgs 4096 8192 7 false 0 0 0]} (Some 77) true
                   = Ret (true, sr_pcb r,
                          <[0%nat := set_args_success true (sr_args r)]>
                            {[0%nat := mkArgs 4096 8192 7 false 0 0 0]})).
  { unfold start_pthread_begin. rewrite lookup_singleton_eq, Hrun.
    cbn [mbind outcome_bind]. rewrite Hsucc. reflexivity. }
  assert (H1 : thread_entries_ok (booted_pcb 1 ∅)).
  { unfold thread_entries_ok. cbn. apply NoDup_singleton. }
  assert (H2 : 5 ∉ ute_tid <$> user_thread_list (booted_pcb 1 ∅)).
  { cbn. intros Hin. apply list_elem_of_singleton in Hin. discriminate Hin. }
  assert (H3 : 5 <> TID_ERROR) by discriminate.
  destruct (pthread_execute_after_registration 1 5 0%nat (booted_pcb 1 ∅) _ _ _ ∅
              (Some 77) true true (Some 1%nat) eq_refl H1 H2 H3 eq_refl Hbegin)
    as (pcb2 & js2 & t & e & H).
  eexists (sr_pcb r), _, pcb2, js2, t, e. split; [exact Hbegin | exact H].
Defined.

(** X9.  The other order.  [pthread_execute] frees the argument block on
    its way out, as soon as [load_done] has been signalled; the new thread
    reads its stack pages out of the block after it has signalled.  Once
    [pthread_execute] has returned, whatever the outcome, the block is
    gone: a new thread that gets to its registration only then reads freed
    memory. *)
Theorem pthread_execute_frees_args_early (cur new_tid tid v : Z) (a : nat)
  (entry_ok entry_ok' : bool) (pcb pcb1 pcb' : process)
  (ah ah1 : gmap nat thread_create_args) (js : gmap nat join_status)
  (js_alloc : option nat) :
  pthread_execute_end cur new_tid a entry_ok pcb ah = Returns v (pcb1, ah1) ->
  ah1 !! a = None /\
  start_pthread_finish tid a pcb' ah1 js entry_ok' js_alloc = Stray.
Proof.
  intros Hend.
  assert (Hah : ah1 = delete a ah).
  { revert Hend. unfold pthread_execute_end.
    destruct (bool_decide (new_tid <> TID_ERROR)); [|intros H; inversion H; reflexivity].
    destruct (ah !! a) as [args|]; [|discriminate].
    destruct (a_success args); [|intros H; inversion H; reflexivity].
    destruct (lock_acquire cur (process_thread_lock pcb)); try discriminate.
    intros H; inversion H; reflexivity. }
  subst ah1. unfold start_pthread_finish. rewrite lookup_delete_eq. split; reflexivity.
Qed.

Lemma pthread_execute_frees_args_early_witness :
  pthread_execute_end 1 5 0 true (booted_pcb 1 ∅)
    {[0%nat := mkArgs 4096 8192 7 true 77 (PHYS_BASE - 2 * PGSIZE) 2]}
  = Returns 5
      (set_user_thread_list
         (user_thread_list (booted_pcb 1 ∅) ++ [mkEntry None 5 false false false 0 0])
         (booted_pcb 1 ∅),
       delete 0%nat {[0%nat := mkArgs 4096 8192 7 true 77 (PHYS_BASE - 2 * PGSIZE) 2]}) /\
  start_pthread_finish 5 0
    (set_user_thread_list
       (user_thread_list (booted_pcb 1 ∅) ++ [mkEntry None 5 false false false 0 0])
       (booted_pcb 1 ∅))
    (delete 0%nat {[0%nat := mkArgs 4096 8192 7 true 77 (PHYS_BASE - 2 * PGSIZE) 2]})
    ∅ true (Some 1%nat) = Stray.
Proof.
  assert (Hend : pthread_execute_end 1 5 0 true (booted_pcb 1 ∅)
                   {[0%nat := mkArgs 4096 8192 7 true 77 (PHYS_BASE - 2 * PGSIZE) 2]}
                 = Returns 5
                     (set_user_thread_list
                        (user_thread_list (booted_pcb 1 ∅)
                         ++ [mkEntry None 5 false false false 0 0])
                        (booted_pcb 1 ∅),
                      delete 0%nat
                        {[0%nat := mkArgs 4096 8192 7 true 77 (PHYS_BASE - 2 * PGSIZE) 2]})).
  { unfold pthread_execute_end. rewrite bool_decide_eq_true_2 by discriminate.
    rewrite lookup_singleton_eq. reflexivity. }
  split; [exact Hend|].
  exact (proj2 (pthread_execute_frees_args_early 1 5 5 5 0%nat true true _ _ _ _ _ ∅
                  (Some 1%nat) Hend)).
Defined.

(** What [setup_thread] leaves alone. *)
Lemma setup_thread_frame (args : thread_create_args) (pcb : process)
  (palloc : option Z) (pt_ok : bool) (esp0 : Z) (r : setup_result) :
  setup_thread args pcb palloc pt_ok esp0 = Ret r ->
  user_thread_list (sr_pcb r) = user_thread_list pcb /\
  join_statuses (sr_pcb r) = join_statuses pcb /\
  process_thread_lock (sr_pcb r) = process_thread_lock pcb.
Proof.
  unfold setup_thread. destruct palloc as [kpage|];
    [|intros H; inversion H; repeat split; reflexivity].
  destruct (get_lowest_offset (offsets pcb)) as [[k o']| | |]; try discriminate.
  cbn [mbind outcome_bind pagedir set_offsets].
  destruct (pagedir pcb) as [pd|]; [|discriminate].
  destruct (install_page _ _ _ _ _) as [[] pd'];
    [|intros H; inversion H; repeat split; reflexivity].
  destruct (push zero_page _ _) as [[[[m1 o1] d1]|]| | |];
    cbn [mbind outcome_bind]; try discriminate;
    [|intros H; inversion H; repeat split; reflexivity].
  destruct (push m1 _ _) as [[[[m2 o2] d2]|]| | |];
    cbn [mbind outcome_bind]; try discriminate;
    [|intros H; inversion H; repeat split; reflexivity].
  destruct (push m2 _ _) as [[[[m3 o3] d3]|]| | |];
    cbn [mbind outcome_bind]; try discriminate;
    intros H; inversion H; repeat split; reflexivity.
Qed.

(** The invariant of the bitmap looks at the bitmap and the page directory
    only. *)
Lemma bitmap_inv_ext (pcb pcb' : process) (live : list thread) :
  offsets pcb' = offsets pcb -> pagedir pcb' = pagedir pcb ->
  bitmap_inv pcb live -> bitmap_inv pcb' live.
Proof.
  intros Ho Hp. unfold bitmap_inv, stack_at. rewrite Ho, Hp. tauto.
Qed.

(** Taking the entry found for a tid out of a table with one entry per
    tid. *)
Lemma get_thread_entry_taken_out (tid : Z) (l : list user_thread_entry) (i : nat)
  (e : user_thread_entry) :
  NoDup (ute_tid <$> l) -> get_thread_entry tid l = Some (i, e) ->
  get_thread_entry tid (delete i l) = None /\
  (forall tid', tid' <> tid ->
     snd <$> get_thread_entry tid' (delete i l) = snd <$> get_thread_entry tid' l) /\
  NoDup (ute_tid <$> delete i l).
Proof.
  intros Hok Hfind.
  apply get_thread_entry_Some in Hfind. destruct Hfind as [Hi He].
  pose proof (take_drop_middle _ _ _ Hi) as Hsplit.
  rewrite <- Hsplit in Hok. rewrite fmap_app, fmap_cons in Hok.
  apply NoDup_app in Hok. destruct Hok as (Hnd1 & Hdisj & Hnd2).
  apply NoDup_cons in Hnd2. destruct Hnd2 as [Hnotin Hnd2].
  assert (Hdel : delete i l = take i l ++ drop (S i) l) by apply delete_take_drop.
  split.
  { apply get_thread_entry_None. rewrite Hdel, fmap_app. intros Hin.
    apply elem_of_app in Hin. destruct Hin as [Hin|Hin].
    - apply (Hdisj _ Hin). rewrite He. left.
    - apply Hnotin. rewrite He. exact Hin. }
  split.
  { intros tid' Hne. apply (get_thread_entry_delete tid' _ i e Hi). congruence. }
  rewrite Hdel, fmap_app. apply NoDup_app. split; [exact Hnd1|]. split; [|exact Hnd2].
  intros x Hx Hin. apply (Hdisj x Hx). right. exact Hin.
Qed.

(** The registration of a thread that has no entry yet. *)
Lemma start_pthread_finish_fresh (tid : Z) (a : nat) (pcb1 : process)
  (ah1 : gmap nat thread_create_args) (js : gmap nat join_status)
  (js_alloc : option nat) (args1 : thread_create_args) :
  ah1 !! a = Some args1 -> get_thread_entry tid (user_thread_list pcb1) = None ->
  let e := mkEntry (Some tid) tid false false true (a_kpage args1) (a_upage args1) in
  let pcbe := set_user_thread_list (user_thread_list pcb1 ++ [e]) pcb1 in
  start_pthread_finish tid a pcb1 ah1 js true js_alloc
  = Ret (match js_alloc with
         | Some b => set_join_statuses (b :: join_statuses pcbe) pcbe
         | None => pcbe
         end,
         match js_alloc with
         | Some b => <[b := mkJoin tid false 0 2 true]> js
         | None => js
         end,
         mkThread tid (a_kpage args1) (a_upage args1) (a_offset args1) js_alloc).
Proof.
  intros Hah Hnone e pcbe. unfold start_pthread_finish. rewrite Hah.
  unfold start_pthread_register. rewrite Hnone.
  unfold create_thread_entry. rewrite decide_True by reflexivity.
  cbn [mbind outcome_bind ute_thread ute_tid ute_waited_on ute_completed].
  rewrite insert_app_r_alt by lia. rewrite Nat.sub_diag. cbn [insert list_insert].
  destruct js_alloc as [b|]; reflexivity.
Qed.

Lemma get_thread_entry_snoc (tid : Z) (l : list user_thread_entry) (e : user_thread_entry) :
  tid ∉ ute_tid <$> l -> ute_tid e = tid ->
  get_thread_entry tid (l ++ [e]) = Some (length l, e).
Proof.
  intros Hfresh He. unfold get_thread_entry. rewrite list_find_app_r.
  - cbn [list_find]. rewrite decide_True by exact He. cbn.
    rewrite ?Nat.add_0_r. reflexivity.
  - apply get_thread_entry_None. exact Hfresh.
Qed.

Lemma delete_snoc {A : Type} (l : list A) (x : A) : delete (length l) (l ++ [x]) = l.
Proof.
  rewrite delete_take_drop. rewrite take_app_length.
  rewrite drop_ge by (rewrite length_app; cbn; lia). apply app_nil_r.
Qed.

(** A new thread that gets a frame, sets up its stack and registers
    itself: it takes the lowest free slot, maps its frame there and puts one
    entry for its tid at the back of the table. *)
Lemma start_pthread_registers (tid : Z) (a : nat) (args : thread_create_args)
  (pcb : process) (ah : gmap nat thread_create_args) (js : gmap nat join_status)
  (pd : gmap Z (Z * bool)) (kpage : Z) (offset : nat) (js_alloc : option nat) :
  length (offsets pcb) = NOFFSETS ->
  offsets pcb !! offset = Some false ->
  (forall j, (j < offset)%nat -> offsets pcb !! j = Some true) ->
  pagedir pcb = Some pd -> pd !! (PHYS_BASE - Z.of_nat offset * PGSIZE) = None ->
  ah !! a = Some args ->
  tid ∉ ute_tid <$> user_thread_list pcb ->
  let upage := PHYS_BASE - Z.of_nat offset * PGSIZE in
  let e := mkEntry (Some tid) tid false false true kpage upage in
  let t := mkThread tid kpage upage (Z.of_nat offset) js_alloc in
  exists pcb1 ah1 pcb2,
    start_pthread_begin a pcb ah (Some kpage) true = Ret (true, pcb1, ah1) /\
    start_pthread_finish tid a pcb1 ah1 js true js_alloc
    = Ret (pcb2,
           match js_alloc with
           | Some b => <[b := mkJoin tid false 0 2 true]> js
           | None => js
           end, t) /\
    user_thread_list pcb2 = user_thread_list pcb ++ [e] /\
    offsets pcb2 = <[offset := true]> (offsets pcb) /\
    pagedir pcb2 = Some (<[upage := (kpage, true)]> pd) /\
    main_thread pcb2 = main_thread pcb /\
    process_thread_lock pcb2 = process_thread_lock pcb /\
    forall live, bitmap_inv pcb live -> bitmap_inv pcb2 (t :: live).
Proof.
  intros Hlen Hfree Hlow Hpd Hun Hah Hfresh upage e t.
  destruct (setup_thread_runs args pcb pd kpage 0 offset Hlen Hfree Hlow Hpd Hun)
    as (r & Hrun & Hsucc & _ & _ & _ & Hpd1 & Hoffs1 & Hk & Hu & Ho).
  fold upage in Hpd1, Hu.
  destruct (setup_thread_success_inv args pcb kpage true 0 r Hlen Hrun Hsucc)
    as (k & pd0 & _ & _ & _ & _ & _ & _ & Hpcb).
  assert (Hl1 : user_thread_list (sr_pcb r) = user_thread_list pcb)
    by (rewrite Hpcb; reflexivity).
  assert (Hm1 : main_thread (sr_pcb r) = main_thread pcb) by (rewrite Hpcb; reflexivity).
  assert (Hlk1 : process_thread_lock (sr_pcb r) = process_thread_lock pcb)
    by (rewrite Hpcb; reflexivity).
  set (args1 := set_args_success true (sr_args r)).
  assert (Hbegin : start_pthread_begin a pcb ah (Some kpage) true
                   = Ret (true, sr_pcb r, <[a := args1]> ah)).
  { unfold start_pthread_begin. rewrite Hah, Hrun. cbn [mbind outcome_bind].
    rewrite Hsucc. reflexivity. }
  assert (Hnone : get_thread_entry tid (user_thread_list (sr_pcb r)) = None).
  { rewrite Hl1. apply get_thread_entry_None. exact Hfresh. }
  pose proof (start_pthread_finish_fresh tid a (sr_pcb r) (<[a := args1]> ah) js js_alloc
                args1 (lookup_insert_eq _ _ _) Hnone) as Hfin.
  cbn zeta in Hfin.
  assert (Hk1 : a_kpage args1 = kpage) by exact Hk.
  assert (Hu1 : a_upage args1 = upage) by exact Hu.
  assert (Ho1 : a_offset args1 = Z.of_nat offset) by exact Ho.
  rewrite Hk1, Hu1, Ho1, Hl1 in Hfin. fold e t in Hfin.
  set (pcbe := set_user_thread_list (user_thread_list pcb ++ [e]) (sr_pcb r)) in *.
  set (pcb2 := match js_alloc with
               | Some b => set_join_statuses (b :: join_statuses pcbe) pcbe
               | None => pcbe
               end) in *.
  exists (sr_pcb r), (<[a := args1]> ah), pcb2.
  split; [exact Hbegin|]. split; [exact Hfin|].
  split; [unfold pcb2; destruct js_alloc; reflexivity|].
  split; [unfold pcb2; destruct js_alloc; exact Hoffs1|].
  split; [unfold pcb2; destruct js_alloc; exact Hpd1|].
  split; [unfold pcb2; destruct js_alloc; exact Hm1|].
  split; [unfold pcb2; destruct js_alloc; exact Hlk1|].
  intros live Hinv.
  pose proof (setup_thread_success_bitmap_inv args pcb live kpage true 0 r tid js_alloc
                Hlen Hinv Hrun Hsucc) as Hinv1.
  rewrite Hk, Hu, Ho in Hinv1.
  apply (bitmap_inv_ext (sr_pcb r)); [|  | exact Hinv1];
    unfold pcb2; destruct js_alloc; reflexivity.
Qed.

(** X4.  A stack slot goes round.  A new thread that sets up its stack and
    registers itself takes the lowest free slot of the bitmap and maps its
    frame there; when it later calls [pthread_exit], with the process
    thread lock free, the bitmap, the page directory and the user-thread
    table are again what they were before the thread started, the invariant
    of the bitmap holds for the threads that were there before, and the
    next [get_lowest_offset] hands out the same slot once more. *)
Theorem thread_slot_lifecycle (tid : Z) (a : nat) (args : thread_create_args)
  (pcb : process) (ah : gmap nat thread_create_args) (js : gmap nat join_status)
  (live : list thread) (pd : gmap Z (Z * bool)) (kpage : Z) (offset : nat)
  (js_alloc : option nat) :
  length (offsets pcb) = NOFFSETS -> bitmap_inv pcb live ->
  offsets pcb !! offset = Some false ->
  (forall j, (j < offset)%nat -> offsets pcb !! j = Some true) ->
  pagedir pcb = Some pd -> pd !! (PHYS_BASE - Z.of_nat offset * PGSIZE) = None ->
  ah !! a = Some args ->
  tid <> main_thread pcb -> tid ∉ ute_tid <$> user_thread_list pcb ->
  process_thread_lock pcb = None ->
  exists pcb1 ah1 pcb2 js2 t pcb3 js3,
    start_pthread_begin a pcb ah (Some kpage) true = Ret (true, pcb1, ah1) /\
    start_pthread_finish tid a pcb1 ah1 js true js_alloc = Ret (pcb2, js2, t) /\
    t = mkThread tid kpage (PHYS_BASE - Z.of_nat offset * PGSIZE) (Z.of_nat offset)
          js_alloc /\
    offsets pcb2 = <[offset := true]> (offsets pcb) /\
    pagedir pcb2 = Some (<[PHYS_BASE - Z.of_nat offset * PGSIZE := (kpage, true)]> pd) /\
    get_thread_entry tid (user_thread_list pcb2)
    = Some (length (user_thread_list pcb),
            mkEntry (Some tid) tid false false true kpage
              (PHYS_BASE - Z.of_nat offset * PGSIZE)) /\
    bitmap_inv pcb2 (t :: live) /\
    pthread_exit t pcb2 js2 = ThreadExits pcb3 js3 /\
    offsets pcb3 = offsets pcb /\ pagedir pcb3 = Some pd /\
    user_thread_list pcb3 = user_thread_list pcb /\
    bitmap_inv pcb3 live /\
    get_lowest_offset (offsets pcb3) = Ret (offset, offsets pcb2).
Proof.
  intros Hlen Hinv Hfree Hlow Hpd Hun Hah Hmain Hfresh Hlock.
  destruct (start_pthread_registers tid a args pcb ah js pd kpage offset js_alloc
              Hlen Hfree Hlow Hpd Hun Hah Hfresh)
    as (pcb1 & ah1 & pcb2 & Hbegin & Hfin & Hl2 & Hoffs2 & Hpd2 & Hm2 & Hlk2 & Hinv2).
  rewrite Hlock in Hlk2.
  set (upage := PHYS_BASE - Z.of_nat offset * PGSIZE) in *.
  set (e := mkEntry (Some tid) tid false false true kpage upage) in *.
  set (t := mkThread tid kpage upage (Z.of_nat offset) js_alloc) in *.
  set (js2 := match js_alloc with
              | Some b => <[b := mkJoin tid false 0 2 true]> js
              | None => js
              end) in *.
  assert (Hfind2 : get_thread_entry tid (user_thread_list pcb2)
                   = Some (length (user_thread_list pcb), e)).
  { rewrite Hl2. apply get_thread_entry_snoc; [exact Hfresh | reflexivity]. }
  assert (Hkn : (offset < NOFFSETS)%nat).
  { rewrite <- Hlen. eapply lookup_lt_Some. exact Hfree. }
  assert (Hup : exists js3, match js_alloc with
                            | Some b => sema_up_join b js2 = Ret js3
                            | None => js3 = js2
                            end).
  { unfold js2. destruct js_alloc as [b|]; [|eexists; reflexivity].
    unfold sema_up_join. rewrite lookup_insert_eq. eexists. reflexivity. }
  destruct Hup as [js3 Hup].
  set (pcb3 := set_process_thread_lock None
                 (set_offsets (<[offset := false]> (offsets pcb2))
                    (set_process_thread_lock (Some tid)
                       (set_pagedir (Some (delete upage (<[upage := (kpage, true)]> pd)))
                          (set_user_thread_list
                             (delete (length (user_thread_list pcb)) (user_thread_list pcb2))
                             pcb2))))).
  assert (Hexit : pthread_exit t pcb2 js2 = ThreadExits pcb3 js3).
  { unfold pthread_exit. cbn [t_tid t t_upage].
    rewrite Hm2, bool_decide_eq_false_2 by exact Hmain.
    rewrite Hfind2. cbn [pagedir set_user_thread_list]. rewrite Hpd2.
    cbn [process_thread_lock set_pagedir set_user_thread_list]. rewrite Hlk2.
    cbn [lock_acquire]. unfold pthread_exit_finish. cbn [t_offset t t_tid t_join_status].
    rewrite bool_decide_eq_true_2 by lia.
    cbn [process_thread_lock set_offsets set_process_thread_lock lock_release].
    rewrite decide_True by reflexivity. rewrite Nat2Z.id.
    cbn [offsets set_process_thread_lock set_pagedir set_user_thread_list].
    fold pcb3. destruct js_alloc as [b|].
    - rewrite Hup. reflexivity.
    - rewrite Hup. reflexivity. }
  assert (Hoffs3 : offsets pcb3 = offsets pcb).
  { unfold pcb3. cbn [offsets set_process_thread_lock set_offsets].
    rewrite Hoffs2, list_insert_insert_eq. apply list_insert_id. exact Hfree. }
  assert (Hpd3 : pagedir pcb3 = Some pd).
  { unfold pcb3. cbn [pagedir set_process_thread_lock set_offsets set_pagedir].
    f_equal. apply delete_insert_id. exact Hun. }
  exists pcb1, ah1, pcb2, js2, t, pcb3, js3.
  split; [exact Hbegin|]. split; [exact Hfin|]. split; [reflexivity|].
  split; [exact Hoffs2|]. split; [exact Hpd2|]. split; [exact Hfind2|].
  split; [exact (Hinv2 live Hinv)|].
  split; [exact Hexit|]. split; [exact Hoffs3|]. split; [exact Hpd3|].
  split.
  { unfold pcb3.
    cbn [user_thread_list set_process_thread_lock set_offsets set_pagedir
         set_user_thread_list].
    rewrite Hl2. apply delete_snoc. }
  split.
  { apply (bitmap_inv_ext pcb); [exact Hoffs3 | rewrite Hpd3, Hpd; reflexivity | exact Hinv]. }
  rewrite Hoffs3, Hoffs2. apply get_lowest_offset_eq; assumption.
Qed.

Lemma thread_slot_lifecycle_witness :
  exists pcb1 ah1 pcb2 js2 pcb3 js3,
    start_pthread_begin 0 (booted_pcb 1 ∅) {[0%nat := mkArgs 4096 8192 7 false 0 0 0]}
      (Some 77) true = Ret (true, pcb1, ah1) /\
    start_pthread_finish 5 0 pcb1 ah1 ∅ true (Some 1%nat)
    = Ret (pcb2, js2, mkThread 5 77 (PHYS_BASE - 2 * PGSIZE) 2 (Some 1%nat)) /\
    offsets pcb2 = <[2%nat := true]> initial_offsets /\
    pthread_exit (mkThread 5 77 (PHYS_BASE - 2 * PGSIZE) 2 (Some 1%nat)) pcb2 js2
    = ThreadExits pcb3 js3 /\
    offsets pcb3 = initial_offsets /\ pagedir pcb3 = Some ∅ /\
    user_thread_list pcb3 = [mkEntry (Some 1) 1 false false true 0 0] /\
    get_lowest_offset (offsets pcb3) = Ret (2%nat, offsets pcb2).
Proof.
  destruct (thread_slot_lifecycle 5 0%nat (mkArgs 4096 8192 7 false 0 0 0) (booted_pcb 1 ∅)
              {[0%nat := mkArgs 4096 8192 7 false 0 0 0]} ∅ [] ∅ 77 2%nat (Some 1%nat))
    as (pcb1 & ah1 & pcb2 & js2 & t & pcb3 & js3 & Hbegin & Hfin & -> & Hoffs2 & _ & _ & _
        & Hexit & Hoffs3 & Hpd3 & Hl3 & _ & Hget).
  - reflexivity.
  - apply booted_pcb_bitmap_inv.
  - reflexivity.
  - intros [|[|j]] Hj; [reflexivity | reflexivity | lia].
  - reflexivity.
  - apply lookup_empty.
  - apply lookup_singleton_eq.
  - discriminate.
  - cbn. intros Hin. apply list_elem_of_singleton in Hin. discriminate Hin.
  - reflexivity.
  - exists pcb1, ah1, pcb2, js2, pcb3, js3.
    split; [exact Hbegin|]. split; [exact Hfin|]. split; [exact Hoffs2|].
    split; [exact Hexit|]. split; [exact Hoffs3|]. split; [exact Hpd3|].
    split; [exact Hl3 | exact Hget].
Defined.

(** X10.  When the new thread cannot set up its stack it publishes
    failure and exits without registering; [pthread_execute] then adds no
    entry, yet it returns the tid that [thread_create] gave, not
    [TID_ERROR].  A [pthread_join] on that tid finds no join-status: with
    the process thread lock free it returns [TID_ERROR] at once, and while
    another thread holds the lock it sleeps on the lock. *)
Theorem pthread_execute_failed_setup (cur tid : Z) (a : nat) (entry_ok : bool)
  (pcb pcb1 : process) (ah ah1 : gmap nat thread_create_args)
  (js : gmap nat join_status) (palloc : option Z) (pt_ok : bool) :
  tid <> TID_ERROR ->
  (forall b, b ∈ join_statuses pcb ->
     exists jb, js !! b = Some jb /\ (js_tid jb <> tid \/ js_waited_on jb = true)) ->
  start_pthread_begin a pcb ah palloc pt_ok = Ret (false, pcb1, ah1) ->
  pthread_execute_end cur tid a entry_ok pcb1 ah1 = Returns tid (pcb1, delete a ah1) /\
  user_thread_list pcb1 = user_thread_list pcb /\
  (process_thread_lock pcb = None ->
   pthread_join cur tid pcb1 js = Returns TID_ERROR (pcb1, js)) /\
  (forall holder, process_thread_lock pcb = Some holder -> holder <> cur ->
   pthread_join cur tid pcb1 js = Sleeps OnProcessThreadLock (pcb1, js)).
Proof.
  intros Htid Hjs. unfold start_pthread_begin.
  destruct (ah !! a) as [args|]; [|discriminate].
  pose proof (setup_thread_frame args pcb palloc pt_ok 0) as Hframe.
  destruct (setup_thread args pcb palloc pt_ok 0) as [r| | |];
    cbn [mbind outcome_bind]; try discriminate.
  destruct (Hframe r eq_refl) as (Hl & Hj & Hlk).
  intros Hr. inversion Hr as [[Hs Hp Ha]]. clear Hr. subst pcb1 ah1.
  split.
  { unfold pthread_execute_end. rewrite bool_decide_eq_true_2 by exact Htid.
    rewrite lookup_insert_eq. cbn [a_success set_args_success]. rewrite Hs. reflexivity. }
  split; [exact Hl|]. split.
  - intros Hlock. rewrite pthread_join_lock_free by (rewrite Hlk; exact Hlock).
    rewrite Hj. rewrite (find_join_none js tid _ Hjs). reflexivity.
  - intros holder Hlock Hne. apply (pthread_join_lock_held cur holder); [|exact Hne].
    rewrite Hlk. exact Hlock.
Qed.

Lemma pthread_execute_failed_setup_witness :
  pthread_execute_end 1 5 0 true threaded_pcb
    (<[0%nat := set_args_success false (mkArgs 4096 8192 7 false 0 0 0)]>
       {[0%nat := mkArgs 4096 8192 7 false 0 0 0]})
  = Returns 5
      (threaded_pcb,
       delete 0%nat
         (<[0%nat := set_args_success false (mkArgs 4096 8192 7 false 0 0 0)]>
            {[0%nat := mkArgs 4096 8192 7 false 0 0 0]})) /\
  pthread_join 1 5 threaded_pcb
    {[ 0%nat := mkJoin 1 false 0 0 false; 1%nat := mkJoin 6 false 0 2 true ]}
  = Returns TID_ERROR
      (threaded_pcb, {[ 0%nat := mkJoin 1 false 0 0 false; 1%nat := mkJoin 6 false 0 2 true ]}).
Proof.
  destruct (pthread_execute_failed_setup 1 5 0%nat true threaded_pcb threaded_pcb
              {[0%nat := mkArgs 4096 8192 7 false 0 0 0]}
              (<[0%nat := set_args_success false (mkArgs 4096 8192 7 false 0 0 0)]>
                 {[0%nat := mkArgs 4096 8192 7 false 0 0 0]})
              {[ 0%nat := mkJoin 1 false 0 0 false; 1%nat := mkJoin 6 false 0 2 true ]}
              None true)
    as (Hend & _ & Hjoin & _).
  - discriminate.
  - intros b Hb. cbn in Hb.
    apply elem_of_cons in Hb. destruct Hb as [->|Hb].
    + eexists. split; [reflexivity|]. left. discriminate.
    + apply list_elem_of_singleton in Hb. subst b.
      eexists. split; [reflexivity|]. left. discriminate.
  - unfold start_pthread_begin. rewrite lookup_singleton_eq. reflexivity.
  - split; [exact Hend | apply Hjoin; reflexivity].
Defined.

(** X11.  [pthread_exit] sends the main thread to [pthread_exit_main] and
    takes nothing out itself.  A thread that has no entry in the
    user-thread table follows the null pointer [get_thread_entry] returns.
    Any other thread, in a table with one entry per tid, takes its own
    entry out, and only that one, and unmaps its stack page: no entry is
    found for its tid afterwards and every other tid has the entry it had.
    With the process thread lock free the thread then clears its bit and
    gets to [thread_exit]; while another thread holds the lock it goes to
    sleep with its entry gone, its stack unmapped and its bit still set. *)
Theorem pthread_exit_removes_own_entry (t : thread) (pcb : process)
  (js : gmap nat join_status) (pd : gmap Z (Z * bool)) :
  thread_entries_ok pcb -> pagedir pcb = Some pd ->
  (t_tid t = main_thread pcb -> pthread_exit t pcb js = ExitsAsMain pcb js) /\
  (t_tid t <> main_thread pcb -> t_tid t ∉ ute_tid <$> user_thread_list pcb ->
   pthread_exit t pcb js = ExitAborts Stray) /\
  (t_tid t <> main_thread pcb -> t_tid t ∈ ute_tid <$> user_thread_list pcb ->
   exists pcb1,
     get_thread_entry (t_tid t) (user_thread_list pcb1) = None /\
     (forall tid, tid <> t_tid t ->
        snd <$> get_thread_entry tid (user_thread_list pcb1)
        = snd <$> get_thread_entry tid (user_thread_list pcb)) /\
     thread_entries_ok pcb1 /\
     pagedir pcb1 = Some (delete (t_upage t) pd) /\
     offsets pcb1 = offsets pcb /\
     (forall holder, process_thread_lock pcb = Some holder -> holder <> t_tid t ->
        pthread_exit t pcb js = ExitSleeps OnProcessThreadLock pcb1 js) /\
     (process_thread_lock pcb = None -> 0 <= t_offset t < Z.of_nat NOFFSETS ->
      (forall b, t_join_status t = Some b -> is_Some (js !! b)) ->
      exists pcb' js',
        pthread_exit t pcb js = ThreadExits pcb' js' /\
        user_thread_list pcb' = user_thread_list pcb1 /\
        pagedir pcb' = pagedir pcb1 /\
        offsets pcb' = <[Z.to_nat (t_offset t) := false]> (offsets pcb) /\
        process_thread_lock pcb' = None)).
Proof.
  intros Hok Hpd. split; [|split].
  - intros Hmain. unfold pthread_exit.
    rewrite bool_decide_eq_true_2 by exact Hmain. reflexivity.
  - intros Hmain Hnotin. unfold pthread_exit.
    rewrite bool_decide_eq_false_2 by exact Hmain.
    apply get_thread_entry_None in Hnotin. rewrite Hnotin. reflexivity.
  - intros Hmain Hin.
    destruct (get_thread_entry (t_tid t) (user_thread_list pcb)) as [[i e]|] eqn:Hfind.
    2: { apply get_thread_entry_None in Hfind. contradiction. }
    destruct (get_thread_entry_taken_out _ _ i e Hok Hfind) as (Hgone & Hothers & Hnd).
    set (pcb1 := set_pagedir (Some (delete (t_upage t) pd))
                   (set_user_thread_list (delete i (user_thread_list pcb)) pcb)).
    assert (Hrun : pthread_exit t pcb js
                   = match lock_acquire (t_tid t) (process_thread_lock pcb) with
                     | AssertFails => ExitAborts Panic
                     | MustSleep => ExitSleeps OnProcessThreadLock pcb1 js
                     | Acquired =>
                         pthread_exit_finish t
                           (set_process_thread_lock (Some (t_tid t)) pcb1) js
                     end).
    { unfold pthread_exit. rewrite bool_decide_eq_false_2 by exact Hmain.
      rewrite Hfind. cbn [pagedir set_user_thread_list]. rewrite Hpd. reflexivity. }
    exists pcb1. split; [exact Hgone|]. split; [exact Hothers|]. split; [exact Hnd|].
    split; [reflexivity|]. split; [reflexivity|]. split.
    + intros holder Hlock Hne. rewrite Hrun, Hlock. cbn [lock_acquire].
      rewrite decide_False by exact Hne. reflexivity.
    + intros Hlock Hrange Hjs. rewrite Hrun, Hlock. cbn [lock_acquire].
      unfold pthread_exit_finish. rewrite bool_decide_eq_true_2 by exact Hrange.
      cbn [process_thread_lock set_offsets set_process_thread_lock lock_release].
      rewrite decide_True by reflexivity.
      destruct (t_join_status t) as [b|].
      * destruct (Hjs b eq_refl) as [jb Hjb]. unfold sema_up_join. rewrite Hjb.
        eexists _, _. split; [reflexivity|]. repeat split; reflexivity.
      * eexists _, _. split; [reflexivity|]. repeat split; reflexivity.
Qed.

Lemma pthread_exit_removes_own_entry_witness :
  exists pcb1 ah1 pcb2 js2 pcb' js',
    start_pthread_begin 0 (booted_pcb 1 ∅) {[0%nat := mkArgs 4096 8192 7 false 0 0 0]}
      (Some 77) true = Ret (true, pcb1, ah1) /\
    start_pthread_finish 5 0 pcb1 ah1 ∅ true (Some 1%nat)
    = Ret (pcb2, js2, mkThread 5 77 (PHYS_BASE - 2 * PGSIZE) 2 (Some 1%nat)) /\
    pthread_exit (mkThread 5 77 (PHYS_BASE - 2 * PGSIZE) 2 (Some 1%nat)) pcb2 js2
    = ThreadExits pcb' js' /\
    get_thread_entry 5 (user_thread_list pcb') = None /\
    snd <$> get_thread_entry 1 (user_thread_list pcb')
    = Some (mkEntry (Some 1) 1 false false true 0 0) /\
    pthread_exit (mkThread 1 0 0 0 (Some 0%nat)) pcb2 js2 = ExitsAsMain pcb2 js2.
Proof.
  destruct (start_pthread_registers 5 0%nat (mkArgs 4096 8192 7 false 0 0 0) (booted_pcb 1 ∅)
              {[0%nat := mkArgs 4096 8192 7 false 0 0 0]} ∅ ∅ 77 2%nat (Some 1%nat))
    as (pcb1 & ah1 & pcb2 & Hbegin & Hfin & Hl2 & _ & Hpd2 & Hm2 & Hlk2 & _).
  { reflexivity. }
  { reflexivity. }
  { intros [|[|j]] Hj; [reflexivity | reflexivity | lia]. }
  { reflexivity. }
  { apply lookup_empty. }
  { apply lookup_singleton_eq. }
  { cbn. intros Hin. apply list_elem_of_singleton in Hin. discriminate Hin. }
  set (js2 := <[1%nat := mkJoin 5 false 0 2 true]> (∅ : gmap nat join_status)) in *.
  assert (Hok : thread_entries_ok pcb2).
  { unfold thread_entries_ok. rewrite Hl2. cbn.
    apply (bool_decide_unpack (NoDup [1; 5])). exact I. }
  destruct (pthread_exit_removes_own_entry (mkThread 5 77 (PHYS_BASE - 2 * PGSIZE) 2 (Some 1%nat))
              pcb2 js2 _ Hok Hpd2)
    as (_ & _ & Hown).
  destruct (pthread_exit_removes_own_entry (mkThread 1 0 0 0 (Some 0%nat)) pcb2 js2 _ Hok Hpd2)
    as (Hmain & _).
  destruct Hown as (pcbm & Hgone & Hothers & _ & _ & _ & _ & Hexit).
  - cbn [t_tid]. rewrite Hm2. discriminate.
  - cbn [t_tid]. rewrite Hl2. cbn. apply (bool_decide_unpack (5 ∈ [1; 5])). exact I.
  - destruct Hexit as (pcb' & js' & Hrun & Hl & _).
    + rewrite Hlk2. reflexivity.
    + cbn. unfold NOFFSETS. lia.
    + intros b Hb. inversion Hb; subst b. unfold js2. rewrite lookup_insert_eq. eauto.
    + exists pcb1, ah1, pcb2, js2, pcb', js'.
      split; [exact Hbegin|]. split; [exact Hfin|]. split; [exact Hrun|].
      rewrite Hl. split; [exact Hgone|]. split.
      * rewrite (Hothers 1) by discriminate. rewrite Hl2. reflexivity.
      * apply Hmain. cbn [t_tid]. rewrite Hm2. reflexivity.
Defined.

End ThreadTable.

Section UserSync.

Lemma lock_slot_of_nat (i : nat) : (i < 256)%nat -> lock_slot (Z.of_nat i) = i.
Proof. intros Hi. unfold lock_slot. rewrite Z.mod_small by lia. apply Nat2Z.id. Qed.

Lemma find_uninitialized_lock (l : list thread_lock_t) (i : nat) (li : thread_lock_t) :
  l !! i = Some li -> tl_initialized li = false ->
  (forall j lj, (j < i)%nat -> l !! j = Some lj -> tl_initialized lj = true) ->
  list_find (fun x => tl_initialized x = false) l = Some (i, li).
Proof.
  intros Hi Hfree Hlow. apply list_find_Some. split; [exact Hi|]. split; [exact Hfree|].
  intros j lj Hj Hlt. rewrite (Hlow j lj Hlt Hj). discriminate.
Qed.

(** X12.  [sys_lock_init] hands out the first slot of the lock table that
    is not initialized: it marks that slot initialized with the caller as
    owner and a free primitive lock, stores the index of the slot as the
    handle, changes no other slot, and returns true.  The handle names that
    slot again in [sys_lock_acquire] and [sys_lock_release], and a later
    [sys_lock_init] returns a different handle. *)
Theorem sys_lock_init_first_free_slot (cur cur' : Z) (pcb : process) (i : nat)
  (li : thread_lock_t) :
  (length (locks pcb) <= 256)%nat ->
  locks pcb !! i = Some li -> tl_initialized li = false ->
  (forall j lj, (j < i)%nat -> locks pcb !! j = Some lj -> tl_initialized lj = true) ->
  process_thread_lock pcb = None ->
  let pcb1 := set_locks (<[i := mkLock None cur true]> (locks pcb)) pcb in
  sys_lock_init cur false pcb = Returns (true, Some (Z.of_nat i)) pcb1 /\
  lock_slot (Z.of_nat i) = i /\
  (forall j, j <> i -> locks pcb1 !! j = locks pcb !! j) /\
  (forall h pcb2, sys_lock_init cur' false pcb1 = Returns (true, Some h) pcb2 ->
     h <> Z.of_nat i).
Proof.
  intros Hlen Hi Hfree Hlow Hlock pcb1.
  pose proof (lookup_lt_Some _ _ _ Hi) as Hlt.
  split.
  { unfold sys_lock_init.
    rewrite (find_uninitialized_lock _ i li Hi Hfree Hlow), Hlock. reflexivity. }
  split; [apply lock_slot_of_nat; lia|]. split.
  { intros j Hj. unfold pcb1. cbn [locks set_locks].
    apply list_lookup_insert_ne. congruence. }
  intros h pcb2. unfold sys_lock_init.
  destruct (list_find _ (locks pcb1)) as [[k lk]|] eqn:Hfind; [|discriminate].
  apply list_find_Some in Hfind. destruct Hfind as (Hk & Hkfree & _).
  destruct (lock_acquire cur' (process_thread_lock pcb1)); try discriminate.
  intros H. inversion H; subst h. intros Heq. apply Nat2Z.inj in Heq. subst k.
  unfold pcb1 in Hk. cbn [locks set_locks] in Hk.
  rewrite list_lookup_insert_eq in Hk by exact Hlt.
  inversion Hk; subst lk. discriminate Hkfree.
Qed.

Lemma sys_lock_init_first_free_slot_witness :
  sys_lock_init 3 false
    (set_locks (<[0%nat := mkLock None 9 true]> (locks blank_pcb)) blank_pcb)
  = Returns (true, Some 1)
      (set_locks
         (<[1%nat := mkLock None 3 true]> (<[0%nat := mkLock None 9 true]> (locks blank_pcb)))
         (set_locks (<[0%nat := mkLock None 9 true]> (locks blank_pcb)) blank_pcb)).
Proof.
  refine (proj1 (sys_lock_init_first_free_slot 3 4
                   (set_locks (<[0%nat := mkLock None 9 true]> (locks blank_pcb)) blank_pcb)
                   1%nat (mkLock None 0 false) _ eq_refl eq_refl _ eq_refl)).
  - cbn. lia.
  - intros [|j] lj Hj Hl; [|lia]. cbn in Hl. inversion Hl. reflexivity.
Defined.

(** X13.  Neither [sys_lock_init] nor [sys_sema_init] ever reports a full
    table.  The loop over the slots counts in a [uint8_t], which is always
    below 256: called with a pointer that is not null (and a value that is
    not negative), the functions return true or do not return, and with
    every slot initialized they go round the table for ever. *)
Theorem sync_init_never_reports_full (cur val : Z) (pcb : process) :
  (forall r pcb', sys_lock_init cur false pcb = Returns r pcb' -> r.1 = true) /\
  (Forall (fun l => tl_initialized l = true) (locks pcb) ->
   sys_lock_init cur false pcb = Aborts Hang) /\
  (0 <= val ->
   forall r pcb', sys_sema_init cur false val pcb = Returns r pcb' -> r.1 = true) /\
  (0 <= val -> Forall (fun s => tsm_initialized s = true) (semaphores pcb) ->
   sys_sema_init cur false val pcb = Aborts Hang).
Proof.
  split; [|split; [|split]].
  - intros r pcb'. unfold sys_lock_init.
    destruct (list_find _ (locks pcb)) as [[i l]|]; [|discriminate].
    destruct (lock_acquire cur (process_thread_lock pcb)); try discriminate.
    intros H. inversion H. reflexivity.
  - intros Hall. unfold sys_lock_init.
    assert (list_find (fun l => tl_initialized l = false) (locks pcb) = None) as ->;
      [|reflexivity].
    apply list_find_None. eapply Forall_impl; [exact Hall|].
    intros l Hl. cbn in Hl. rewrite Hl. discriminate.
  - intros Hval r pcb'. unfold sys_sema_init.
    destruct (Z.ltb_spec val 0); [lia|]. cbn [orb].
    destruct (list_find _ (semaphores pcb)) as [[i l]|]; [|discriminate].
    destruct (lock_acquire cur (process_thread_lock pcb)); try discriminate.
    intros Hret. inversion Hret. reflexivity.
  - intros Hval Hall. unfold sys_sema_init.
    destruct (Z.ltb_spec val 0); [lia|]. cbn [orb].
    assert (list_find (fun s => tsm_initialized s = false) (semaphores pcb) = None) as ->;
      [|reflexivity].
    apply list_find_None. eapply Forall_impl; [exact Hall|].
    intros l Hl. cbn in Hl. rewrite Hl. discriminate.
Qed.

Lemma sync_init_never_reports_full_witness :
  sys_lock_init 3 false (set_locks (replicate 256 (mkLock None 1 true)) blank_pcb)
  = Aborts Hang /\
  sys_sema_init 3 false 0 (set_semaphores (replicate 256 (mkSema 0 true)) blank_pcb)
  = Aborts Hang.
Proof.
  split.
  - apply (sync_init_never_reports_full 3 0
             (set_locks (replicate 256 (mkLock None 1 true)) blank_pcb)).
    apply Forall_replicate. reflexivity.
  - apply (sync_init_never_reports_full 3 0
             (set_semaphores (replicate 256 (mkSema 0 true)) blank_pcb)).
    + lia.
    + apply Forall_replicate. reflexivity.
Defined.

(** X14.  One round on an initialized lock that nobody holds, by a thread
    with a tid other than 0: [sys_lock_acquire] returns true and records
    the caller as holder and owner; a second [sys_lock_acquire] by the same
    thread returns false and changes nothing; [sys_lock_release] returns
    true, frees the primitive lock and clears the owner; a second
    [sys_lock_release] returns false and changes nothing. *)
Theorem sys_lock_acquire_release_cycle (cur h : Z) (pcb : process) (tid0 : Z) :
  cur <> 0 ->
  locks pcb !! lock_slot h = Some (mkLock None tid0 true) ->
  process_thread_lock pcb = None ->
  let held := set_locks (<[lock_slot h := mkLock (Some cur) cur true]> (locks pcb)) pcb in
  let free := set_locks (<[lock_slot h := mkLock None 0 true]> (locks pcb)) pcb in
  sys_lock_acquire cur (Some h) pcb = Returns true held /\
  sys_lock_acquire cur (Some h) held = Returns false held /\
  sys_lock_release cur (Some h) held = Returns true free /\
  sys_lock_release cur (Some h) free = Returns false free.
Proof.
  intros Hcur Hslot Hlock held free.
  pose proof (lookup_lt_Some _ _ _ Hslot) as Hlt.
  assert (Hheld : locks held !! lock_slot h = Some (mkLock (Some cur) cur true)).
  { unfold held. cbn [locks set_locks]. apply list_lookup_insert_eq. exact Hlt. }
  assert (Hfree : locks free !! lock_slot h = Some (mkLock None 0 true)).
  { unfold free. cbn [locks set_locks]. apply list_lookup_insert_eq. exact Hlt. }
  split; [|split; [|split]].
  - unfold sys_lock_acquire. rewrite Hslot. cbn [tl_initialized tl_holder negb].
    unfold lock_held_by_current_thread. rewrite bool_decide_eq_false_2 by discriminate.
    rewrite Hlock. cbn [lock_acquire]. unfold sys_lock_acquire_finish.
    cbn [tl_holder lock_acquire tl_initialized locks set_process_thread_lock
         process_thread_lock set_locks lock_release].
    rewrite decide_True by reflexivity.
    unfold held. destruct pcb. cbn in Hlock. subst. reflexivity.
  - unfold sys_lock_acquire. rewrite Hheld. cbn [tl_initialized tl_holder negb].
    unfold lock_held_by_current_thread. rewrite bool_decide_eq_true_2 by reflexivity.
    reflexivity.
  - unfold sys_lock_release. rewrite Hheld. cbn [tl_tid tl_initialized tl_holder negb].
    rewrite bool_decide_eq_true_2 by reflexivity. cbn [negb orb].
    assert (Hl : process_thread_lock held = None) by exact Hlock.
    rewrite Hl. cbn [lock_acquire lock_release].
    rewrite decide_True by reflexivity.
    unfold held, free. cbn [locks set_locks]. rewrite list_insert_insert_eq. reflexivity.
  - unfold sys_lock_release. rewrite Hfree. cbn [tl_tid tl_initialized tl_holder negb].
    rewrite bool_decide_eq_false_2 by congruence. reflexivity.
Qed.

Lemma sys_lock_acquire_release_cycle_witness :
  sys_lock_release 3 (Some 0)
    (set_locks (<[0%nat := mkLock None 0 true]> (<[0%nat := mkLock None 9 true]> (locks blank_pcb)))
       (set_locks (<[0%nat := mkLock None 9 true]> (locks blank_pcb)) blank_pcb))
  = Returns false
      (set_locks (<[0%nat := mkLock None 0 true]> (<[0%nat := mkLock None 9 true]> (locks blank_pcb)))
         (set_locks (<[0%nat := mkLock None 9 true]> (locks blank_pcb)) blank_pcb)).
Proof.
  refine (proj2 (proj2 (proj2
    (sys_lock_acquire_release_cycle 3 0
       (set_locks (<[0%nat := mkLock None 9 true]> (locks blank_pcb)) blank_pcb) 9
       _ eq_refl eq_refl)))).
  discriminate.
Defined.

(** X15.  A contended user lock cannot be handed over.  When a thread
    calls [sys_lock_acquire] on a lock that another thread holds, it goes to
    sleep on the user lock with the process thread lock still in its hands.
    From then on the holder's [sys_lock_release] goes to sleep on the
    process thread lock instead of releasing, and so does a
    [sys_lock_init] by any other thread that finds a free slot; the
    sleeper, woken up, finds the lock held and sleeps again. *)
Theorem contended_lock_acquire_blocks_release (t1 t2 t3 h : Z) (pcb : process)
  (li : thread_lock_t) :
  t1 <> t2 -> t3 <> t2 ->
  locks pcb !! lock_slot h = Some (mkLock (Some t1) t1 true) ->
  process_thread_lock pcb = None ->
  li ∈ locks pcb -> tl_initialized li = false ->
  let pcb' := set_process_thread_lock (Some t2) pcb in
  sys_lock_acquire t2 (Some h) pcb = Sleeps (OnUserLock (lock_slot h)) pcb' /\
  sys_lock_release t1 (Some h) pcb' = Sleeps OnProcessThreadLock pcb' /\
  sys_lock_init t3 false pcb' = Sleeps OnProcessThreadLock pcb' /\
  sys_lock_acquire_finish t2 (lock_slot h) (mkLock (Some t1) t1 true) pcb'
  = Sleeps (OnUserLock (lock_slot h)) pcb'.
Proof.
  intros H12 H32 Hslot Hlock H255 Hfree pcb'.
  assert (Hslot' : locks pcb' !! lock_slot h = Some (mkLock (Some t1) t1 true)) by exact Hslot.
  assert (Hlock' : process_thread_lock pcb' = Some t2) by reflexivity.
  split; [|split; [|split]].
  - unfold sys_lock_acquire. rewrite Hslot. cbn [tl_initialized tl_holder negb].
    unfold lock_held_by_current_thread.
    rewrite bool_decide_eq_false_2 by congruence.
    rewrite Hlock. cbn [lock_acquire]. unfold sys_lock_acquire_finish.
    cbn [tl_holder lock_acquire]. rewrite decide_False by exact H12. reflexivity.
  - unfold sys_lock_release. rewrite Hslot'. cbn [tl_tid tl_initialized negb].
    rewrite bool_decide_eq_true_2 by reflexivity. cbn [negb orb].
    rewrite Hlock'. cbn [lock_acquire]. rewrite decide_False by congruence. reflexivity.
  - unfold sys_lock_init.
    destruct (list_find (fun l => tl_initialized l = false) (locks pcb')) as [[i l]|] eqn:Hfind.
    + rewrite Hlock'. cbn [lock_acquire]. rewrite decide_False by congruence. reflexivity.
    + exfalso. rewrite list_find_None, Forall_forall in Hfind.
      apply (Hfind li); [exact H255 | exact Hfree].
  - unfold sys_lock_acquire_finish. cbn [tl_holder lock_acquire].
    rewrite decide_False by exact H12. reflexivity.
Qed.

Lemma contended_lock_acquire_blocks_release_witness :
  sys_lock_release 3 (Some 0)
    (set_process_thread_lock (Some 4)
       (set_locks (<[0%nat := mkLock (Some 3) 3 true]> (locks blank_pcb)) blank_pcb))
  = Sleeps OnProcessThreadLock
      (set_process_thread_lock (Some 4)
         (set_locks (<[0%nat := mkLock (Some 3) 3 true]> (locks blank_pcb)) blank_pcb)).
Proof.
  refine (proj1 (proj2
    (contended_lock_acquire_blocks_release 3 4 5 0
       (set_locks (<[0%nat := mkLock (Some 3) 3 true]> (locks blank_pcb)) blank_pcb)
       (mkLock None 0 false) _ _ eq_refl eq_refl _ eq_refl))); try discriminate.
  apply list_elem_of_lookup. exists 1%nat. reflexivity.
Defined.

Lemma sema_downs_spec (h : Z) (k : nat) :
  forall (pcb : process) (v : nat),
  semaphores pcb !! lock_slot h = Some (mkSema v true) -> (k <= v)%nat ->
  sema_downs k (Some h) pcb
  = SemaReturns true
      (set_semaphores (<[lock_slot h := mkSema (v - k) true]> (semaphores pcb)) pcb).
Proof.
  induction k as [|k IH]; intros pcb v Hslot Hk; cbn [sema_downs].
  - rewrite Nat.sub_0_r, (list_insert_id _ _ _ Hslot). destruct pcb; reflexivity.
  - unfold sys_sema_down. rewrite Hslot. cbn [tsm_initialized tsm_value negb].
    destruct v as [|v]; [lia|].
    pose proof (lookup_lt_Some _ _ _ Hslot) as Hlt.
    rewrite (IH _ v).
    + cbn [semaphores set_semaphores]. rewrite list_insert_insert_eq.
      replace (S v - S k)%nat with (v - k)%nat by lia. reflexivity.
    + cbn [semaphores set_semaphores]. apply list_lookup_insert_eq. exact Hlt.
    + lia.
Qed.

(** X16.  A user semaphore counts.  [sys_sema_init] with a value
    [val >= 0] takes the first free slot of the semaphore table and returns
    its index as the handle; after that exactly [val] calls of
    [sys_sema_down] on the handle return true without sleeping and the next
    one sleeps; a [sys_sema_up] then lets one more [sys_sema_down] through
    and the semaphore is at zero again. *)
Theorem sys_sema_counts (cur val : Z) (pcb : process) (i : nat) (si : thread_sema_t) :
  0 <= val -> (length (semaphores pcb) <= 256)%nat ->
  semaphores pcb !! i = Some si -> tsm_initialized si = false ->
  (forall j sj, (j < i)%nat -> semaphores pcb !! j = Some sj -> tsm_initialized sj = true) ->
  process_thread_lock pcb = None ->
  let h := Z.of_nat i in
  let at_value (v : nat) := set_semaphores (<[i := mkSema v true]> (semaphores pcb)) pcb in
  sys_sema_init cur false val pcb = Returns (true, Some h) (at_value (Z.to_nat val)) /\
  sema_downs (Z.to_nat val) (Some h) (at_value (Z.to_nat val))
  = SemaReturns true (at_value 0%nat) /\
  sys_sema_down (Some h) (at_value 0%nat) = SemaSleeps i /\
  sys_sema_up (Some h) (at_value 0%nat) = SemaReturns true (at_value 1%nat) /\
  sys_sema_down (Some h) (at_value 1%nat) = SemaReturns true (at_value 0%nat).
Proof.
  intros Hval Hlen Hi Hfree Hlow Hlock h at_value.
  pose proof (lookup_lt_Some _ _ _ Hi) as Hlt.
  assert (Hslot : lock_slot h = i) by (apply lock_slot_of_nat; lia).
  assert (Hat : forall v, semaphores (at_value v) !! lock_slot h = Some (mkSema v true)).
  { intros v. rewrite Hslot. unfold at_value. cbn [semaphores set_semaphores].
    apply list_lookup_insert_eq. exact Hlt. }
  assert (Hset : forall v w,
            set_semaphores (<[i := mkSema w true]> (semaphores (at_value v))) (at_value v)
            = at_value w).
  { intros v w. unfold at_value. cbn [semaphores set_semaphores].
    rewrite list_insert_insert_eq. reflexivity. }
  split; [|split; [|split; [|split]]].
  - unfold sys_sema_init. destruct (Z.ltb_spec val 0); [lia|]. cbn [orb].
    assert (list_find (fun s => tsm_initialized s = false) (semaphores pcb) = Some (i, si))
      as ->.
    { apply list_find_Some. split; [exact Hi|]. split; [exact Hfree|].
      intros j sj Hj Hjlt. rewrite (Hlow j sj Hjlt Hj). discriminate. }
    rewrite Hlock. reflexivity.
  - rewrite (sema_downs_spec h (Z.to_nat val) _ (Z.to_nat val) (Hat _) (Nat.le_refl _)).
    rewrite Nat.sub_diag, Hslot, Hset. reflexivity.
  - unfold sys_sema_down. rewrite Hat. rewrite Hslot. reflexivity.
  - unfold sys_sema_up. rewrite Hat. cbn [tsm_initialized tsm_value negb].
    rewrite Hslot, Hset. reflexivity.
  - unfold sys_sema_down. rewrite Hat. cbn [tsm_initialized tsm_value negb].
    rewrite Hslot, Hset. reflexivity.
Qed.

Lemma sys_sema_counts_witness :
  sema_downs 2 (Some 0)
    (set_semaphores (<[0%nat := mkSema 2 true]> (semaphores blank_pcb)) blank_pcb)
  = SemaReturns true
      (set_semaphores (<[0%nat := mkSema 0 true]> (semaphores blank_pcb)) blank_pcb).
Proof.
  refine (proj1 (proj2
    (sys_sema_counts 3 2 blank_pcb 0%nat (mkSema 0 false) _ _ eq_refl eq_refl _ eq_refl))).
  - lia.
  - cbn. lia.
  - intros j sj Hj. lia.
Defined.

End UserSync.

Section SyscallArguments.

Lemma readable_tail (um : user_memory) (us : Z) (n : nat) :
  readable um us (S n) -> readable um (us + 1) n.
Proof.
  intros H k Hk. specialize (H (S k) ltac:(lia)).
  replace (us + 1 + Z.of_nat k) with (us + Z.of_nat (S k)) by lia. exact H.
Qed.

Lemma readable_cons (um : user_memory) (us : Z) (n : nat) :
  us < PHYS_BASE -> is_Some (um us) -> readable um (us + 1) n -> readable um us (S n).
Proof.
  intros Hlt Hb H [|k] Hk.
  - rewrite Z.add_0_r. split; assumption.
  - specialize (H k ltac:(lia)).
    replace (us + Z.of_nat (S k)) with (us + 1 + Z.of_nat k) by lia. exact H.
Qed.

Lemma copy_in_readable (um : user_memory) (size : nat) :
  forall usrc : Z,
  readable um usrc size -> copy_in um usrc size = Some (user_bytes um usrc size).
Proof.
  induction size as [|n IH]; intros usrc Hr; cbn [copy_in user_bytes]; [reflexivity|].
  destruct (Hr O ltac:(lia)) as [Hlt [b Hb]]. rewrite Z.add_0_r in Hlt, Hb.
  destruct (Z.leb_spec PHYS_BASE usrc); [lia|].
  unfold get_user. rewrite Hb. cbn [default].
  rewrite (IH (usrc + 1)) by (apply readable_tail; exact Hr). reflexivity.
Qed.

Lemma copy_in_Some_readable (um : user_memory) (size : nat) :
  forall (usrc : Z) (bytes : list Z),
  copy_in um usrc size = Some bytes -> readable um usrc size.
Proof.
  induction size as [|n IH]; intros usrc bytes; cbn [copy_in].
  - intros _ k Hk. lia.
  - destruct (Z.leb_spec PHYS_BASE usrc) as [Hge|Hlt]; [discriminate|].
    unfold get_user. destruct (um usrc) as [b|] eqn:Hb; [|discriminate].
    destruct (copy_in um (usrc + 1) n) as [bs|] eqn:Hrest; [|discriminate].
    intros _. apply readable_cons; [exact Hlt | rewrite Hb; eauto |].
    apply (IH _ _ Hrest).
Qed.

Lemma copy_in_unreadable (um : user_memory) (usrc : Z) (size : nat) :
  ~ readable um usrc size -> copy_in um usrc size = None.
Proof.
  intros H. destruct (copy_in um usrc size) as [bs|] eqn:E; [|reflexivity].
  exfalso. apply H. apply (copy_in_Some_readable um size usrc bs E).
Qed.

(** X17.  [copy_in] succeeds exactly when every one of the [size] bytes
    from [usrc] on is below [PHYS_BASE] and mapped, and then it has copied
    exactly those bytes; otherwise it ends the process.  With [size = 0]
    it succeeds for every pointer. *)
Theorem copy_in_exact (um : user_memory) (usrc : Z) (size : nat) (bytes : list Z) :
  (copy_in um usrc size = Some bytes <->
   readable um usrc size /\ bytes = user_bytes um usrc size) /\
  (copy_in um usrc size = None <-> ~ readable um usrc size) /\
  copy_in um usrc 0 = Some [].
Proof.
  split; [|split; [|reflexivity]].
  - split.
    + intros H. pose proof (copy_in_Some_readable um size usrc bytes H) as Hr.
      split; [exact Hr|]. rewrite (copy_in_readable um size usrc Hr) in H. congruence.
    + intros [Hr ->]. apply copy_in_readable. exact Hr.
  - split.
    + intros H Hr. rewrite (copy_in_readable um size usrc Hr) in H. discriminate H.
    + apply copy_in_unreadable.
Qed.

Lemma syscall_table_arity (nr : nat) (k : nat) :
  syscall_table !! nr = Some k -> (k <= 3)%nat.
Proof.
  intros H.
  assert (Hall : Forall (fun k => (k <= 3)%nat) syscall_table).
  { apply (bool_decide_unpack (Forall (fun k => (k <= 3)%nat) syscall_table)). exact I. }
  rewrite Forall_forall in Hall. apply Hall. eapply list_elem_of_lookup_2. exact H.
Qed.

(** X18.  The system-call handler fetches the call number from the word at
    [esp] and, for a call of arity [k], the [k] words above it.  It ends
    the process when the word at [esp] is not readable user memory, when
    the number is not below 25, or when one of the [4 * k] argument bytes is
    not readable; otherwise the implementation receives the [k] argument
    words followed by zeros.  Words above the [k]-th are not read, so they
    need not be mapped.  The assertion on the arity never fails. *)
Theorem syscall_fetch_arguments (um : user_memory) (esp : Z) :
  (~ readable um esp 4 -> syscall_fetch um esp = Ret None) /\
  (readable um esp 4 -> 25 <= user_word32 um esp -> syscall_fetch um esp = Ret None) /\
  (forall k : nat,
     readable um esp 4 ->
     syscall_table !! Z.to_nat (user_word32 um esp) = Some k ->
     (~ readable um (esp + 4) (4 * k) -> syscall_fetch um esp = Ret None) /\
     (readable um (esp + 4) (4 * k) ->
      syscall_fetch um esp
      = Ret (Some (user_word32 um esp,
                   (fun j : nat => if bool_decide (j < k)%nat
                                   then user_word32 um (esp + 4 + 4 * Z.of_nat j)
                                   else 0) <$> [0; 1; 2]%nat)))).
Proof.
  split; [|split].
  - intros Hno. unfold syscall_fetch. rewrite copy_in_unreadable by exact Hno. reflexivity.
  - intros Hr Hbig. unfold syscall_fetch. rewrite (copy_in_readable um 4 esp Hr).
    fold (user_word32 um esp).
    assert (syscall_table !! Z.to_nat (user_word32 um esp) = None) as ->; [|reflexivity].
    apply lookup_ge_None_2. cbn [length syscall_table]. lia.
  - intros k Hr Hk. pose proof (syscall_table_arity _ _ Hk) as Hk3.
    unfold syscall_fetch. rewrite (copy_in_readable um 4 esp Hr).
    fold (user_word32 um esp). rewrite Hk.
    rewrite bool_decide_eq_true_2 by exact Hk3. split.
    + intros Hno. rewrite copy_in_unreadable by exact Hno. reflexivity.
    + intros Hargs. rewrite (copy_in_readable um _ _ Hargs).
      do 2 f_equal. f_equal.
      destruct k as [|[|[|[|k]]]]; [| | | | lia];
        unfold user_word32; cbn;
        replace (esp + 4 + 4 * Z.of_nat 0) with (esp + 4) by lia;
        replace (esp + 4 + 4 * Z.of_nat 1) with (esp + 4 + 1 + 1 + 1 + 1) by lia;
        replace (esp + 4 + 4 * Z.of_nat 2)
          with (esp + 4 + 1 + 1 + 1 + 1 + 1 + 1 + 1 + 1) by lia;
        repeat match goal with
        | |- context [bool_decide ?P] =>
            first [ rewrite (bool_decide_eq_true_2 P) by lia
                  | rewrite (bool_decide_eq_false_2 P) by lia ]
        end;
        unfold load32, load8; cbn; reflexivity.
Qed.

Lemma syscall_fetch_arguments_witness :
  syscall_fetch (fun a => if bool_decide (a = 1000) then Some 99 else Some 0) 1000 = Ret None.
Proof.
  refine (proj1 (proj2 (syscall_fetch_arguments
                          (fun a => if bool_decide (a = 1000) then Some 99 else Some 0)
                          1000)) _ _).
  - intros k Hk. rewrite PHYS_BASE_val. split; [lia|].
    destruct (bool_decide (1000 + Z.of_nat k = 1000)); eauto.
  - vm_compute. discriminate.
Defined.

Lemma copy_in_string_loop_terminated (um : user_memory) (k : nat) :
  forall (n len : nat) (us : Z) (ks : list Z),
  unterminated um us k -> us + Z.of_nat k < PHYS_BASE ->
  um (us + Z.of_nat k) = Some 0 ->
  (k < n)%nat -> (len + k < length ks)%nat ->
  copy_in_string_loop um n len us ks
  = Some (take len ks ++ user_bytes um us k ++ 0 :: drop (S (len + k)) ks).
Proof.
  induction k as [|k IH]; intros n len us ks Hun Hlt Hz Hn Hlen.
  - destruct n as [|n]; [lia|]. cbn [copy_in_string_loop user_bytes app].
    rewrite Z.add_0_r in Hlt, Hz.
    destruct (Z.leb_spec PHYS_BASE us); [lia|].
    unfold get_user. rewrite Hz. cbn.
    rewrite Nat.add_0_r. rewrite insert_take_drop by lia. reflexivity.
  - destruct n as [|n]; [lia|]. cbn [copy_in_string_loop user_bytes].
    destruct (Hun O ltac:(lia)) as [Hlt0 (b & Hb & Hnz)].
    rewrite Z.add_0_r in Hlt0, Hb.
    destruct (Z.leb_spec PHYS_BASE us); [lia|].
    unfold get_user. rewrite Hb. cbn [default].
    destruct (Z.eqb_spec b 0); [contradiction|].
    rewrite (IH n (S len) (us + 1) (<[len := b]> ks)).
    + f_equal.
      rewrite (take_S_r _ _ b) by (apply list_lookup_insert_eq; lia).
      rewrite take_insert_ge by lia. rewrite <- app_assoc. cbn [app].
      rewrite drop_insert_lt by lia.
      replace (S (S len + k)) with (S (len + S k)) by lia. reflexivity.
    + apply unterminated_tail. exact Hun.
    + lia.
    + replace (us + 1 + Z.of_nat k) with (us + Z.of_nat (S k)) by lia. exact Hz.
    + lia.
    + rewrite length_insert. lia.
Qed.

Lemma copy_in_string_loop_fault (um : user_memory) (k : nat) :
  forall (n len : nat) (us : Z) (ks : list Z),
  unterminated um us k ->
  PHYS_BASE <= us + Z.of_nat k \/ um (us + Z.of_nat k) = None ->
  (k < n)%nat ->
  copy_in_string_loop um n len us ks = None.
Proof.
  induction k as [|k IH]; intros n len us ks Hun Hbad Hn.
  - destruct n as [|n]; [lia|]. cbn [copy_in_string_loop].
    rewrite Z.add_0_r in Hbad.
    destruct (Z.leb_spec PHYS_BASE us); [reflexivity|].
    destruct Hbad as [Hbad|Hbad]; [lia|]. unfold get_user. rewrite Hbad. reflexivity.
  - destruct n as [|n]; [lia|]. cbn [copy_in_string_loop].
    destruct (Hun O ltac:(lia)) as [Hlt0 (b & Hb & Hnz)].
    rewrite Z.add_0_r in Hlt0, Hb.
    destruct (Z.leb_spec PHYS_BASE us); [lia|].
    unfold get_user. rewrite Hb.
    destruct (Z.eqb_spec b 0); [contradiction|].
    apply IH.
    + apply unterminated_tail. exact Hun.
    + replace (us + 1 + Z.of_nat k) with (us + Z.of_nat (S k)) by lia. exact Hbad.
    + lia.
Qed.

(** X19.  For a user string that has its terminator within the first
    [PGSIZE] bytes and is readable up to and including the terminator,
    [copy_in_string] returns a kernel page holding the same string: the
    bytes before the terminator, unchanged and in order.  Bytes behind the
    terminator are not read, so they need not be mapped. *)
Theorem copy_in_string_copies (um : user_memory) (us : Z) (ks0 : list Z) (k : nat) :
  length ks0 = Z.to_nat PGSIZE -> (k < Z.to_nat PGSIZE)%nat ->
  unterminated um us k -> us + Z.of_nat k < PHYS_BASE ->
  um (us + Z.of_nat k) = Some 0 ->
  exists ks,
    copy_in_string um us (Some ks0) = Some ks /\
    cstring ks = user_bytes um us k /\
    length ks = length ks0.
Proof.
  intros Hlen Hk Hun Hlt Hz.
  unfold copy_in_string.
  rewrite (copy_in_string_loop_terminated um k _ O us ks0 Hun Hlt Hz Hk) by lia.
  eexists. split; [reflexivity|]. rewrite take_0, app_nil_l. split.
  - apply cstring_terminated. apply unterminated_nonzero. exact Hun.
  - rewrite length_app, user_bytes_length. cbn [length]. rewrite length_drop. lia.
Qed.

Lemma copy_in_string_copies_witness :
  exists ks,
    copy_in_string (fun a => if bool_decide (a < 1002) then Some 97 else
                             if bool_decide (a = 1002) then Some 0 else None)
      1000 (Some zero_page) = Some ks /\
    cstring ks
    = user_bytes (fun a => if bool_decide (a < 1002) then Some 97 else
                           if bool_decide (a = 1002) then Some 0 else None) 1000 2 /\
    length ks = length zero_page.
Proof.
  apply (copy_in_string_copies
           (fun a => if bool_decide (a < 1002) then Some 97 else
                     if bool_decide (a = 1002) then Some 0 else None)
           1000 zero_page 2%nat).
  - reflexivity.
  - rewrite PGSIZE_val. lia.
  - intros j Hj. rewrite PHYS_BASE_val. split; [lia|]. exists 97.
    rewrite bool_decide_eq_true_2 by lia. split; [reflexivity | discriminate].
  - rewrite PHYS_BASE_val. lia.
  - reflexivity.
Defined.

(** X20.  [copy_in_string] ends the process when it cannot get a page,
    whatever the string; and, with a page, when a byte of the string that
    comes before any terminator, within the first [PGSIZE] bytes, is at or
    above [PHYS_BASE] or not mapped. *)
Theorem copy_in_string_faults (um : user_memory) (us : Z) :
  copy_in_string um us None = None /\
  (forall (ks : list Z) (k : nat),
     (k < Z.to_nat PGSIZE)%nat -> unterminated um us k ->
     PHYS_BASE <= us + Z.of_nat k \/ um (us + Z.of_nat k) = None ->
     copy_in_string um us (Some ks) = None).
Proof.
  split; [reflexivity|].
  intros ks k Hk Hun Hbad. unfold copy_in_string.
  apply (copy_in_string_loop_fault um k); assumption.
Qed.

Lemma copy_in_string_faults_witness :
  copy_in_string (fun a => if bool_decide (a < PHYS_BASE) then Some 97 else None)
    (PHYS_BASE - 2) None = None /\
  copy_in_string (fun a => if bool_decide (a < PHYS_BASE) then Some 97 else None)
    (PHYS_BASE - 2) (Some zero_page) = None /\
  copy_in_string (fun a => if bool_decide (a < 1002) then Some 97 else None)
    1000 (Some zero_page) = None.
Proof.
  split; [|split].
  - apply (copy_in_string_faults
             (fun a => if bool_decide (a < PHYS_BASE) then Some 97 else None)
             (PHYS_BASE - 2)).
  - refine (proj2 (copy_in_string_faults
                     (fun a => if bool_decide (a < PHYS_BASE) then Some 97 else None)
                     (PHYS_BASE - 2)) zero_page 2%nat _ _ _).
    + rewrite PGSIZE_val. lia.
    + intros j Hj. split; [lia|]. exists 97.
      rewrite bool_decide_eq_true_2 by lia. split; [reflexivity | discriminate].
    + left. lia.
  - refine (proj2 (copy_in_string_faults
                     (fun a => if bool_decide (a < 1002) then Some 97 else None) 1000)
              zero_page 2%nat _ _ _).
    + rewrite PGSIZE_val. lia.
    + intros j Hj. rewrite PHYS_BASE_val. split; [lia|]. exists 97.
      rewrite bool_decide_eq_true_2 by lia. split; [reflexivity | discriminate].
    + right. reflexivity.
Defined.

End SyscallArguments.

Section FileDescriptorTable.

Lemma lookup_fd_None (h : Z) (fds : list file_descriptor) :
  lookup_fd h fds = None <-> h ∉ fd_handle <$> fds.
Proof.
  unfold lookup_fd. rewrite list_find_None, Forall_forall. split.
  - intros H Hin. apply list_elem_of_fmap in Hin. destruct Hin as (e & -> & He).
    exact (H e He eq_refl).
  - intros H e He Heq. apply H. apply list_elem_of_fmap. exists e. split; [congruence | exact He].
Qed.

Lemma fds_ok_fresh (next_handle : Z) (fds : list file_descriptor) :
  fds_ok next_handle fds -> next_handle ∉ fd_handle <$> fds.
Proof.
  intros (_ & _ & Hall) Hin. apply list_elem_of_fmap in Hin.
  destruct Hin as (fd & Heq & Hfd).
  rewrite Forall_forall in Hall. specialize (Hall fd Hfd). lia.
Qed.

(** X21.  Handles from [sys_open] are fresh and name the file that was
    opened.  The table of a new process (counter 2, no descriptor) has its
    handles distinct, at least 2 and below the counter.  With the path
    copied in and the counter below [INT_MAX], [sys_open] returns: -1, with
    the table and the counter as they were, exactly when the descriptor
    cannot be allocated or [filesys_open] finds no file for the path;
    otherwise the old value of the counter, which is at least 2 and was not
    open, with the counter one higher.  Then [lookup_fd] finds under that
    handle the file [filesys_open] returned for the path, every other handle
    names the file it named before, and the table keeps its handles
    distinct and in range. *)
Theorem sys_open_fresh_handle (filesys_open : list Z -> option Z)
  (um : user_memory) (ufile : Z) (palloc : option (list Z))
  (fd_ok : bool) (next_handle : Z) (fds : list file_descriptor) (kfile : list Z) :
  fds_ok 2 [] /\
  (fds_ok next_handle fds ->
   copy_in_string um ufile palloc = Some kfile -> next_handle < INT_MAX ->
   exists h next_handle' fds',
     sys_open_fd filesys_open um ufile palloc fd_ok next_handle fds
     = Ret (Some (h, next_handle', fds')) /\
     fds_ok next_handle' fds' /\
     (h = -1 <-> fd_ok = false \/ filesys_open (cstring kfile) = None) /\
     (h = -1 -> next_handle' = next_handle /\ fds' = fds) /\
     (forall f, fd_ok = true -> filesys_open (cstring kfile) = Some f ->
        h = next_handle /\ 2 <= h /\ next_handle' = next_handle + 1 /\
        lookup_fd h fds = None /\
        lookup_fd h fds' = Some (0%nat, mkFd f h) /\
        (forall h', h' <> h ->
           snd <$> lookup_fd h' fds' = snd <$> lookup_fd h' fds))).
Proof.
  split; [split; [lia | split; [apply NoDup_nil_2 | constructor]]|].
  intros Hok Hcopy Hmax. unfold sys_open_fd. rewrite Hcopy.
  pose proof (fds_ok_fresh _ _ Hok) as Hfresh.
  destruct Hok as (H2 & Hnd & Hall).
  assert (Hfail : exists h next_handle' fds',
            Ret (Some (-1, next_handle, fds)) = Ret (Some (h, next_handle', fds')) /\
            fds_ok next_handle' fds' /\ h = -1 /\ next_handle' = next_handle /\ fds' = fds).
  { exists (-1), next_handle, fds. split; [reflexivity|].
    split; [split; [exact H2 | split; assumption]|]. repeat split; reflexivity. }
  destruct fd_ok.
  2: { destruct Hfail as (h & n' & fds' & Hrun & Hok' & Hh & Hn & Hf).
       exists h, n', fds'. split; [exact Hrun|]. split; [exact Hok'|].
       split; [split; [intros _; left; reflexivity | intros _; exact Hh]|].
       split; [intros _; split; assumption|]. intros f Hfd. discriminate Hfd. }
  destruct (filesys_open (cstring kfile)) as [f|] eqn:Hopen.
  2: { destruct Hfail as (h & n' & fds' & Hrun & Hok' & Hh & Hn & Hf).
       exists h, n', fds'. split; [exact Hrun|]. split; [exact Hok'|].
       split; [split; [intros _; right; reflexivity | intros _; exact Hh]|].
       split; [intros _; split; assumption|]. intros f _ Hf'. discriminate Hf'. }
  rewrite bool_decide_eq_false_2 by lia.
  exists next_handle, (next_handle + 1), (mkFd f next_handle :: fds).
  split; [reflexivity|]. split.
  { split; [lia|]. split.
    - cbn [fmap list_fmap fd_handle]. apply NoDup_cons. split; assumption.
    - constructor; [cbn [fd_handle]; lia|].
      eapply Forall_impl; [exact Hall|]. cbn. intros fd Hfd. lia. }
  split.
  { split; [intros Hh; lia|]. intros [Hno|Hno]; discriminate Hno. }
  split; [intros Hh; lia|].
  intros f' _ Hf'. inversion Hf'; subst f'.
  split; [reflexivity|]. split; [exact H2|]. split; [reflexivity|].
  split; [apply lookup_fd_None; exact Hfresh|]. split.
  - unfold lookup_fd. cbn [list_find fd_handle].
    rewrite decide_True by reflexivity. reflexivity.
  - intros h' Hne. unfold lookup_fd. cbn [list_find fd_handle].
    rewrite decide_False by congruence.
    destruct (list_find _ fds) as [[j y]|]; reflexivity.
Qed.

Lemma sys_open_fresh_handle_witness :
  fds_ok 3 [mkFd 500 2] /\
  sys_open_fd (fun path => if decide (path = [97; 98]) then Some 501 else None)
    (fun a => if bool_decide (a = 1000) then Some 97 else
              if bool_decide (a = 1001) then Some 98 else Some 0)
    1000 (Some zero_page) true 3 [mkFd 500 2]
  = Ret (Some (3, 4, [mkFd 501 3; mkFd 500 2])) /\
  fds_ok 4 [mkFd 501 3; mkFd 500 2] /\
  lookup_fd 3 [mkFd 501 3; mkFd 500 2] = Some (0%nat, mkFd 501 3).
Proof.
  set (fo := fun path : list Z => if decide (path = [97; 98]) then Some 501 else None).
  set (um := fun a : Z => if bool_decide (a = 1000) then Some 97 else
                          if bool_decide (a = 1001) then Some 98 else Some 0).
  assert (Hok : fds_ok 3 [mkFd 500 2]).
  { split; [lia|]. split; [apply NoDup_singleton|]. repeat constructor; cbn; lia. }
  assert (Hcopy : copy_in_string um 1000 (Some zero_page)
                  = Some (97 :: 98 :: 0 :: drop 3 zero_page)).
  { unfold copy_in_string.
    rewrite (copy_in_string_loop_terminated um 2 _ 0 1000 zero_page).
    - reflexivity.
    - intros j Hj. rewrite PHYS_BASE_val. split; [lia|].
      destruct j as [|[|j]]; [exists 97 | exists 98 | lia];
        (split; [reflexivity | discriminate]).
    - rewrite PHYS_BASE_val. lia.
    - reflexivity.
    - rewrite PGSIZE_val. lia.
    - pose proof zero_page_length as Hz. rewrite PGSIZE_val in Hz. lia. }
  destruct (proj2 (sys_open_fresh_handle fo um 1000 (Some zero_page) true 3 [mkFd 500 2]
                     (97 :: 98 :: 0 :: drop 3 zero_page)) Hok Hcopy)
    as (h & n' & fds' & Hrun & Hok' & _ & _ & Hnew).
  { unfold INT_MAX. lia. }
  destruct (Hnew 501 eq_refl eq_refl) as (-> & _ & -> & _ & Hfound & _).
  assert (Hfds : fds' = [mkFd 501 3; mkFd 500 2]).
  { revert Hrun. unfold sys_open_fd. rewrite Hcopy. cbn.
    intros H. inversion H. reflexivity. }
  subst fds'. split; [exact Hok|]. split; [exact Hrun|]. split; [exact Hok' | exact Hfound].
Defined.

(** X22.  [sys_close] on a handle that is not in the table ends the
    process; so do [sys_close (0)] and [sys_close (1)], the handles of the
    console, which are never in the table.  On an open handle it returns 0,
    hands the file of that handle to [file_close] and takes the descriptor
    out: the handle is no longer found (a second [sys_close] ends the
    process), every other handle names the file it named before, and the
    table keeps its handles distinct and in range. *)
Theorem sys_close_removes_descriptor (next_handle h : Z) (fds : list file_descriptor) :
  fds_ok next_handle fds ->
  (h ∉ fd_handle <$> fds -> sys_close h fds = None) /\
  sys_close 0 fds = None /\ sys_close 1 fds = None /\
  (h ∈ fd_handle <$> fds ->
   exists f fds',
     sys_close h fds = Some (0, f, fds') /\
     mkFd f h ∈ fds /\
     length fds = S (length fds') /\
     fds_ok next_handle fds' /\
     lookup_fd h fds' = None /\ sys_close h fds' = None /\
     (forall h', h' <> h ->
        snd <$> lookup_fd h' fds' = snd <$> lookup_fd h' fds)).
Proof.
  intros (H2 & Hnd & Hall).
  assert (Hmiss : forall x, x ∉ fd_handle <$> fds -> sys_close x fds = None).
  { intros x Hx. unfold sys_close. apply lookup_fd_None in Hx. rewrite Hx. reflexivity. }
  assert (Hlow : forall x, x < 2 -> x ∉ fd_handle <$> fds).
  { intros x Hx Hin. apply list_elem_of_fmap in Hin. destruct Hin as (fd & -> & Hfd).
    rewrite Forall_forall in Hall. specialize (Hall fd Hfd). lia. }
  split; [apply Hmiss|]. split; [apply Hmiss, Hlow; lia|].
  split; [apply Hmiss, Hlow; lia|].
  intros Hopen. unfold sys_close.
  destruct (lookup_fd h fds) as [[i fd]|] eqn:Hfind.
  2: { apply lookup_fd_None in Hfind. contradiction. }
  cbn. exists (fd_file fd), (delete i fds). split; [reflexivity|].
  apply list_find_Some in Hfind. destruct Hfind as (Hi & Hh & _).
  pose proof (take_drop_middle _ _ _ Hi) as Hsplit.
  assert (Hdel : delete i fds = take i fds ++ drop (S i) fds) by apply delete_take_drop.
  assert (Hlen : length fds = S (length (delete i fds))).
  { rewrite Hdel. rewrite <- Hsplit at 1. rewrite !length_app. cbn [length]. lia. }
  rewrite <- Hsplit in Hnd, Hall. rewrite fmap_app, fmap_cons in Hnd.
  apply NoDup_app in Hnd. destruct Hnd as (Hnd1 & Hdisj & Hnd2).
  apply NoDup_cons in Hnd2. destruct Hnd2 as [Hnotin Hnd2].
  apply Forall_app in Hall. destruct Hall as [Hall1 Hall2].
  apply Forall_cons in Hall2. destruct Hall2 as [_ Hall2].
  assert (Hgone : h ∉ fd_handle <$> delete i fds).
  { rewrite Hdel, fmap_app. intros Hin. apply elem_of_app in Hin. destruct Hin as [Hin|Hin].
    - apply (Hdisj _ Hin). rewrite Hh. left.
    - apply Hnotin. rewrite Hh. exact Hin. }
  split.
  { destruct fd as [ff hh]. cbn in Hh. subst hh. cbn.
    eapply list_elem_of_lookup_2. exact Hi. }
  split; [exact Hlen|]. split.
  { split; [exact H2|]. rewrite Hdel. split.
    - rewrite fmap_app. apply NoDup_app. split; [exact Hnd1|]. split; [|exact Hnd2].
      intros x Hx Hin. apply (Hdisj x Hx). right. exact Hin.
    - apply Forall_app. split; assumption. }
  split; [apply lookup_fd_None; exact Hgone|].
  split.
  { apply lookup_fd_None in Hgone. rewrite Hgone. reflexivity. }
  intros h' Hne. apply (list_find_delete_other (fun fd => fd_handle fd = h') fds i fd Hi).
  congruence.
Qed.

Lemma sys_close_removes_descriptor_witness :
  fds_ok 4 [mkFd 501 3; mkFd 500 2] /\
  sys_close 0 [mkFd 501 3; mkFd 500 2] = None /\
  sys_close 7 [mkFd 501 3; mkFd 500 2] = None /\
  sys_close 2 [mkFd 501 3; mkFd 500 2] = Some (0, 500, [mkFd 501 3]) /\
  sys_close 2 [mkFd 501 3] = None /\
  lookup_fd 3 [mkFd 501 3] = Some (0%nat, mkFd 501 3).
Proof.
  assert (Hok : fds_ok 4 [mkFd 501 3; mkFd 500 2]).
  { split; [lia|]. split.
    - apply (bool_decide_unpack (NoDup [3; 2])). exact I.
    - repeat constructor; cbn; lia. }
  split; [exact Hok|].
  destruct (sys_close_removes_descriptor 4 7 [mkFd 501 3; mkFd 500 2] Hok)
    as (Hmiss & H0 & _).
  split; [exact H0|]. split.
  { apply Hmiss. apply (bool_decide_unpack (7 ∉ [3; 2])). exact I. }
  destruct (sys_close_removes_descriptor 4 2 [mkFd 501 3; mkFd 500 2] Hok)
    as (_ & _ & _ & Hopen).
  destruct Hopen as (f & fds' & Hrun & _ & _ & _ & _ & Hagain & _).
  { apply (bool_decide_unpack (2 ∈ [3; 2])). exact I. }
  assert (Hval : Some (0, f, fds') = Some (0, 500, [mkFd 501 3])).
  { rewrite <- Hrun. reflexivity. }
  inversion Hval; subst f fds'.
  split; [exact Hrun|]. split; [exact Hagain | reflexivity].
Defined.

(** X23.  When a process exits, the loop over its descriptor list
    terminates and closes every file that is still open exactly once, in
    the order of the list (the file opened last first), whatever handles
    the descriptors carry. *)
Theorem process_exit_closes_every_file (fds : list file_descriptor) :
  process_exit_close_fds (length fds) fds = Ret (Some (fd_file <$> fds)).
Proof.
  induction fds as [|fd fds IH]; [reflexivity|].
  cbn [length process_exit_close_fds]. unfold sys_close, lookup_fd.
  cbn [list_find]. rewrite decide_True by reflexivity. cbn.
  rewrite IH. reflexivity.
Qed.

End FileDescriptorTable.

Section WaitStatusLifetime.

(** [process_exit] drops one reference to every child record: a record
    with a single reference left is freed, the others stay with one
    reference less, and records off the list are not touched. *)
Lemma release_children_result (l : list nat) :
  forall ws : gmap nat wait_status,
  NoDup l -> (forall b, b ∈ l -> is_Some (ws !! b)) ->
  exists ws',
    release_children l ws = Ret ws' /\
    (forall b cb, b ∈ l -> ws !! b = Some cb ->
       ws' !! b = if ws_ref_cnt cb - 1 =? 0 then None
                  else Some (mkWait (ws_ref_cnt cb - 1) (ws_pid cb) (ws_exit_code cb)
                               (ws_dead cb))) /\
    (forall b, b ∉ l -> ws' !! b = ws !! b).
Proof.
  induction l as [|a l IH]; intros ws Hnd Hlive.
  - exists ws. split; [reflexivity|]. split; [intros b cb Hb; inversion Hb | reflexivity].
  - apply NoDup_cons in Hnd. destruct Hnd as [Ha Hnd].
    destruct (Hlive a ltac:(left)) as [ca Hca].
    assert (Hrel : exists w, release_child a ws = Ret w /\
                     w !! a = (if ws_ref_cnt ca - 1 =? 0 then None
                               else Some (mkWait (ws_ref_cnt ca - 1) (ws_pid ca)
                                            (ws_exit_code ca) (ws_dead ca))) /\
                     forall b, b <> a -> w !! b = ws !! b).
    { unfold release_child. rewrite Hca.
      destruct (ws_ref_cnt ca - 1 =? 0); eexists; (split; [reflexivity|]); split.
      - apply lookup_delete_eq.
      - intros b Hb. apply lookup_delete_ne. congruence.
      - apply lookup_insert_eq.
      - intros b Hb. apply lookup_insert_ne. congruence. }
    destruct Hrel as (w & Hrel & Hwa & Hwo).
    destruct (IH w Hnd) as (ws' & Hrun & Hin & Hout).
    { intros b Hb. rewrite Hwo; [apply Hlive; right; exact Hb|].
      intros ->. contradiction. }
    exists ws'. split; [cbn [release_children]; rewrite Hrel; exact Hrun|]. split.
    + intros b cb Hb Hcb. apply elem_of_cons in Hb. destruct Hb as [->|Hb].
      * rewrite (Hout a Ha), Hwa. assert (cb = ca) as -> by congruence. reflexivity.
      * apply Hin; [exact Hb|]. rewrite Hwo; [exact Hcb|]. intros ->. contradiction.
    + intros b Hb. rewrite Hout by (intros Hin'; apply Hb; right; exact Hin').
      apply Hwo. intros ->. apply Hb. left.
Qed.

Lemma process_exit_notify_own (pcb : process) (ws : gmap nat wait_status) (a : nat)
  (cs : wait_status) :
  wait_status_of pcb = Some a -> ws !! a = Some cs ->
  exists ws',
    process_exit_notify pcb ws = Ret ws' /\
    ws' !! a = (if ws_ref_cnt cs - 1 =? 0 then None
                else Some (mkWait (ws_ref_cnt cs - 1) (ws_pid cs) (ws_exit_code cs)
                             (S (ws_dead cs)))) /\
    forall b, b <> a -> ws' !! b = ws !! b.
Proof.
  intros Hws Ha. unfold process_exit_notify. rewrite Hws, Ha.
  unfold release_child. rewrite lookup_insert_eq. cbn [ws_ref_cnt ws_pid ws_exit_code ws_dead].
  destruct (ws_ref_cnt cs - 1 =? 0); eexists; (split; [reflexivity|]); split.
  - apply lookup_delete_eq.
  - intros b Hb. rewrite lookup_delete_ne by congruence. apply lookup_insert_ne. congruence.
  - apply lookup_insert_eq.
  - intros b Hb. rewrite lookup_insert_ne by congruence. apply lookup_insert_ne. congruence.
Qed.

(** [process_exit] of a parent, as far as the record [a] of one of its
    children goes. *)
Lemma process_exit_parent (parent : process) (ws : gmap nat wait_status) (a : nat)
  (ca : wait_status) :
  NoDup (children parent) -> (forall b, b ∈ children parent -> is_Some (ws !! b)) ->
  a ∈ children parent -> ws !! a = Some ca ->
  (forall pa, wait_status_of parent = Some pa ->
     (pa ∉ children parent) /\ is_Some (ws !! pa)) ->
  exists ws',
    process_exit parent ws = Ret ws' /\
    ws' !! a = (if ws_ref_cnt ca - 1 =? 0 then None
                else Some (mkWait (ws_ref_cnt ca - 1) (ws_pid ca) (ws_exit_code ca)
                             (ws_dead ca))).
Proof.
  intros Hnd Hlive Hin Ha Hown.
  destruct (release_children_result (children parent) ws Hnd Hlive)
    as (w & Hrel & Hw & Hwo).
  unfold process_exit. rewrite Hrel. cbn [mbind outcome_bind].
  destruct (wait_status_of parent) as [pa|] eqn:Hpa.
  - destruct (Hown pa eq_refl) as [Hnot [cp Hcp]].
    destruct (process_exit_notify_own parent w pa cp Hpa) as (ws' & Hrun & _ & Hother).
    { rewrite Hwo by exact Hnot. exact Hcp. }
    exists ws'. split; [exact Hrun|]. rewrite Hother.
    + apply Hw; assumption.
    + intros ->. contradiction.
  - exists w. split; [unfold process_exit_notify; rewrite Hpa; reflexivity|].
    apply Hw; assumption.
Qed.

(** X24.  A wait-status is freed by the second of its two owners, and not
    before.  For a child record with both references in place, whichever of
    parent and child runs [process_exit] first leaves the record allocated
    with one reference (when it is the child, with [dead] upped and the
    exit code still readable), and the [process_exit] of the other frees
    it. *)
Theorem wait_status_freed_by_last_exit (parent child : process)
  (ws : gmap nat wait_status) (a : nat) (cs : wait_status) :
  children_ok parent ws = true -> a ∈ children parent ->
  ws !! a = Some cs -> ws_ref_cnt cs = 2 ->
  wait_status_of child = Some a -> children child = [] ->
  (forall pa, wait_status_of parent = Some pa ->
     (pa ∉ children parent) /\ is_Some (ws !! pa)) ->
  (exists ws1 ws2,
     process_exit parent ws = Ret ws1 /\
     ws1 !! a = Some (mkWait 1 (ws_pid cs) (ws_exit_code cs) (ws_dead cs)) /\
     process_exit child ws1 = Ret ws2 /\ ws2 !! a = None) /\
  (exists ws1 ws2,
     process_exit child ws = Ret ws1 /\
     ws1 !! a = Some (mkWait 1 (ws_pid cs) (ws_exit_code cs) (S (ws_dead cs))) /\
     process_exit parent ws1 = Ret ws2 /\ ws2 !! a = None).
Proof.
  intros Hok Hin Ha Href Hcw Hcc Hown.
  apply children_ok_unfold in Hok. destruct Hok as (Hnd & Hlive & _).
  assert (Hchild : forall w c, w !! a = Some c ->
            exists w', process_exit child w = Ret w' /\
              w' !! a = (if ws_ref_cnt c - 1 =? 0 then None
                         else Some (mkWait (ws_ref_cnt c - 1) (ws_pid c) (ws_exit_code c)
                                      (S (ws_dead c)))) /\
              forall b, b <> a -> w' !! b = w !! b).
  { intros w c Hc. unfold process_exit. rewrite Hcc. cbn [release_children mbind outcome_bind].
    apply process_exit_notify_own; assumption. }
  split.
  - destruct (process_exit_parent parent ws a cs Hnd Hlive Hin Ha Hown) as (ws1 & Hp & Hp1).
    rewrite Href in Hp1. cbn in Hp1.
    destruct (Hchild ws1 _ Hp1) as (ws2 & Hc & Hc2 & _). cbn in Hc2.
    exists ws1, ws2. repeat split; assumption.
  - destruct (Hchild ws cs Ha) as (ws1 & Hc & Hc1 & Hother).
    rewrite Href in Hc1.
    assert (Hc1' : ws1 !! a
                   = Some (mkWait 1 (ws_pid cs) (ws_exit_code cs) (S (ws_dead cs))))
      by exact Hc1.
    clear Hc1.
    assert (Hp : exists ws2, process_exit parent ws1 = Ret ws2 /\ ws2 !! a = None);
      [|destruct Hp as (ws2 & Hp & Hp2); exists ws1, ws2; repeat split; assumption].
    apply (process_exit_parent parent ws1 a
             (mkWait 1 (ws_pid cs) (ws_exit_code cs) (S (ws_dead cs))) Hnd).
    + intros b Hb. destruct (decide (b = a)) as [->|Hne]; [rewrite Hc1'; eauto|].
      rewrite Hother by exact Hne. apply Hlive. exact Hb.
    + exact Hin.
    + exact Hc1'.
    + intros pa Hpa. destruct (Hown pa Hpa) as [Hnot Hsome]. split; [exact Hnot|].
      rewrite Hother; [exact Hsome|]. intros ->. contradiction.
Qed.

Lemma wait_status_freed_by_last_exit_witness :
  (exists ws1 ws2,
     process_exit parent_pcb parent_ws = Ret ws1 /\
     ws1 !! 0%nat = Some (mkWait 1 10 (-1) 0) /\
     process_exit (mkProcess (Some 0%nat) [] [] None 10 2 None [] 1 false [] [] []) ws1
     = Ret ws2 /\ ws2 !! 0%nat = None) /\
  (exists ws1 ws2,
     process_exit (mkProcess (Some 0%nat) [] [] None 10 2 None [] 1 false [] [] []) parent_ws
     = Ret ws1 /\
     ws1 !! 0%nat = Some (mkWait 1 10 (-1) 1) /\
     process_exit parent_pcb ws1 = Ret ws2 /\ ws2 !! 0%nat = None).
Proof.
  apply (wait_status_freed_by_last_exit parent_pcb
           (mkProcess (Some 0%nat) [] [] None 10 2 None [] 1 false [] [] [])
           parent_ws 0%nat (new_wait_status 10)).
  - vm_compute. reflexivity.
  - left.
  - reflexivity.
  - reflexivity.
  - reflexivity.
  - reflexivity.
  - intros pa Hpa. discriminate Hpa.
Defined.

End WaitStatusLifetime.

Section Loader.

Lemma land_page_mask (x : Z) :
  0 <= x < UINT32_MOD ->
  Z.land x (wrap32 (Z.lnot PGMASK)) = x - x mod PGSIZE.
Proof.
  intros Hx. unfold wrap32.
  change UINT32_MOD with (2 ^ 32). rewrite <- Z.land_ones by lia.
  rewrite (Z.land_comm (Z.lnot PGMASK)), Z.land_assoc.
  rewrite (Z.land_ones x 32) by lia.
  rewrite (Z.mod_small x (2 ^ 32)) by (rewrite UINT32_MOD_val in Hx; lia).
  rewrite <- Z.ldiff_land. change PGMASK with (Z.ones 12).
  rewrite Z.ldiff_ones_r by lia.
  rewrite Z.shiftr_div_pow2, Z.shiftl_mul_pow2 by lia.
  change (2 ^ 12) with 4096. rewrite PGSIZE_val.
  pose proof (Z.div_mod x 4096 ltac:(lia)). lia.
Qed.

Lemma ROUND_UP32_page (x : Z) :
  0 <= x -> x + 4096 < UINT32_MOD ->
  ROUND_UP32 x PGSIZE = (x + 4095) / 4096 * 4096.
Proof.
  intros H0 H1. unfold ROUND_UP32, wrap32. rewrite PGSIZE_val, UINT32_MOD_val in *.
  replace (x + 4096 - 1) with (x + 4095) by lia.
  rewrite (Z.mod_small (x + 4095)) by lia.
  apply Z.mod_small.
  pose proof (Z.div_mod (x + 4095) 4096 ltac:(lia)).
  pose proof (Z.mod_pos_bound (x + 4095) 4096 ltac:(lia)). lia.
Qed.

(** X25.  For a [PT_LOAD] header that [validate_segment] accepts, the
    values [load] computes for [load_segment] pass its three assertions, so
    that the call goes straight into the page loop.  The pages it is asked
    to fill start at the page of [p_vaddr], cover the segment up to
    [p_vaddr + p_memsz] with less than a page to spare, leave page 0 alone
    and end at or below [PHYS_BASE]; the bytes to read are the [p_filesz]
    bytes of the segment together with the bytes between the page boundary
    and [p_offset] in the file. *)
Theorem load_segment_args_valid (phdr : Elf32_Phdr) (file_len : Z) :
  phdr_wf phdr -> 0 <= file_len < 2 ^ 31 ->
  validate_segment phdr file_len = true ->
  let s := load_segment_args phdr in
  let page_offset := p_vaddr phdr mod PGSIZE in
  sg_ofs s = p_offset phdr - page_offset /\
  sg_upage s = p_vaddr phdr - page_offset /\
  sg_read_bytes s = (if 0 <? p_filesz phdr then page_offset + p_filesz phdr else 0) /\
  0 <= sg_zero_bytes s /\
  (sg_read_bytes s + sg_zero_bytes s) mod PGSIZE = 0 /\
  PGSIZE <= sg_upage s /\
  p_vaddr phdr + p_memsz phdr <= sg_upage s + sg_read_bytes s + sg_zero_bytes s /\
  sg_upage s + sg_read_bytes s + sg_zero_bytes s < p_vaddr phdr + p_memsz phdr + PGSIZE /\
  sg_upage s + sg_read_bytes s + sg_zero_bytes s <= PHYS_BASE /\
  (forall f pd frames allocs,
     load_segment f (sg_ofs s) (sg_upage s) (sg_read_bytes s) (sg_zero_bytes s)
       (sg_writable s) pd frames allocs
     = load_segment_loop
         (Z.to_nat ((sg_read_bytes s + sg_zero_bytes s) / PGSIZE))
         (file_seek f (sg_ofs s)) (sg_upage s) (sg_read_bytes s) (sg_zero_bytes s)
         (sg_writable s) pd frames allocs).
Proof.
  intros Hwf Hlen Hval s page_offset.
  pose proof (proj1 (validate_segment_true_iff phdr file_len Hwf Hlen) Hval)
    as (Hpo & Hofs & Hfm & Hm & Hv & Hend).
  destruct Hwf as (HO & HV & HF & HM). unfold is_u32 in *.
  pose proof PGSIZE_val as HPG. pose proof PHYS_BASE_val as HPB.
  pose proof UINT32_MOD_val as HU.
  set (P := p_offset phdr) in *. set (V := p_vaddr phdr) in *.
  set (F := p_filesz phdr) in *. set (M := p_memsz phdr) in *.
  assert (Hpo_bound : 0 <= page_offset < 4096).
  { unfold page_offset. rewrite HPG. apply Z.mod_pos_bound. lia. }
  assert (Hfile_page : Z.land P (wrap32 (Z.lnot PGMASK)) = P - page_offset).
  { rewrite land_page_mask by lia. unfold page_offset. rewrite Hpo. reflexivity. }
  assert (Hmem_page : Z.land V (wrap32 (Z.lnot PGMASK)) = V - page_offset).
  { rewrite land_page_mask by lia. reflexivity. }
  assert (Hland : Z.land V PGMASK = page_offset) by apply land_PGMASK.
  assert (Hsum : add32 page_offset M = page_offset + M).
  { unfold add32, wrap32. apply Z.mod_small. lia. }
  set (R := (page_offset + M + 4095) / 4096 * 4096).
  assert (Hround : ROUND_UP32 (page_offset + M) PGSIZE = R).
  { apply ROUND_UP32_page; lia. }
  assert (HR : page_offset + M <= R < page_offset + M + 4096 /\ R mod 4096 = 0).
  { unfold R. pose proof (Z.div_mod (page_offset + M + 4095) 4096 ltac:(lia)).
    pose proof (Z.mod_pos_bound (page_offset + M + 4095) 4096 ltac:(lia)).
    split; [lia|]. apply Z.mod_mul. lia. }
  destruct HR as [HR HRmod].
  assert (HVmod : (V - page_offset) mod 4096 = 0).
  { unfold page_offset. rewrite HPG. rewrite Zminus_mod_idemp_r, Z.sub_diag. reflexivity. }
  assert (HPmod : (P - page_offset) mod 4096 = 0).
  { unfold page_offset. rewrite <- Hpo, HPG. rewrite Zminus_mod_idemp_r, Z.sub_diag.
    reflexivity. }
  assert (HPnn : 0 <= P - page_offset).
  { unfold page_offset. rewrite <- Hpo, HPG.
    pose proof (Z.mod_le P 4096 ltac:(lia) ltac:(lia)). lia. }
  assert (HVpage : 4096 <= V - page_offset).
  { pose proof (Z.div_mod (V - page_offset) 4096 ltac:(lia)) as Hd.
    rewrite HVmod in Hd. lia. }
  assert (Htop : V - page_offset + R <= 3221225472).
  { assert (Hm0 : (V - page_offset + R) mod 4096 = 0).
    { rewrite Z.add_mod, HVmod, HRmod by lia. reflexivity. }
    pose proof (Z.div_mod (V - page_offset + R) 4096 ltac:(lia)) as Hd.
    rewrite Hm0 in Hd. lia. }
  assert (Hargs : sg_ofs s = P - page_offset /\ sg_upage s = V - page_offset /\
                  sg_read_bytes s = (if 0 <? F then page_offset + F else 0) /\
                  sg_read_bytes s + sg_zero_bytes s = R /\ 0 <= sg_zero_bytes s /\
                  0 <= sg_read_bytes s).
  { unfold s, load_segment_args. fold P V F M.
    rewrite Hfile_page, Hmem_page, Hland, Hsum, Hround.
    destruct (Z.ltb_spec 0 F); cbn [sg_ofs sg_upage sg_read_bytes sg_zero_bytes].
    - assert (Hr : add32 page_offset F = page_offset + F).
      { unfold add32, wrap32. apply Z.mod_small. lia. }
      rewrite Hr.
      assert (Hz : sub32 R (page_offset + F) = R - (page_offset + F)).
      { unfold sub32, wrap32. apply Z.mod_small. lia. }
      rewrite Hz. repeat split; lia.
    - repeat split; lia. }
  destruct Hargs as (Ho & Hu & Hr & Hrz & Hz0 & Hr0).
  split; [exact Ho|]. split; [exact Hu|]. split; [exact Hr|]. split; [exact Hz0|].
  split; [rewrite Hrz, HPG; exact HRmod|].
  split; [rewrite Hu; lia|].
  split; [rewrite Hu; lia|].
  split; [rewrite Hu; lia|].
  split; [rewrite Hu; lia|].
  intros f pd frames allocs. unfold load_segment.
  assert (add32 (sg_read_bytes s) (sg_zero_bytes s) mod PGSIZE = 0) as ->.
  { unfold add32, wrap32. rewrite (Z.mod_small _ UINT32_MOD) by lia.
    rewrite Hrz, HPG. exact HRmod. }
  assert (pg_ofs (sg_upage s) = 0) as ->.
  { unfold pg_ofs. rewrite land_PGMASK, Hu, HPG. exact HVmod. }
  assert (Z.rem (sg_ofs s) PGSIZE = 0) as ->.
  { rewrite Z.rem_mod_nonneg by lia. rewrite Ho, HPG. exact HPmod. }
  reflexivity.
Qed.

Lemma load_segment_args_valid_witness :
  sg_ofs (load_segment_args (mkPhdr 1 4196 0x08048064 0 100 200 5 4096)) = 4096 /\
  sg_upage (load_segment_args (mkPhdr 1 4196 0x08048064 0 100 200 5 4096)) = 0x08048000 /\
  sg_read_bytes (load_segment_args (mkPhdr 1 4196 0x08048064 0 100 200 5 4096)) = 200 /\
  0 <= sg_zero_bytes (load_segment_args (mkPhdr 1 4196 0x08048064 0 100 200 5 4096)).
Proof.
  destruct (load_segment_args_valid (mkPhdr 1 4196 0x08048064 0 100 200 5 4096) 8192)
    as (H1 & H2 & H3 & H4 & _).
  - unfold phdr_wf, is_u32. cbn. rewrite UINT32_MOD_val. lia.
  - lia.
  - vm_compute. reflexivity.
  - repeat split; assumption.
Defined.

Lemma pg_ofs_in_page (upage j : Z) :
  upage mod PGSIZE = 0 -> 0 <= j < PGSIZE -> pg_ofs (upage + j) = j.
Proof.
  intros Hu Hj. unfold pg_ofs. rewrite land_PGMASK.
  rewrite Z.add_mod, Hu by (rewrite PGSIZE_val; lia).
  rewrite Z.add_0_l, Z.mod_mod by (rewrite PGSIZE_val; lia).
  apply Z.mod_small. exact Hj.
Qed.

Lemma user_byte_in_page (pd : gmap Z (Z * bool)) (frames : gmap Z (list Z))
  (upage j kpage : Z) (w : bool) (m : list Z) :
  upage mod PGSIZE = 0 -> 0 <= j < PGSIZE ->
  pd !! upage = Some (kpage, w) -> frames !! kpage = Some m ->
  user_byte pd frames (upage + j) = m !! Z.to_nat j.
Proof.
  intros Hu Hj Hpd Hfr. unfold user_byte.
  rewrite (pg_ofs_in_page upage j Hu Hj).
  replace (upage + j - j) with upage by lia.
  rewrite Hpd. cbn. rewrite Hfr. reflexivity.
Qed.

(** The page loop, with a frame for every page and room in the page
    directory. *)
Lemma load_segment_loop_image (writable : bool) (kpages : list Z) :
  forall (f : file) (upage read_bytes zero_bytes : Z) (pd : gmap Z (Z * bool))
    (frames : gmap Z (list Z)) (rest : list (option Z * bool)),
  0 <= read_bytes -> 0 <= zero_bytes ->
  read_bytes + zero_bytes = Z.of_nat (length kpages) * PGSIZE ->
  0 <= f_pos f -> f_pos f + read_bytes <= Z.of_nat (length (f_bytes f)) ->
  0 <= upage -> upage mod PGSIZE = 0 ->
  upage + read_bytes + zero_bytes <= PHYS_BASE ->
  NoDup kpages ->
  (forall i : nat, (i < length kpages)%nat -> pd !! (upage + Z.of_nat i * PGSIZE) = None) ->
  exists f' pd' frames',
    load_segment_loop (length kpages) f upage read_bytes zero_bytes writable pd frames
      (((fun k => (Some k, true)) <$> kpages) ++ rest)
    = Ret (true, f', pd', frames') /\
    (forall j, 0 <= j < read_bytes + zero_bytes ->
       user_byte pd' frames' (upage + j)
       = if j <? read_bytes then f_bytes f !! Z.to_nat (f_pos f + j) else Some 0) /\
    (forall u, u < upage \/ upage + read_bytes + zero_bytes <= u -> pd' !! u = pd !! u) /\
    (forall k, k ∉ kpages -> frames' !! k = frames !! k) /\
    (forall (i : nat) k, kpages !! i = Some k ->
       pd' !! (upage + Z.of_nat i * PGSIZE) = Some (k, writable)).
Proof.
  pose proof PGSIZE_val as HPG. pose proof PHYS_BASE_val as HPB.
  pose proof UINT32_MOD_val as HU.
  induction kpages as [|k ks IH];
    intros f upage read_bytes zero_bytes pd frames rest Hr Hz Hsum Hpos Hfile Hup Hal Htop
      Hnd Hfree.
  - cbn [length] in *. assert (read_bytes = 0) as -> by lia.
    assert (zero_bytes = 0) as -> by lia.
    exists f, pd, frames. split; [reflexivity|]. split; [intros j Hj; lia|].
    split; [reflexivity|]. split; [reflexivity|]. intros i k' Hi. discriminate Hi.
  - cbn [length] in Hsum, Hfree. apply NoDup_cons in Hnd. destruct Hnd as [Hk Hnd].
    rewrite Nat2Z.inj_succ in Hsum.
    cbn [length load_segment_loop fmap list_fmap app].
    assert (Hcond : (0 <? read_bytes) || (0 <? zero_bytes) = true).
    { destruct (Z.ltb_spec 0 read_bytes); [reflexivity|].
      destruct (Z.ltb_spec 0 zero_bytes); [reflexivity | lia]. }
    rewrite Hcond.
    set (prb := if read_bytes <? PGSIZE then read_bytes else PGSIZE).
    assert (Hprb : 0 <= prb <= read_bytes /\ prb <= PGSIZE /\
                   PGSIZE - prb <= zero_bytes /\
                   (read_bytes < PGSIZE -> prb = read_bytes) /\
                   (PGSIZE <= read_bytes -> prb = PGSIZE)).
    { unfold prb. destruct (Z.ltb_spec read_bytes PGSIZE); repeat split; lia. }
    destruct Hprb as (Hp0 & Hp1 & Hp2 & Hp3 & Hp4).
    unfold file_read.
    set (got := take (Z.to_nat prb) (drop (Z.to_nat (f_pos f)) (f_bytes f))).
    assert (Hgot : Z.of_nat (length got) = prb).
    { unfold got. rewrite length_take, length_drop. lia. }
    rewrite Hgot, Z.eqb_refl. cbn [negb].
    unfold install_page.
    assert (Hfree0 : pd !! upage = None).
    { specialize (Hfree O ltac:(lia)). replace (upage + Z.of_nat 0 * PGSIZE) with upage in Hfree by lia.
      exact Hfree. }
    rewrite Hfree0.
    assert (Hadd : add32 upage PGSIZE = upage + PGSIZE).
    { unfold add32, wrap32. apply Z.mod_small. lia. }
    assert (Hsub : sub32 zero_bytes (PGSIZE - prb) = zero_bytes - (PGSIZE - prb)).
    { unfold sub32, wrap32. apply Z.mod_small. lia. }
    rewrite Hadd, Hsub.
    set (contents := got ++ replicate (Z.to_nat (PGSIZE - prb)) 0).
    set (f1 := mkFile (f_bytes f) (f_pos f + prb)).
    set (pd1 := <[upage := (k, writable)]> pd).
    set (frames1 := <[k := contents]> frames).
    destruct (IH f1 (upage + PGSIZE) (read_bytes - prb) (zero_bytes - (PGSIZE - prb))
                pd1 frames1 rest) as (f' & pd' & frames' & Hrun & Hbytes & Hpdf & Hfrf & Hmap).
    { lia. } { lia. } { lia. } { cbn. lia. } { cbn. lia. } { lia. }
    { rewrite Z.add_mod, Hal, Z.mod_same by lia. reflexivity. }
    { lia. } { exact Hnd. }
    { intros i Hi. unfold pd1. rewrite lookup_insert_ne by lia.
      specialize (Hfree (S i) ltac:(lia)).
      replace (upage + PGSIZE + Z.of_nat i * PGSIZE) with (upage + Z.of_nat (S i) * PGSIZE)
        by lia.
      exact Hfree. }
    exists f', pd', frames'. split; [exact Hrun|].
    assert (Hpd0 : pd' !! upage = Some (k, writable)).
    { rewrite Hpdf by lia. unfold pd1. apply lookup_insert_eq. }
    assert (Hfr0 : frames' !! k = Some contents).
    { rewrite Hfrf by exact Hk. unfold frames1. apply lookup_insert_eq. }
    split.
    { intros j Hj. destruct (Z_lt_ge_dec j PGSIZE) as [Hlt|Hge].
      - rewrite (user_byte_in_page pd' frames' upage j k writable contents Hal
                   ltac:(lia) Hpd0 Hfr0).
        unfold contents. destruct (Z.ltb_spec j read_bytes) as [Hjr|Hjr].
        + assert (Hjp : j < prb).
          { destruct (Z_lt_ge_dec read_bytes PGSIZE); [rewrite Hp3 | rewrite Hp4]; lia. }
          rewrite lookup_app_l by lia. unfold got.
          rewrite lookup_take_lt by lia. rewrite lookup_drop. f_equal. lia.
        + assert (Hp : prb = read_bytes) by (apply Hp3; lia).
          rewrite lookup_app_r by lia. apply lookup_replicate_2. lia.
      - replace (upage + j) with (upage + PGSIZE + (j - PGSIZE)) by lia.
        rewrite Hbytes by lia. cbn [f_bytes f_pos f1].
        destruct (Z_lt_ge_dec read_bytes PGSIZE) as [Hrl|Hrg].
        + rewrite (Hp3 Hrl).
          destruct (Z.ltb_spec (j - PGSIZE) (read_bytes - read_bytes)); [lia|].
          destruct (Z.ltb_spec j read_bytes); [lia | reflexivity].
        + rewrite (Hp4 ltac:(lia)).
          destruct (Z.ltb_spec (j - PGSIZE) (read_bytes - PGSIZE)),
                   (Z.ltb_spec j read_bytes); try lia; [|reflexivity].
          f_equal. lia. }
    split.
    { intros u Hu. rewrite Hpdf by lia. unfold pd1. apply lookup_insert_ne. lia. }
    split.
    { intros k' Hk'. rewrite Hfrf.
      - unfold frames1. apply lookup_insert_ne. intros ->. apply Hk'. left.
      - intros Hin. apply Hk'. right. exact Hin. }
    intros [|i] k' Hi; cbn in Hi.
    + inversion Hi; subst k'. replace (upage + Z.of_nat 0 * PGSIZE) with upage by lia.
      exact Hpd0.
    + replace (upage + Z.of_nat (S i) * PGSIZE) with (upage + PGSIZE + Z.of_nat i * PGSIZE)
        by lia.
      apply Hmap. exact Hi.
Qed.

(** X26.  [load_segment] builds the memory image of the segment.  When
    the sizes add up to whole pages, the file holds [read_bytes] bytes from
    [ofs] on, the pages from [upage] up are below [PHYS_BASE] and not yet
    mapped, and the allocator has a frame for each of them, it returns
    true, and afterwards user code reading at [upage + j] finds byte
    [ofs + j] of the file for [j < read_bytes] and zero for the next
    [zero_bytes] bytes.  Page [i] of the segment is mapped to the [i]-th
    frame handed out, with the [writable] flag asked for, and no other
    mapping of the page directory has changed. *)
Theorem load_segment_image (f : file) (ofs upage read_bytes zero_bytes : Z)
  (writable : bool) (pd : gmap Z (Z * bool)) (frames : gmap Z (list Z))
  (kpages : list Z) (rest : list (option Z * bool)) :
  0 <= read_bytes -> 0 <= zero_bytes ->
  read_bytes + zero_bytes = Z.of_nat (length kpages) * PGSIZE ->
  0 <= ofs -> ofs mod PGSIZE = 0 ->
  ofs + read_bytes <= Z.of_nat (length (f_bytes f)) ->
  0 <= upage -> upage mod PGSIZE = 0 ->
  upage + read_bytes + zero_bytes <= PHYS_BASE ->
  NoDup kpages ->
  (forall i : nat, (i < length kpages)%nat -> pd !! (upage + Z.of_nat i * PGSIZE) = None) ->
  exists f' pd' frames',
    load_segment f ofs upage read_bytes zero_bytes writable pd frames
      (((fun k => (Some k, true)) <$> kpages) ++ rest)
    = Ret (true, f', pd', frames') /\
    (forall j, 0 <= j < read_bytes + zero_bytes ->
       user_byte pd' frames' (upage + j)
       = if j <? read_bytes then f_bytes f !! Z.to_nat (ofs + j) else Some 0) /\
    (forall (i : nat) k, kpages !! i = Some k ->
       pd' !! (upage + Z.of_nat i * PGSIZE) = Some (k, writable)) /\
    (forall u, u < upage \/ upage + read_bytes + zero_bytes <= u -> pd' !! u = pd !! u).
Proof.
  intros Hr Hz Hsum Hofs Hofsal Hfile Hup Hal Htop Hnd Hfree.
  pose proof PGSIZE_val as HPG. pose proof PHYS_BASE_val as HPB.
  pose proof UINT32_MOD_val as HU.
  unfold load_segment.
  assert (add32 read_bytes zero_bytes mod PGSIZE = 0) as ->.
  { unfold add32, wrap32. rewrite (Z.mod_small _ UINT32_MOD) by lia.
    rewrite Hsum. apply Z.mod_mul. lia. }
  assert (pg_ofs upage = 0) as ->.
  { unfold pg_ofs. rewrite land_PGMASK. exact Hal. }
  assert (Z.rem ofs PGSIZE = 0) as ->.
  { rewrite Z.rem_mod_nonneg by lia. exact Hofsal. }
  cbn [Z.eqb negb].
  assert (Z.to_nat ((read_bytes + zero_bytes) / PGSIZE) = length kpages) as ->.
  { rewrite Hsum, Z.div_mul by lia. apply Nat2Z.id. }
  destruct (load_segment_loop_image writable kpages (file_seek f ofs) upage read_bytes
              zero_bytes pd frames rest Hr Hz Hsum Hofs Hfile Hup Hal Htop Hnd Hfree)
    as (f' & pd' & frames' & Hrun & Hbytes & Hpdf & _ & Hmap).
  exists f', pd', frames'. split; [exact Hrun|]. split; [exact Hbytes|].
  split; [exact Hmap | exact Hpdf].
Qed.

Lemma load_segment_image_witness :
  exists f' pd' frames',
    load_segment (mkFile (replicate 5000 7) 0) 4096 0x08048000 200 3896 false ∅ ∅
      [(Some 77, true)]
    = Ret (true, f', pd', frames') /\
    user_byte pd' frames' (0x08048000 + 199) = Some 7 /\
    user_byte pd' frames' (0x08048000 + 200) = Some 0 /\
    pd' !! 0x08048000 = Some (77, false).
Proof.
  destruct (load_segment_image (mkFile (replicate 5000 7) 0) 4096 0x08048000 200 3896 false
              ∅ ∅ [77] [])
    as (f' & pd' & frames' & Hrun & Hbytes & Hmap & _).
  - lia.
  - lia.
  - reflexivity.
  - lia.
  - reflexivity.
  - cbn [f_bytes]. rewrite length_replicate. lia.
  - lia.
  - reflexivity.
  - rewrite PHYS_BASE_val. lia.
  - apply NoDup_singleton.
  - intros i Hi. apply lookup_empty.
  - exists f', pd', frames'. split; [exact Hrun|].
    split; [rewrite (Hbytes 199) by lia; reflexivity|].
    split; [rewrite (Hbytes 200) by lia; reflexivity|].
    exact (Hmap O 77 eq_refl).
Defined.

(** X27.  [load_segment] never maps over a page that is mapped already:
    whether it returns true or false, every mapping the page directory had
    before the call is still there afterwards, unchanged. *)
Theorem load_segment_keeps_mappings (f : file) (ofs upage read_bytes zero_bytes : Z)
  (writable : bool) (pd : gmap Z (Z * bool)) (frames : gmap Z (list Z))
  (allocs : list (option Z * bool)) (ok : bool) (f' : file) (pd' : gmap Z (Z * bool))
  (frames' : gmap Z (list Z)) :
  load_segment f ofs upage read_bytes zero_bytes writable pd frames allocs
  = Ret (ok, f', pd', frames') ->
  forall u x, pd !! u = Some x -> pd' !! u = Some x.
Proof.
  unfold load_segment.
  destruct (negb _); [discriminate|]. destruct (negb _); [discriminate|].
  destruct (negb _); [discriminate|].
  generalize (Z.to_nat ((read_bytes + zero_bytes) / PGSIZE)) as n.
  generalize (file_seek f ofs) as f0. clear f ofs.
  intros f0 n. revert f0 upage read_bytes zero_bytes pd frames allocs.
  induction n as [|n IH]; intros f0 upage read_bytes zero_bytes pd frames allocs;
    cbn [load_segment_loop].
  - destruct (_ || _); [discriminate|]. intros H; inversion H; subst. tauto.
  - destruct (_ || _); [|intros H; inversion H; subst; tauto].
    destruct allocs as [|[[kpage|] pt_ok] allocs];
      [intros H; inversion H; subst; tauto | | intros H; inversion H; subst; tauto].
    destruct (file_read f0 _) as [got f1].
    destruct (negb _); [intros H; inversion H; subst; tauto|].
    unfold install_page. destruct (pd !! upage) as [y|] eqn:Hmapped;
      [intros H; inversion H; subst; tauto|].
    destruct pt_ok; [|intros H; inversion H; subst; tauto].
    intros Hrun u x Hu. apply (IH _ _ _ _ _ _ _ Hrun).
    rewrite lookup_insert_ne; [exact Hu|]. intros ->. congruence.
Qed.

Lemma load_segment_keeps_mappings_witness :
  load_segment (mkFile (replicate 5000 7) 0) 4096 0x08048000 200 3896 false
    {[ 0x08048000 := (55, true) ]} ∅ [(Some 77, true)]
  = Ret (false, mkFile (replicate 5000 7) 4296, {[ 0x08048000 := (55, true) ]}, ∅) /\
  ({[ 0x08048000 := (55, true) ]} : gmap Z (Z * bool)) !! 0x08048000 = Some (55, true).
Proof.
  assert (Hrun : load_segment (mkFile (replicate 5000 7) 0) 4096 0x08048000 200 3896 false
                   {[ 0x08048000 := (55, true) ]} ∅ [(Some 77, true)]
                 = Ret (false, mkFile (replicate 5000 7) 4296,
                        {[ 0x08048000 := (55, true) ]}, ∅)).
  { vm_compute. reflexivity. }
  split; [exact Hrun|].
  apply (load_segment_keeps_mappings _ _ _ _ _ _ _ _ _ _ _ _ _ Hrun).
  apply lookup_singleton_eq.
Defined.

End Loader.

Section ExecuteAndWait.

Lemma list_remove_snoc (a : nat) (l : list nat) :
  a ∉ l -> list_remove a (l ++ [a]) = l.
Proof.
  induction l as [|b l IH]; intros Ha; cbn.
  - rewrite decide_True by reflexivity. reflexivity.
  - rewrite decide_False by (intros ->; apply Ha; left).
    rewrite IH; [reflexivity|]. intros Hin. apply Ha. right. exact Hin.
Qed.

(** X28.  [process_execute] reports to the parent what the child has
    published: when [thread_create] failed or the child could not be loaded
    it returns [TID_ERROR] and the list of children stays as it was.
    Otherwise it returns the child's tid and puts the child's wait-status
    at the back of the list, which stays well formed; a [process_wait] on
    that tid then finds the record, takes it off the list again and, the
    child being alive, goes to sleep on its [dead] semaphore instead of
    returning -1. *)
Theorem process_execute_then_wait (parent : process) (ws : gmap nat wait_status)
  (tid : Z) (cs : nat) :
  children_ok parent ws = true -> tid <> TID_ERROR ->
  cs ∉ children parent -> ws !! cs = Some (new_wait_status tid) ->
  (forall b cb, b ∈ children parent -> ws !! b = Some cb -> ws_pid cb <> tid) ->
  process_execute_link tid false cs parent = (TID_ERROR, parent) /\
  (forall success, process_execute_link TID_ERROR success cs parent = (TID_ERROR, parent)) /\
  process_execute_link tid true cs parent
  = (tid, set_children (children parent ++ [cs]) parent) /\
  children_ok (set_children (children parent ++ [cs]) parent) ws = true /\
  process_wait tid (set_children (children parent ++ [cs]) parent) ws
  = Sleeps (OnDead cs) (set_children (children parent) parent, ws).
Proof.
  intros Hok Htid Hcs Hrec Hfresh.
  destruct (process_execute_link_children_ok parent ws tid cs (new_wait_status tid)
              Hok Htid Hcs Hrec eq_refl Hfresh) as (_ & _ & Hok').
  assert (Hlink : process_execute_link tid true cs parent
                  = (tid, set_children (children parent ++ [cs]) parent)).
  { unfold process_execute_link. rewrite bool_decide_eq_true_2 by exact Htid. reflexivity. }
  rewrite Hlink in Hok'. cbn [snd] in Hok'.
  split.
  { unfold process_execute_link. rewrite bool_decide_eq_true_2 by exact Htid. reflexivity. }
  split.
  { intros success. unfold process_execute_link.
    rewrite bool_decide_eq_false_2 by (intros H; apply H; reflexivity). reflexivity. }
  split; [exact Hlink|]. split; [exact Hok'|].
  pose proof (children_ok_unfold _ _ Hok') as (Hnd & Hlive & Hpids).
  assert (Hfind : find_child ws tid
                    (children (set_children (children parent ++ [cs]) parent))
                  = Ret (Some cs)).
  { apply (find_child_found ws cs (new_wait_status tid) _ Hlive Hpids).
    - cbn [children set_children]. apply elem_of_app. right. left.
    - exact Hrec. }
  unfold process_wait. rewrite Hfind.
  cbn [children set_children]. rewrite (list_remove_snoc cs _ Hcs).
  unfold process_wait_finish. rewrite Hrec. reflexivity.
Qed.

Lemma process_execute_then_wait_witness :
  process_wait 12 (set_children (children parent_pcb ++ [2%nat]) parent_pcb)
    (<[2%nat := new_wait_status 12]> parent_ws)
  = Sleeps (OnDead 2)
      (set_children (children parent_pcb) parent_pcb, <[2%nat := new_wait_status 12]> parent_ws).
Proof.
  refine (proj2 (proj2 (proj2 (proj2
    (process_execute_then_wait parent_pcb (<[2%nat := new_wait_status 12]> parent_ws) 12 2%nat
       _ _ _ _ _))))).
  - vm_compute. reflexivity.
  - discriminate.
  - apply (bool_decide_unpack (2%nat ∉ [0%nat; 1%nat])). exact I.
  - apply lookup_insert_eq.
  - intros b cb Hb Hcb. cbn in Hb.
    apply elem_of_cons in Hb. destruct Hb as [->|Hb].
    + vm_compute in Hcb. inversion Hcb. discriminate.
    + apply list_elem_of_singleton in Hb. subst b.
      vm_compute in Hcb. inversion Hcb. discriminate.
Defined.

End ExecuteAndWait.

Section InitialStackPage.

(** *** [init_cmd_line] with the page of the failing paths *)

Lemma push_arguments_page_agrees (args : list Z) :
  forall (m : list Z) (ofs : Z),
  push_arguments m ofs args
  = ('(m', r) ← push_arguments_page m ofs args;
     Ret (match r with Some ofs' => Some (m', ofs') | None => None end)).
Proof.
  induction args as [|a args IH]; intros m ofs; [reflexivity|].
  cbn [push_arguments push_arguments_page].
  destruct (push m ofs (le_bytes32 a)) as [[[[m1 ofs1] d1]|]| | |];
    cbn [mbind outcome_bind]; try reflexivity.
  apply IH.
Qed.

(** The two renderings of [init_cmd_line] return the same value, and the
    same page when that value is true. *)
Lemma init_cmd_line_page_agrees (kpage : list Z) (upage : Z) (cmd_line : list Z) :
  init_cmd_line kpage upage cmd_line
  = ('(m, r) ← init_cmd_line_page kpage upage cmd_line;
     Ret (match r with Some esp => Some (m, esp) | None => None end)).
Proof.
  unfold init_cmd_line, init_cmd_line_page.
  destruct (push kpage PGSIZE (cmd_line ++ [0])) as [[[[m0 ofs0] c0]|]| | |];
    cbn [mbind outcome_bind]; try reflexivity.
  destruct (parse_arguments _ m0 _ upage []) as [[m1 args]| | |];
    cbn [mbind outcome_bind]; try reflexivity.
  destruct (push m1 _ (le_bytes32 0)) as [[[[m2 ofs2] c2]|]| | |];
    cbn [mbind outcome_bind]; try reflexivity.
  rewrite push_arguments_page_agrees.
  destruct (push_arguments_page m2 ofs2 args) as [[m3 [ofs3|]]| | |];
    cbn [mbind outcome_bind]; try reflexivity.
  destruct (push (reverse _ _ _) ofs3 _) as [[[[m4 ofs4] c4]|]| | |];
    cbn [mbind outcome_bind]; try reflexivity.
  destruct (push m4 ofs4 _) as [[[[m5 ofs5] c5]|]| | |];
    cbn [mbind outcome_bind]; try reflexivity.
  destruct (push m5 ofs5 _) as [[[[m6 ofs6] c6]|]| | |];
    cbn [mbind outcome_bind]; reflexivity.
Qed.

(** A [push] of a word that returns has stored it just below the offset,
    inside the page. *)
Lemma push_word_inv (m : list Z) (ofs w : Z) (m' : list Z) (ofs' dst : Z) :
  push m ofs (le_bytes32 w) = Ret (Some (m', ofs', dst)) ->
  4 <= ofs <= PGSIZE /\ m' = store32 m (ofs - 4) w /\ ofs' = ofs - 4.
Proof.
  unfold push. cbn [length le_bytes32]. change (Z.of_nat 4) with 4. rewrite ROUND_UP_4.
  destruct (Z.ltb_spec ofs 4); [discriminate|].
  destruct (Z.leb_spec (ofs - 4 + (4 - 4) + 4) PGSIZE); [|discriminate].
  intros H'. inversion H'.
  replace (ofs - 4 + (4 - 4)) with (ofs - 4) by lia.
  split; [lia|]. split; reflexivity.
Qed.

(** Whatever a word [push] returns, the page is the same from the old
    offset up. *)
Lemma push_word_same_above (m : list Z) (ofs w : Z) (r : option (list Z * Z * Z)) :
  push m ofs (le_bytes32 w) = Ret r ->
  match r with
  | Some (m', ofs', _) => 0 <= ofs' /\ ofs' = ofs - 4 /\ same_outside m m' 0 ofs
  | None => True
  end.
Proof.
  destruct r as [[[m' ofs'] dst]|]; [|trivial].
  intros Hp. apply push_word_inv in Hp. destruct Hp as (Hofs & -> & ->).
  split; [lia|]. split; [reflexivity|].
  pose proof (store32_same_outside m (ofs - 4) w ltac:(lia)) as Hst.
  eapply same_outside_trans; [exact Hst | apply (same_outside_refl _ 0 ofs) | lia..].
Qed.

Lemma push_arguments_page_same_above (args : list Z) :
  forall (m : list Z) (ofs : Z) (m' : list Z) (r : option Z),
  0 <= ofs ->
  push_arguments_page m ofs args = Ret (m', r) ->
  same_outside m m' 0 ofs /\
  forall ofs', r = Some ofs' -> 0 <= ofs' /\ ofs' + 4 * Z.of_nat (length args) = ofs.
Proof.
  induction args as [|a args IH]; intros m ofs m' r Hofs; cbn [push_arguments_page].
  - intros H. inversion H; subst. split; [apply same_outside_refl|].
    intros ofs' Ho. inversion Ho; subst. cbn [length]. lia.
  - destruct (push m ofs (le_bytes32 a)) as [[[[m1 ofs1] d1]|]| | |] eqn:Hp;
      cbn [mbind outcome_bind]; try discriminate.
    + pose proof (push_word_same_above _ _ _ _ Hp) as (H1 & -> & Hsame1).
      intros Hrest. destruct (IH _ _ _ _ H1 Hrest) as [Hsame2 Hr].
      split.
      * eapply same_outside_trans; [exact Hsame1 | exact Hsame2 | lia..].
      * intros ofs' Ho. destruct (Hr ofs' Ho) as [H0 Hlen]. cbn [length]. lia.
    + intros H. inversion H; subst. split; [apply same_outside_refl|].
      intros ofs' Ho. discriminate Ho.
Qed.

(** [reverse] touches the array only. *)
Lemma reverse_same_outside (n : nat) :
  forall (a : Z) (m : list Z),
  0 <= a -> same_outside m (reverse n a m) a (a + 4 * Z.of_nat n).
Proof.
  induction n as [n IH] using lt_wf_ind. intros a m Ha.
  destruct n as [|[|n]]; [apply same_outside_refl | apply same_outside_refl|].
  cbn [reverse].
  set (last := a + 4 * (Z.of_nat (S (S n)) - 1)).
  set (m1 := store32 m a (load32 m last)).
  set (m2 := store32 m1 last (load32 m a)).
  pose proof (store32_same_outside m a (load32 m last) Ha) as H1. fold m1 in H1.
  pose proof (store32_same_outside m1 last (load32 m a) ltac:(unfold last; lia)) as H2.
  fold m2 in H2.
  pose proof (IH n ltac:(lia) (a + 4) m2 ltac:(lia)) as H3.
  assert (H12 : same_outside m m2 a (a + 4 * Z.of_nat (S (S n)))).
  { eapply same_outside_trans; [exact H1 | exact H2 | unfold last; lia..]. }
  eapply same_outside_trans; [exact H12 | exact H3 | lia..].
Qed.

(** Once the string has been pushed and cut into tokens, the rest of
    [init_cmd_line] writes below it only, whether it returns true or
    false. *)
Lemma init_cmd_line_page_keeps_string (kpage : list Z) (upage : Z) (cmd_line : list Z)
  (m0 : list Z) (ofs0 c0 : Z) (m1 : list Z) (arguments : list Z) (m : list Z)
  (e : option Z) :
  push kpage PGSIZE (cmd_line ++ [0]) = Ret (Some (m0, ofs0, c0)) ->
  0 <= ofs0 <= PGSIZE ->
  parse_arguments (S (length m0)) m0 (Z.to_nat c0) upage [] = Ret (m1, arguments) ->
  init_cmd_line_page kpage upage cmd_line = Ret (m, e) ->
  same_outside m1 m 0 ofs0.
Proof.
  intros Hp0 Hofs0 Hparse. unfold init_cmd_line_page.
  rewrite Hp0. cbn [mbind outcome_bind]. rewrite Hparse. cbn [mbind outcome_bind].
  set (argc := Z.of_nat (length arguments)).
  set (adj := wrap32 (PGSIZE - ofs0 + (argc + 1) * 4 + 4 + 4) mod 16).
  set (ofs1 := sub32 ofs0 (16 - adj)).
  assert (Hadj : 0 <= adj < 16) by (apply Z.mod_pos_bound; lia).
  destruct (push m1 ofs1 (le_bytes32 0)) as [[[[m2 ofs2] c2]|]| | |] eqn:Hp2;
    cbn [mbind outcome_bind]; try discriminate.
  2: { intros H. inversion H; subst. apply same_outside_refl. }
  pose proof (push_word_inv _ _ _ _ _ _ Hp2) as (Hofs1 & _ & _).
  pose proof (push_word_same_above _ _ _ _ Hp2) as (H2 & Hofs2 & Hsame2).
  assert (Hle : ofs1 <= ofs0).
  { unfold ofs1, sub32, wrap32 in *. rewrite UINT32_MOD_val in *.
    rewrite PGSIZE_val in *. clearbody adj. clear - Hofs1 Hofs0 Hadj.
    Z.div_mod_to_equations. lia. }
  destruct (push_arguments_page m2 ofs2 arguments) as [[m3 r3]| | |] eqn:Hp3;
    cbn [mbind outcome_bind]; try discriminate.
  destruct (push_arguments_page_same_above _ _ _ _ _ H2 Hp3) as [Hsame3 Hr3].
  assert (Hs3 : same_outside m1 m3 0 ofs0).
  { eapply same_outside_trans; [exact Hsame2 | exact Hsame3 | lia..]. }
  destruct r3 as [ofs3|].
  2: { intros H. inversion H; subst. exact Hs3. }
  destruct (Hr3 ofs3 eq_refl) as [H3 Hlen3]. fold argc in Hlen3.
  pose proof (reverse_same_outside (length arguments) ofs3 m3 H3) as Hsame4.
  fold argc in Hsame4.
  set (m4 := reverse (length arguments) ofs3 m3) in *.
  assert (Hs4 : same_outside m1 m4 0 ofs0).
  { eapply same_outside_trans; [exact Hs3 | exact Hsame4 | lia..]. }
  destruct (push m4 ofs3 _) as [[[[m5 ofs5] c5]|]| | |] eqn:Hp5;
    cbn [mbind outcome_bind]; try discriminate.
  2: { intros H. inversion H; subst. exact Hs4. }
  pose proof (push_word_same_above _ _ _ _ Hp5) as (H5 & Hofs5 & Hsame5).
  assert (Hs5 : same_outside m1 m5 0 ofs0).
  { eapply same_outside_trans; [exact Hs4 | exact Hsame5 | lia..]. }
  destruct (push m5 ofs5 _) as [[[[m6 ofs6] c6]|]| | |] eqn:Hp6;
    cbn [mbind outcome_bind]; try discriminate.
  2: { intros H. inversion H; subst. exact Hs5. }
  pose proof (push_word_same_above _ _ _ _ Hp6) as (H6 & Hofs6 & Hsame6).
  assert (Hs6 : same_outside m1 m6 0 ofs0).
  { eapply same_outside_trans; [exact Hs5 | exact Hsame6 | lia..]. }
  destruct (push m6 ofs6 _) as [[[[m7 ofs7] c7]|]| | |] eqn:Hp7;
    cbn [mbind outcome_bind]; try discriminate.
  2: { intros H. inversion H; subst. exact Hs6. }
  pose proof (push_word_same_above _ _ _ _ Hp7) as (H7 & Hofs7 & Hsame7).
  intros H. inversion H; subst.
  eapply same_outside_trans; [exact Hs6 | exact Hsame7 | lia..].
Qed.

(** The frame [init_cmd_line] leaves when it has run on a page: as long as
    the page, and holding each token of the command line with its
    terminator once the string itself has found room. *)
Lemma init_cmd_line_page_tokens (kpage : list Z) (upage : Z) (cmd_line : list Z)
  (m : list Z) (e : option Z) :
  Z.of_nat (length kpage) = PGSIZE ->
  Forall (fun c => c <> 0) cmd_line ->
  (length (tokens cmd_line) < MAX_ARGS)%nat ->
  init_cmd_line_page kpage upage cmd_line = Ret (m, e) ->
  length m = length kpage /\
  (PGSIZE < string_bytes cmd_line -> m = kpage /\ e = None) /\
  (string_bytes cmd_line <= PGSIZE ->
   Forall (fun w => exists t : nat, bytes_at m t (w ++ [0])) (tokens cmd_line)).
Proof.
  intros Hklen Hz Htoks Hrun.
  pose proof PGSIZE_val as HPG.
  unfold string_bytes.
  set (n := Z.of_nat (length cmd_line)) in *.
  set (S0 := ROUND_UP (n + 1) 4) in *.
  assert (Hn : 0 <= n) by (unfold n; lia).
  destruct (ROUND_UP_bounds (n + 1) ltac:(lia)) as [HS0 _]. fold S0 in HS0.
  assert (Hbuf : Z.of_nat (length (cmd_line ++ [0])) = n + 1).
  { rewrite length_app. cbn [length]. unfold n. lia. }
  destruct (Z_lt_ge_dec PGSIZE S0) as [Hlong|Hfit].
  - assert (Hm : m = kpage /\ e = None).
    { revert Hrun. unfold init_cmd_line_page, push. rewrite Hbuf. fold S0.
      destruct (Z.ltb_spec PGSIZE S0); [|lia].
      cbn [mbind outcome_bind]. intros H'. inversion H'. split; reflexivity. }
    destruct Hm as [-> ->]. split; [reflexivity|]. split; [intros _; split; reflexivity|].
    intros Hno. lia.
  - assert (Hpush0 : push kpage PGSIZE (cmd_line ++ [0])
                     = Ret (Some (memcpy kpage (PGSIZE - (n + 1)) (cmd_line ++ [0]),
                                  PGSIZE - S0, PGSIZE - (n + 1)))).
    { unfold push. rewrite Hbuf. fold S0.
      destruct (Z.ltb_spec PGSIZE S0); [lia|].
      replace (PGSIZE - S0 + (S0 - (n + 1))) with (PGSIZE - (n + 1)) by lia.
      destruct (Z.leb_spec (PGSIZE - (n + 1) + (n + 1)) PGSIZE); [reflexivity | lia]. }
    set (m0 := memcpy kpage (PGSIZE - (n + 1)) (cmd_line ++ [0])) in *.
    assert (Hm0len : length m0 = length kpage).
    { unfold m0, memcpy. apply length_inserts. }
    assert (Hdrop0 : drop (Z.to_nat (PGSIZE - (n + 1))) m0 = cmd_line ++ [0]).
    { apply memcpy_drop_end; lia. }
    destruct (parse_arguments_spec upage (length cmd_line) cmd_line (Nat.le_refl _)
                (S (length m0)) m0 (Z.to_nat (PGSIZE - (n + 1))) [] [] Hdrop0 Hz)
      as (m1 & starts & Hparse & Hsame1 & Hall).
    { rewrite Hm0len. unfold n in *. lia. }
    { cbn [length]. exact Htoks. }
    cbn [app] in Hparse.
    pose proof (init_cmd_line_page_keeps_string kpage upage cmd_line _ _ _ _ _ m e
                  Hpush0 ltac:(lia) Hparse Hrun) as Hsame.
    split.
    { destruct Hsame as [-> _]. destruct Hsame1 as [-> _]. exact Hm0len. }
    split; [intros Hno; lia|]. intros _.
    clear - Hall Hsame HS0 Hn HPG Hfit.
    induction Hall as [|t w starts toks (Ht & _ & Hb) _ IH]; constructor; [|exact IH].
    exists t.
    apply (bytes_at_same_outside m1 m t (w ++ [0]) 0 (PGSIZE - S0) Hsame); [|exact Hb].
    intros p Hp. right. lia.
Qed.

(** X29.  [setup_stack] returns false and leaves the page directory alone
    when there is no frame, and when the page below [PHYS_BASE] is mapped
    already or cannot be mapped.  Otherwise the frame is mapped writable at
    [PHYS_BASE - PGSIZE] and stays mapped whatever [init_cmd_line] returns.
    For a command line that fits, the result is true, the frame is the page
    [init_cmd_line] has filled, and the stack pointer lies inside that page
    and is 12 modulo 16.  When [init_cmd_line] returns false the result is
    false and the frame is left as the call made it: the zeroed page when
    not even the string found room, and otherwise a page that holds every
    token of the command line. *)
Theorem setup_stack_maps_top_page (cmd_line : list Z) (pd : gmap Z (Z * bool))
  (kpage : Z) :
  setup_stack cmd_line pd None true = Ret (false, pd, None, None) /\
  setup_stack cmd_line pd (Some kpage) false = Ret (false, pd, None, None) /\
  (is_Some (pd !! stack_upage) ->
   setup_stack cmd_line pd (Some kpage) true = Ret (false, pd, None, None)) /\
  (pd !! stack_upage = None -> Forall (fun c => c <> 0) cmd_line ->
   fits_in_page cmd_line ->
   exists m esp,
     setup_stack cmd_line pd (Some kpage) true
     = Ret (true, <[stack_upage := (kpage, true)]> pd, Some (kpage, m), Some esp) /\
     init_cmd_line zero_page stack_upage cmd_line = Ret (Some (m, esp)) /\
     stack_upage <= esp < PHYS_BASE /\ esp mod 16 = 12) /\
  (pd !! stack_upage = None -> Forall (fun c => c <> 0) cmd_line ->
   (length (tokens cmd_line) < MAX_ARGS)%nat ->
   init_cmd_line zero_page stack_upage cmd_line = Ret None ->
   exists m,
     setup_stack cmd_line pd (Some kpage) true
     = Ret (false, <[stack_upage := (kpage, true)]> pd, Some (kpage, m), None) /\
     length m = length zero_page /\
     (PGSIZE < string_bytes cmd_line -> m = zero_page) /\
     (string_bytes cmd_line <= PGSIZE ->
      Forall (fun w => exists t : nat, bytes_at m t (w ++ [0])) (tokens cmd_line))).
Proof.
  pose proof PGSIZE_val as HPG. pose proof PHYS_BASE_val as HPB.
  pose proof UINT32_MOD_val as HU.
  unfold setup_stack, install_page. fold stack_upage.
  split; [reflexivity|]. split; [destruct (pd !! stack_upage); reflexivity|].
  split; [intros [x ->]; reflexivity|]. split.
  - intros -> Hz Hfits.
    destruct (init_cmd_line_layout zero_page stack_upage cmd_line zero_page_length)
      as (m & argv_ofs & starts & Hrun & H12 & Hend & _); try assumption.
    { unfold stack_upage. lia. }
    { unfold stack_upage. lia. }
    pose proof (init_cmd_line_esp_mod16 _ _ _ _ _ Hrun) as Hmod.
    pose proof Hrun as Hpage. rewrite init_cmd_line_page_agrees in Hpage.
    destruct (init_cmd_line_page zero_page stack_upage cmd_line) as [[m' [esp'|]]| | |];
      cbn [mbind outcome_bind] in Hpage; try discriminate Hpage.
    inversion Hpage; subst m' esp'. cbn [mbind outcome_bind].
    exists m, (stack_upage + (argv_ofs - 12)).
    split; [rewrite bool_decide_eq_true_2 by eauto; reflexivity|].
    split; [exact Hrun|].
    split; [unfold stack_upage; lia|].
    replace (stack_upage + (argv_ofs - 12) - stack_upage) with (argv_ofs - 12) in Hmod by lia.
    unfold stack_upage. rewrite HPB, HPG.
    replace (3221225472 - 4096 + (argv_ofs - 12))
      with (argv_ofs - 12 + 201326336 * 16) by lia.
    rewrite Z.mod_add by lia. exact Hmod.
  - intros -> Hz Htoks Hrun. rewrite init_cmd_line_page_agrees in Hrun.
    pose proof (init_cmd_line_page_tokens zero_page stack_upage cmd_line) as Hpage.
    destruct (init_cmd_line_page zero_page stack_upage cmd_line) as [[m [esp|]]| | |];
      cbn [mbind outcome_bind] in Hrun; try discriminate Hrun.
    destruct (Hpage m None zero_page_length Hz Htoks eq_refl) as (Hlen & Hlong & Hfit).
    cbn [mbind outcome_bind]. exists m.
    split; [rewrite bool_decide_eq_false_2 by (intros [x Hx]; discriminate Hx); reflexivity|].
    split; [exact Hlen|]. split; [|exact Hfit].
    intros Hl. apply Hlong. exact Hl.
Qed.

Lemma setup_stack_maps_top_page_witness :
  (exists m esp,
     setup_stack (bytes_of_string "ls -l") ∅ (Some 77) true
     = Ret (true, <[stack_upage := (77, true)]> ∅, Some (77, m), Some esp) /\
     stack_upage <= esp < PHYS_BASE /\ esp mod 16 = 12) /\
  setup_stack (replicate 4080 97) ∅ (Some 77) true
  = Ret (false, <[stack_upage := (77, true)]> ∅,
         Some (77, memcpy zero_page 15 (replicate 4080 97 ++ [0])), None) /\
  exists t : nat,
    bytes_at (memcpy zero_page 15 (replicate 4080 97 ++ [0])) t (replicate 4080 97 ++ [0]).
Proof.
  split.
  - destruct (proj1 (proj2 (proj2 (proj2
                (setup_stack_maps_top_page (bytes_of_string "ls -l") ∅ 77))))) as
      (m & esp & Hrun & _ & Hesp & Hmod).
    + apply lookup_empty.
    + apply (bool_decide_unpack (Forall (fun c => c <> 0) (bytes_of_string "ls -l"))).
      vm_compute. exact I.
    + vm_compute. discriminate.
    + exists m, esp. split; [exact Hrun|]. split; assumption.
  - assert (Hc : setup_stack (replicate 4080 97) ∅ (Some 77) true
                 = Ret (false, <[stack_upage := (77, true)]> ∅,
                        Some (77, memcpy zero_page 15 (replicate 4080 97 ++ [0])), None)).
    { vm_compute. reflexivity. }
    split; [exact Hc|].
    destruct (proj2 (proj2 (proj2 (proj2
                (setup_stack_maps_top_page (replicate 4080 97) ∅ 77))))) as
      (m & Hrun & _ & _ & Htok).
    + apply lookup_empty.
    + apply Forall_replicate. discriminate.
    + apply (bool_decide_unpack (length (tokens (replicate 4080 97%Z)) < MAX_ARGS)%nat).
      vm_compute. exact I.
    + vm_compute. reflexivity.
    + rewrite Hc in Hrun.
      apply (f_equal (fun r => match r with
                               | Ret (_, _, Some (_, x), _) => x
                               | _ => []
                               end)) in Hrun.
      cbv beta iota in Hrun. subst m.
      assert (Htokens : tokens (replicate 4080 97) = [replicate 4080 97]).
      { vm_compute. reflexivity. }
      specialize (Htok ltac:(vm_compute; discriminate)).
      rewrite Htokens in Htok. apply Forall_cons in Htok.
      exact (proj1 Htok).
Defined.

End InitialStackPage.

Section ConsoleOutput.

Lemma user_read_app (pd : gmap Z (Z * bool)) (frames : gmap Z (list Z)) (a : nat) :
  forall (usrc : Z) (b : nat) (l1 l2 : list Z),
  user_read pd frames usrc a = Some l1 ->
  user_read pd frames (usrc + Z.of_nat a) b = Some l2 ->
  user_read pd frames usrc (a + b) = Some (l1 ++ l2).
Proof.
  induction a as [|a IH]; intros usrc b l1 l2 H1 H2.
  - cbn in H1. inversion H1. rewrite Z.add_0_r in H2. exact H2.
  - cbn [user_read Nat.add] in *.
    destruct (user_byte pd frames usrc) as [x|]; [|discriminate].
    cbn in *. destruct (user_read pd frames (usrc + 1) a) as [l|] eqn:Hl; [|discriminate].
    cbn in H1. inversion H1; subst l1.
    rewrite (IH (usrc + 1) b l l2 Hl).
    + reflexivity.
    + replace (usrc + 1 + Z.of_nat a) with (usrc + Z.of_nat (S a)) by lia. exact H2.
Qed.

Lemma user_read_mapped (pd : gmap Z (Z * bool)) (frames : gmap Z (list Z)) (n : nat) :
  forall usrc : Z,
  (forall j : nat, (j < n)%nat -> is_Some (user_byte pd frames (usrc + Z.of_nat j))) ->
  exists l, user_read pd frames usrc n = Some l /\ length l = n.
Proof.
  induction n as [|n IH]; intros usrc H.
  - exists []. split; reflexivity.
  - destruct (H O ltac:(lia)) as [x Hx]. rewrite Z.add_0_r in Hx.
    destruct (IH (usrc + 1)) as (l & Hl & Hlen).
    { intros j Hj. specialize (H (S j) ltac:(lia)).
      replace (usrc + 1 + Z.of_nat j) with (usrc + Z.of_nat (S j)) by lia. exact H. }
    exists (x :: l). cbn [user_read]. rewrite Hx. cbn. rewrite Hl. cbn.
    split; [reflexivity | rewrite Hlen; reflexivity].
Qed.

Lemma user_byte_verify (pd : gmap Z (Z * bool)) (frames : gmap Z (list Z)) (va : Z) :
  va < PHYS_BASE -> is_Some (user_byte pd frames va) -> verify_user pd va = true.
Proof.
  intros Hlt [x Hx]. unfold verify_user.
  destruct (Z.ltb_spec va PHYS_BASE); [|lia]. cbn [andb].
  apply bool_decide_eq_true. unfold user_byte in Hx.
  destruct (pd !! (va - pg_ofs va)) as [y|]; [eauto | discriminate].
Qed.

Lemma pg_ofs_bounds (va : Z) : 0 <= pg_ofs va < PGSIZE.
Proof.
  unfold pg_ofs. rewrite land_PGMASK. apply Z.mod_pos_bound. rewrite PGSIZE_val. lia.
Qed.

Lemma sys_write_loop_stdout (file_write : Z -> list Z -> Z) (pd : gmap Z (Z * bool))
  (frames : gmap Z (list Z)) (file : Z) (fuel : nat) :
  forall (usrc size bytes_written : Z) (console : list Z),
  0 <= size <= Z.of_nat fuel -> 0 <= bytes_written ->
  bytes_written + size <= INT_MAX ->
  (forall j, 0 <= j < size ->
     usrc + j < PHYS_BASE /\ is_Some (user_byte pd frames (usrc + j))) ->
  exists buffer,
    user_read pd frames usrc (Z.to_nat size) = Some buffer /\
    Z.of_nat (length buffer) = size /\
    sys_write_loop file_write fuel STDOUT_FILENO file pd frames usrc size bytes_written
      console
    = Ret (Some (bytes_written + size), console ++ buffer).
Proof.
  induction fuel as [|fuel IH]; intros usrc size bw console Hsize Hbw Hmax Hmap.
  - assert (size = 0) as -> by lia. exists []. cbn.
    rewrite app_nil_r, Z.add_0_r. repeat split; reflexivity.
  - cbn [sys_write_loop]. destruct (Z.ltb_spec 0 size) as [Hpos|Hzero].
    + pose proof (pg_ofs_bounds usrc) as Hofs.
      set (page_left := PGSIZE - pg_ofs usrc).
      set (write_amt := if size <? page_left then size else page_left).
      assert (Hamt : 1 <= write_amt <= size).
      { unfold write_amt, page_left. destruct (Z.ltb_spec size (PGSIZE - pg_ofs usrc)); lia. }
      destruct (Hmap 0 ltac:(lia)) as [Hlt Hsome]. rewrite Z.add_0_r in Hlt, Hsome.
      rewrite (user_byte_verify pd frames usrc Hlt Hsome). cbn [negb].
      destruct (user_read_mapped pd frames (Z.to_nat write_amt) usrc) as (b1 & Hb1 & Hl1).
      { intros j Hj. apply Hmap. lia. }
      rewrite Hb1. change (STDOUT_FILENO =? STDOUT_FILENO) with true. cbn iota beta.
      destruct (Z.ltb_spec write_amt 0); [lia|].
      destruct (Z.ltb_spec INT_MAX (bw + write_amt)); [lia|].
      rewrite Z.eqb_refl. cbn [negb].
      destruct (IH (usrc + write_amt) (size - write_amt) (bw + write_amt) (console ++ b1))
        as (b2 & Hb2 & Hl2 & Hrun); try lia.
      { intros j Hj. replace (usrc + write_amt + j) with (usrc + (write_amt + j)) by lia.
        apply Hmap. lia. }
      exists (b1 ++ b2). split; [|split].
      * replace (Z.to_nat size) with (Z.to_nat write_amt + Z.to_nat (size - write_amt))%nat
          by lia.
        apply user_read_app; [exact Hb1|].
        rewrite Z2Nat.id by lia. exact Hb2.
      * rewrite length_app. lia.
      * rewrite Hrun. rewrite <- app_assoc. do 3 f_equal. lia.
    + assert (size = 0) as -> by lia. exists []. cbn [user_read Z.to_nat length].
      rewrite app_nil_r, Z.add_0_r. repeat split; reflexivity.
Qed.

(** X30.  [sys_write] to the console.  When every byte of the buffer is
    below [PHYS_BASE] and mapped, and the size fits an [int], the call puts
    exactly the bytes of the buffer on the console, in order and once each,
    however many pages the buffer crosses, and returns the size.  With
    size 0 it returns 0 and touches nothing, whatever the pointer; with a
    positive size and a first byte at or above [PHYS_BASE], it ends the
    process before anything is printed. *)
Theorem sys_write_console (file_write : Z -> list Z -> Z) (fds : list file_descriptor)
  (pd : gmap Z (Z * bool)) (frames : gmap Z (list Z)) (usrc size : Z)
  (console : list Z) :
  sys_write file_write STDOUT_FILENO fds pd frames usrc 0 console = Ret (Some 0, console) /\
  (0 < size -> PHYS_BASE <= usrc ->
   sys_write file_write STDOUT_FILENO fds pd frames usrc size console
   = Ret (None, console)) /\
  (0 <= size <= INT_MAX ->
   (forall j, 0 <= j < size ->
      usrc + j < PHYS_BASE /\ is_Some (user_byte pd frames (usrc + j))) ->
   exists buffer,
     user_read pd frames usrc (Z.to_nat size) = Some buffer /\
     Z.of_nat (length buffer) = size /\
     sys_write file_write STDOUT_FILENO fds pd frames usrc size console
     = Ret (Some size, console ++ buffer)).
Proof.
  split; [reflexivity|]. split.
  - intros Hpos Hbad. unfold sys_write. change (STDOUT_FILENO =? STDOUT_FILENO) with true.
    cbn [negb]. destruct (Z.to_nat size) as [|fuel] eqn:Hfuel; [lia|].
    cbn [sys_write_loop]. destruct (Z.ltb_spec 0 size); [|lia].
    unfold verify_user. destruct (Z.ltb_spec usrc PHYS_BASE); [lia|]. reflexivity.
  - intros Hsize Hmap. unfold sys_write. change (STDOUT_FILENO =? STDOUT_FILENO) with true.
    cbn [negb].
    destruct (sys_write_loop_stdout file_write pd frames 0 (Z.to_nat size) usrc size 0
                console) as (buffer & Hread & Hlen & Hrun); try lia; [exact Hmap|].
    exists buffer. split; [exact Hread|]. split; [exact Hlen|].
    rewrite Hrun. reflexivity.
Qed.

Lemma sys_write_console_witness :
  exists buffer,
    user_read {[ 0x08048000 := (77, false); 0x08049000 := (78, false) ]}
      {[ 77 := replicate 4096 104; 78 := replicate 4096 105 ]} (0x08049000 - 2) 4
    = Some buffer /\
    Z.of_nat (length buffer) = 4 /\
    sys_write (fun _ _ => 0) STDOUT_FILENO []
      {[ 0x08048000 := (77, false); 0x08049000 := (78, false) ]}
      {[ 77 := replicate 4096 104; 78 := replicate 4096 105 ]} (0x08049000 - 2) 4 []
    = Ret (Some 4, [] ++ buffer).
Proof.
  refine (proj2 (proj2 (sys_write_console (fun _ _ => 0) []
                          {[ 0x08048000 := (77, false); 0x08049000 := (78, false) ]}
                          {[ 77 := replicate 4096 104; 78 := replicate 4096 105 ]}
                          (0x08049000 - 2) 4 [])) _ _).
  - unfold INT_MAX. lia.
  - intros j Hj. rewrite PHYS_BASE_val. split; [lia|].
    assert (Hcases : j = 0 \/ j = 1 \/ j = 2 \/ j = 3) by lia.
    destruct Hcases as [-> | [-> | [-> | ->]]]; vm_compute; eauto.
Defined.

End ConsoleOutput.
